(** * Invoice processor: text-to-record extraction pipeline

    A shallow embedding of [src/extract_fields_v3.py] and
    [src/detect_format.py], and the properties of these functions.

    Conventions of the embedding.
    - A Python [str] is a [list ascii]; a character stands for the code point
      of the same number, so the texts covered are those whose code points
      are below 256.  On that range [\s] and [str.strip] agree on the set
      {9..13, 28..31, 32, 133, 160}, [\d] is [0-9], and the letters of the
      patterns, which are ASCII letters, match under [re.IGNORECASE] the
      ASCII letters of either case only.
    - The [re] module is embedded as a backtracking matcher that returns the
      list of all ways a pattern matches at a position, most preferred
      first; the match [re] reports is the head of that list.
    - A Python [float] is a binary64 number of [SpecFloat], with the
      operations of that module at precision 53 and maximal exponent 1024.
      The scores of [calculate_confidence_score] and the confidences of
      [detect_invoice_format] are sums of the constants 10, 15, 20, 2.5 and
      12.5, which binary64 adds exactly; they are kept as rationals.
    - A raised exception is a [Raise] result.
    - The calls of [print] have no effect on a result and are left out.
    - The texts that [get_format_recommendations] returns are never
      searched; they are kept as the byte strings of their UTF-8 form.
    - Of the callers, that is the script at the end of
      [src/extract_fields_v3.py], [process_single_invoice] of
      [src/batch_process.py] and [app.py], the steps from the text that OCR
      returned to the record with its score and warnings are embedded;
      reading the image, OCR and the writing of files are not. *)

From Stdlib Require Import Ascii String.
From Stdlib Require Import List Bool Arith ZArith QArith Qminmax Lia.
From Stdlib Require Import Floats.SpecFloat.
Import ListNotations.

Set Implicit Arguments.

(* ================================================================= *)
(** ** Python strings *)

Module PyStr.

Definition str := list ascii.

(** A string literal. *)
Definition lit (s : string) : str := list_ascii_of_string s.

Definition dollar : ascii := "$"%char.
Definition newline : ascii := "010"%char.

Definition code (c : ascii) : nat := nat_of_ascii c.

Definition in_range (lo hi : nat) (c : ascii) : bool :=
  (lo <=? code c) && (code c <=? hi).

(** [str.isspace] on one character, which is also the class [\s]. *)
Definition is_space (c : ascii) : bool :=
  in_range 9 13 c || in_range 28 32 c || (code c =? 133) || (code c =? 160).

Definition is_digit (c : ascii) : bool := in_range 48 57 c.
Definition is_upper (c : ascii) : bool := in_range 65 90 c.
Definition is_lower (c : ascii) : bool := in_range 97 122 c.

Definition to_lower (c : ascii) : ascii :=
  if is_upper c then ascii_of_nat (code c + 32) else c.
Definition to_upper (c : ascii) : ascii :=
  if is_lower c then ascii_of_nat (code c - 32) else c.

(** [s.startswith(p)] *)
Fixpoint startswith (p s : str) : bool :=
  match p, s with
  | [], _ => true
  | _ :: _, [] => false
  | a :: p', b :: s' => Ascii.eqb a b && startswith p' s'
  end.

(** [p in s] for strings: [p] occurs as a substring of [s]. *)
Fixpoint contains (p s : str) : bool :=
  startswith p s ||
  match s with
  | [] => false
  | _ :: s' => contains p s'
  end.

(** [c in s] for a single character. *)
Definition has_char (c : ascii) (s : str) : bool :=
  existsb (Ascii.eqb c) s.

(** [s.split(sep)] for a separator of one character. *)
Fixpoint split (sep : ascii) (s : str) : list str :=
  match s with
  | [] => [[]]
  | c :: s' =>
      if Ascii.eqb c sep then [] :: split sep s'
      else match split sep s' with
           | [] => [[c]]
           | w :: ws => (c :: w) :: ws
           end
  end.

(** [sep.join(parts)] for a separator of one character. *)
Fixpoint join (sep : ascii) (parts : list str) : str :=
  match parts with
  | [] => []
  | [w] => w
  | w :: ws => w ++ sep :: join sep ws
  end.

Fixpoint lstrip (s : str) : str :=
  match s with
  | c :: s' => if is_space c then lstrip s' else s
  | [] => []
  end.

Definition rstrip (s : str) : str := rev (lstrip (rev s)).

(** [s.strip()] *)
Definition strip (s : str) : str := rstrip (lstrip s).

(** [s.replace(a, b)] for single characters [a] and [b]. *)
Definition replace_char (a b : ascii) (s : str) : str :=
  map (fun c => if Ascii.eqb c a then b else c) s.

(** [s.replace(a, '')] for a single character [a]. *)
Definition remove_char (a : ascii) (s : str) : str :=
  filter (fun c => negb (Ascii.eqb c a)) s.

End PyStr.
Import PyStr.

(* ================================================================= *)
(** ** Regular expressions with the matching order of [re] *)

Module Re.

Inductive regex : Type :=
| Eps                                  (* the empty pattern *)
| Lit (a : ascii)                      (* a literal character *)
| Cls (f : ascii -> bool)              (* a class: [\d], [\s], [[...]], [.] *)
| Cat (r1 r2 : regex)
| Alt (r1 r2 : regex)                  (* r1|r2 *)
| Star (r : regex)                     (* r*, greedy *)
| StarLazy (r : regex)                 (* r*?, lazy *)
| Grp (i : nat) (r : regex)            (* capturing group number i *)
| Bol                                  (* ^ *)
| Eol.                                 (* $ *)

Definition Plus (r : regex) : regex := Cat r (Star r).          (* r+ *)
Definition PlusLazy (r : regex) : regex := Cat r (StarLazy r).  (* r+? *)
Definition Opt (r : regex) : regex := Alt r Eps.                (* r? *)

(** A literal word. *)
Fixpoint word (w : str) : regex :=
  match w with
  | [] => Eps
  | [a] => Lit a
  | a :: w' => Cat (Lit a) (word w')
  end.

(** [r1 r2 ... rn] *)
Fixpoint cat (rs : list regex) : regex :=
  match rs with
  | [] => Eps
  | [r] => r
  | r :: rs' => Cat r (cat rs')
  end.

(** [r1|r2|...|rn] *)
Fixpoint alt (rs : list regex) : regex :=
  match rs with
  | [] => Eps
  | [r] => r
  | r :: rs' => Alt r (alt rs')
  end.

(** The groups captured so far, most recent first. *)
Definition env := list (nat * str).

Fixpoint group (i : nat) (e : env) : option str :=
  match e with
  | [] => None
  | (j, s) :: e' => if Nat.eqb i j then Some s else group i e'
  end.

(** A point of a match: the captures, the offset into the subject, and the
    part of the subject that is still to be read. *)
Record cfg : Type := Cfg { caps : env; pos : nat; rest : str }.

(** One character against a literal, under [re.IGNORECASE] when [ic]. *)
Definition lit_ok (ic : bool) (a x : ascii) : bool :=
  Ascii.eqb a x || (ic && Ascii.eqb (to_lower a) (to_lower x)).

(** One character against a class, under [re.IGNORECASE] when [ic]. *)
Definition cls_ok (ic : bool) (f : ascii -> bool) (x : ascii) : bool :=
  f x || (ic && (f (to_lower x) || f (to_upper x))).

Definition one (ok : ascii -> bool) (c : cfg) : list cfg :=
  match rest c with
  | x :: s => if ok x then [Cfg (caps c) (S (pos c)) s] else []
  | [] => []
  end.

Definition shorter (c' c : cfg) : bool :=
  length (rest c') <? length (rest c).

(** Greedy repetition: one more round first, stopping as the last resort.
    A round that reads nothing ends the repetition. *)
Fixpoint greedy (step : cfg -> list cfg) (fuel : nat) (c : cfg) : list cfg :=
  match fuel with
  | O => [c]
  | S f =>
      flat_map (fun c' => if shorter c' c then greedy step f c' else [])
               (step c) ++ [c]
  end.

(** Lazy repetition: stopping first, one more round as the last resort. *)
Fixpoint lazy (step : cfg -> list cfg) (fuel : nat) (c : cfg) : list cfg :=
  match fuel with
  | O => [c]
  | S f =>
      c :: flat_map (fun c' => if shorter c' c then lazy step f c' else [])
                    (step c)
  end.

(** All the ways [r] matches from [c], in the order in which a backtracking
    matcher tries them. *)
Fixpoint run (ic : bool) (r : regex) (c : cfg) : list cfg :=
  match r with
  | Eps => [c]
  | Lit a => one (lit_ok ic a) c
  | Cls f => one (cls_ok ic f) c
  | Cat r1 r2 => flat_map (run ic r2) (run ic r1 c)
  | Alt r1 r2 => run ic r1 c ++ run ic r2 c
  | Star r' => greedy (run ic r') (length (rest c)) c
  | StarLazy r' => lazy (run ic r') (length (rest c)) c
  | Grp i r' =>
      map (fun c' => Cfg ((i, firstn (pos c' - pos c) (rest c)) :: caps c')
                         (pos c') (rest c'))
          (run ic r' c)
  | Bol => if pos c =? 0 then [c] else []
  | Eol => match rest c with
           | [] => [c]
           | [x] => if Ascii.eqb x newline then [c] else []
           | _ => []
           end
  end.

(** A match object: the captured groups and the span of the match. *)
Record mobj : Type := Mobj { groups : env; m_start : nat; m_end : nat;
                             m_text : str; m_after : str }.

Definition first_at (ic : bool) (r : regex) (p : nat) (s : str) : option mobj :=
  match run ic r (Cfg [] p s) with
  | c :: _ => Some (Mobj (caps c) p (pos c) (firstn (pos c - p) s) (rest c))
  | [] => None
  end.

(** [re.match(r, s)] *)
Definition re_match (ic : bool) (r : regex) (s : str) : option mobj :=
  first_at ic r 0 s.

Fixpoint search_from (ic : bool) (r : regex) (p : nat) (s : str) : option mobj :=
  match first_at ic r p s with
  | Some m => Some m
  | None => match s with
            | [] => None
            | _ :: s' => search_from ic r (S p) s'
            end
  end.

(** [re.search(r, s)] *)
Definition re_search (ic : bool) (r : regex) (s : str) : option mobj :=
  search_from ic r 0 s.

(** The scan shared by [re.findall] and [re.sub]: the matches from left to
    right, none overlapping another, with the text between them.  After an
    empty match the scan moves on by one character. *)
Inductive piece : Type :=
| Text (c : ascii)
| Match (m : mobj).

Fixpoint scan (ic : bool) (r : regex) (fuel : nat) (p : nat) (s : str) : list piece :=
  match fuel with
  | O => map Text s
  | S f =>
      match first_at ic r p s with
      | Some m =>
          if m_end m =? p then
            Match m :: match s with
                       | [] => []
                       | c :: s' => Text c :: scan ic r f (S p) s'
                       end
          else Match m :: scan ic r f (m_end m) (m_after m)
      | None =>
          match s with
          | [] => []
          | c :: s' => Text c :: scan ic r f (S p) s'
          end
      end
  end.

Definition pieces (ic : bool) (r : regex) (s : str) : list piece :=
  scan ic r (S (length s)) 0 s.

(** [re.findall(r, s)] for a pattern with one group: the text of group 1 of
    each match. *)
Definition re_findall1 (ic : bool) (r : regex) (s : str) : list str :=
  flat_map (fun pc => match pc with
                      | Text _ => []
                      | Match m => match group 1 (groups m) with
                                   | Some g => [g]
                                   | None => [[]]
                                   end
                      end)
           (pieces ic r s).

(** [re.sub(r, repl, s)] for a replacement without group references. *)
Definition re_sub (ic : bool) (r : regex) (repl : str) (s : str) : str :=
  flat_map (fun pc => match pc with
                      | Text c => [c]
                      | Match _ => repl
                      end)
           (pieces ic r s).

(** The classes of the patterns. *)
Definition ws : regex := Cls is_space.                         (* \s *)
Definition digit : regex := Cls is_digit.                      (* \d *)
Definition dot : regex := Cls (fun c => negb (Ascii.eqb c newline)). (* . *)
Definition upper : regex := Cls is_upper.                      (* [A-Z] *)
Definition lower : regex := Cls is_lower.                      (* [a-z] *)
Definition letter : regex := Cls (fun c => is_upper c || is_lower c).
Definition one_of (s : string) : regex := Cls (fun c => has_char c (lit s)).

End Re.
Import Re.

(* ================================================================= *)
(** ** Exceptions, [int] and [float] *)

Inductive exn : Type := ValueError | OverflowError.

Inductive result (A : Type) : Type :=
| Ok (a : A)
| Raise (e : exn).
Arguments Ok {A} a.
Arguments Raise {A} e.

Definition bind {A B : Type} (x : result A) (k : A -> result B) : result B :=
  match x with
  | Ok a => k a
  | Raise e => Raise e
  end.

Notation "'do' x <- a ; b" := (bind a (fun x => b))
  (at level 10, x name, a at level 100, b at level 200).

Module PyNum.

Definition prec : Z := 53.
Definition emax : Z := 1024.

Definition float : Type := spec_float.

Definition digit_val (c : ascii) : Z := Z.of_nat (code c - 48).

(** The number written by a string of decimal digits. *)
Definition digits_val (s : str) : Z :=
  fold_left (fun acc c => (10 * acc + digit_val c)%Z) s 0%Z.

(** [int(s)] on the strings the patterns hand to it, which are made of
    digits: the number they write, whatever their length (the limit that an
    interpreter may set on the number of digits is not part of the model).
    Any other string is refused. *)
Definition int_of_str (s : str) : result Z :=
  match s with
  | [] => Raise ValueError
  | _ => if forallb is_digit s then Ok (digits_val s) else Raise ValueError
  end.

(** The binary64 number nearest to the integer [n], ties to even. *)
Definition float_of_Z (n : Z) : float := binary_normalize prec emax n 0 false.

(** The binary64 number nearest to [n / d], ties to even, for [0 <= n] and
    [0 < d]. *)
Definition float_of_ratio (n d : Z) : float :=
  let '(q, e, l) := SFdiv_core_binary prec emax n 0 d 0 in
  binary_round_aux prec emax false q e l.

(** The part of [s] before the first point, and the part after it. *)
Fixpoint cut_point (s : str) : str * option str :=
  match s with
  | [] => ([], None)
  | c :: s' =>
      if Ascii.eqb c "."%char then ([], Some s')
      else let '(a, b) := cut_point s' in (c :: a, b)
  end.

(** [float(s)] on the strings the patterns hand to it, which are made of
    digits and points: digits, then possibly a point and more digits, with a
    digit somewhere; the result is the nearest binary64 number, and infinity
    beyond the range.  Any other string is refused. *)
Definition float_of_str (s : str) : result float :=
  let '(ip, fp) := cut_point s in
  let fp := match fp with Some f => f | None => [] end in
  if forallb is_digit ip && forallb is_digit fp
     && negb (Nat.eqb (length ip + length fp) 0)
  then Ok (float_of_ratio (digits_val (ip ++ fp)) (10 ^ Z.of_nat (length fp)))
  else Raise ValueError.

(** The conversion of an [int] operand of a float operation: it fails when
    the integer is beyond the range of binary64. *)
Definition float_of_int (n : Z) : result float :=
  match float_of_Z n with
  | S754_infinity _ => Raise OverflowError
  | f => Ok f
  end.

(** [n * x] for an [int] [n] and a [float] [x]. *)
Definition mul_int_float (n : Z) (x : float) : result float :=
  do fn <- float_of_int n; Ok (SFmul prec emax fn x).

Definition fsub : float -> float -> float := SFsub prec emax.
Definition fadd : float -> float -> float := SFadd prec emax.
Definition fabs : float -> float := SFabs.
Definition flt : float -> float -> bool := SFltb.
Definition fle : float -> float -> bool := SFleb.
Definition fzero : float := S754_zero false.

(** The literal [0.01]. *)
Definition cent : float := float_of_ratio 1 100.

(** Truth value of a float: every float but the two zeros. *)
Definition float_truthy (x : float) : bool :=
  match x with
  | S754_zero _ => false
  | _ => true
  end.

End PyNum.
Import PyNum.

(* ================================================================= *)
(** ** [src/extract_fields_v3.py] *)

Definition grp (i : nat) (m : mobj) : str :=
  match group i (groups m) with
  | Some g => g
  | None => []
  end.

(** [\s+([JlI])\s+\$] *)
Definition quantity_letter_pattern : regex :=
  cat [Plus ws; Grp 1 (one_of "JlI"); Plus ws; Lit dollar].

Definition fix_line (line : str) : str :=
  if has_char dollar line && negb (startswith (lit "Total") line) then
    let fixed_line := re_sub false quantity_letter_pattern (lit " 1 $") line in
    let parts := split dollar fixed_line in
    if 1 <? length parts then
      match parts with
      | first :: prices =>
          join dollar (first :: map (replace_char "O" "0") prices)
      | [] => fixed_line
      end
    else fixed_line
  else line.

Definition normalize_ocr_errors (text : str) : str :=
  join newline (map fix_line (split newline text)).

Record LineItem : Type := mkItem {
  description : str;
  quantity : Z;
  unit_price : float;
  total : float
}.

Record BillTo : Type := mkBillTo {
  name : option str;
  email : option str
}.

Record Receipt : Type := mkReceipt {
  receipt_number : option str;
  date : option str;
  bill_to : BillTo;
  items : list LineItem;
  total_amount : option float;
  payment_method : option str;
  ocr_corrections_applied : bool
}.

(** [Receipt\s*#(\d+)] *)
Definition receipt_pattern : regex :=
  cat [word (lit "Receipt"); Star ws; Lit "#"; Grp 1 (Plus digit)].

Definition months : list string :=
  ["January"; "February"; "March"; "April"; "May"; "June"; "July";
   "August"; "September"; "October"; "November"; "December"]%string.

(** [(January|...|December)\s+(\d{1,2}),?\s+(\d{4})] *)
Definition date_pattern : regex :=
  cat [Grp 1 (alt (map (fun m => word (lit m)) months)); Plus ws;
       Grp 2 (Cat digit (Opt digit)); Opt (Lit ","); Plus ws;
       Grp 3 (cat [digit; digit; digit; digit])].

(** [Bill\s+To:\s*\n?\s*([A-Z][a-z]+(?:\s+[A-Z][a-z]+)+)] *)
Definition name_pattern : regex :=
  cat [word (lit "Bill"); Plus ws; word (lit "To:"); Star ws;
       Opt (Lit newline); Star ws;
       Grp 1 (cat [upper; Plus lower; Plus (cat [Plus ws; upper; Plus lower])])].

(** [[a-zA-Z0-9._%+-]] and [[a-zA-Z0-9.-]] *)
Definition local_char : regex :=
  Cls (fun c => is_lower c || is_upper c || is_digit c || has_char c (lit "._%+-")).
Definition domain_char : regex :=
  Cls (fun c => is_lower c || is_upper c || is_digit c || has_char c (lit ".-")).

(** [([a-zA-Z0-9._%+-]+@[a-zA-Z0-9.-]+\.[a-zA-Z]{2,})] *)
Definition email_pattern : regex :=
  Grp 1 (cat [Plus local_char; Lit "@"; Plus domain_char; Lit ".";
              letter; letter; Star letter]).

(** [Total\s+Amount:\s*\$?(G)] where the group [G] is [[\d,]+\.?\d*] *)
Definition total_pattern : regex :=
  cat [word (lit "Total"); Plus ws; word (lit "Amount:"); Star ws;
       Opt (Lit dollar);
       Grp 1 (cat [Plus (Cls (fun c => is_digit c || Ascii.eqb c ","));
                   Opt (Lit "."); Star digit])].

(** [Payment\s+Method:\s*([^\n]+)] *)
Definition payment_pattern : regex :=
  cat [word (lit "Payment"); Plus ws; word (lit "Method:"); Star ws;
       Grp 1 (Plus (Cls (fun c => negb (Ascii.eqb c newline))))].

(** [\d+\.\d{2}] *)
Definition price : regex := cat [Plus digit; Lit "."; digit; digit].

(** [^(.+?)\s+(\d+)\s+\$?(\d+\.\d{2})\s+\$?(\d+\.\d{2})$] *)
Definition item_pattern : regex :=
  cat [Bol; Grp 1 (PlusLazy dot); Plus ws; Grp 2 (Plus digit); Plus ws;
       Opt (Lit dollar); Grp 3 price; Plus ws;
       Opt (Lit dollar); Grp 4 price; Eol].

(** The first loop of [extract_line_items]: the pair
    [(table_start, table_end)] when the scan of the lines from index [i] on
    ends. *)
Fixpoint table_bounds (lines : list str) (i : Z) (table_start : Z) : Z * Z :=
  match lines with
  | [] => (table_start, (-1)%Z)
  | line :: more =>
      let table_start :=
        if contains (lit "Item Description") line
           && contains (lit "Quantity") line
        then (i + 1)%Z else table_start in
      if contains (lit "Total Amount:") line then (table_start, i)
      else table_bounds more (i + 1)%Z table_start
  end.

(** [range(a, b)] *)
Definition range (a b : Z) : list Z :=
  map (fun k => (a + Z.of_nat k)%Z) (seq 0 (Z.to_nat (b - a))).

(** What the body of the second loop does with one stripped, non-empty
    line, given the items so far. *)
Definition item_step (line : str) (items : list LineItem)
  : result (list LineItem) :=
  match re_match false item_pattern line with
  | Some m =>
      let description := strip (grp 1 m) in
      do quantity <- int_of_str (grp 2 m);
      do unit_price <- float_of_str (grp 3 m);
      do total <- float_of_str (grp 4 m);
      do expected_total <- mul_int_float quantity unit_price;
      if flt (fabs (fsub expected_total total)) cent
      then Ok (items ++ [mkItem description quantity unit_price total])
      else Ok items
  | None => Ok items
  end.

Definition line_at (lines : list str) (i : Z) : str :=
  strip (nth (Z.to_nat i) lines []).

Definition items_loop (lines : list str) (idx : list Z)
  : result (list LineItem) :=
  fold_left
    (fun acc i =>
       do items <- acc;
       let line := line_at lines i in
       match line with
       | [] => Ok items
       | _ => item_step line items
       end)
    idx (Ok []).

Definition extract_line_items (text : str) : result (list LineItem) :=
  let lines := split newline text in
  let '(table_start, table_end) := table_bounds lines 0 (-1) in
  if (table_start =? -1)%Z then Ok []
  else
    items_loop lines
      (range table_start
             (if negb (table_end =? -1)%Z then table_end
              else Z.of_nat (length lines))).

Definition extract_receipt_fields_v3 (text : str) : result Receipt :=
  let corrected_text := normalize_ocr_errors text in
  let text := corrected_text in
  let receipt_number :=
    match re_search true receipt_pattern text with
    | Some m => Some (grp 1 m)
    | None => None
    end in
  let date :=
    match re_search false date_pattern text with
    | Some m => Some (grp 1 m ++ lit " " ++ grp 2 m ++ lit ", " ++ grp 3 m)
    | None => None
    end in
  let name :=
    match re_search false name_pattern text with
    | Some m => Some (strip (grp 1 m))
    | None => None
    end in
  let email :=
    find (fun email => negb (startswith (lit "inquire") email))
         (re_findall1 false email_pattern text) in
  do total_amount <-
    match re_search true total_pattern text with
    | Some m =>
        let amount_str := remove_char "," (grp 1 m) in
        do amount <- float_of_str amount_str; Ok (Some amount)
    | None => Ok None
    end;
  let payment_method :=
    match re_search true payment_pattern text with
    | Some m => Some (strip (grp 1 m))
    | None => None
    end in
  do items <- extract_line_items text;
  Ok (mkReceipt receipt_number date (mkBillTo name email) items
                total_amount payment_method true).

(** A validation warning.  The text the source formats is determined by the
    constructor and its arguments:
    [SumMismatch s t] is "Line items sum ($s) doesn't match total ($t)",
    [InvalidEmail e] is "Email might be invalid: e", and
    [UnusualYear y] is "Unusual year in date: y". *)
Inductive warning : Type :=
| SumMismatch (items_sum total_amount : float)
| InvalidEmail (email : str)
| UnusualYear (year : Z).

(** Truth value of an optional string: neither [None] nor empty. *)
Definition str_truthy (v : option str) : bool :=
  match v with
  | Some (_ :: _) => true
  | _ => false
  end.

(** Truth value of an optional float: neither [None] nor zero. *)
Definition num_truthy (v : option float) : bool :=
  match v with
  | Some x => float_truthy x
  | None => false
  end.

Definition list_truthy {A : Type} (l : list A) : bool :=
  match l with
  | [] => false
  | _ => true
  end.

(** [sum(item['total'] for item in items)], added from left to right, each
    sum rounded to binary64. *)
Definition sum_totals (items : list LineItem) : float :=
  fold_left fadd (map total items) fzero.

(** [(\d{4})] *)
Definition year_pattern : regex := Grp 1 (cat [digit; digit; digit; digit]).

Definition check_sum (data : Receipt) : list warning :=
  match total_amount data with
  | Some amount =>
      if list_truthy (items data) && float_truthy amount then
        let items_sum := sum_totals (items data) in
        let difference := fabs (fsub items_sum amount) in
        if flt cent difference then [SumMismatch items_sum amount] else []
      else []
  | None => []
  end.

Definition check_email (data : Receipt) : list warning :=
  match email (bill_to data) with
  | Some e =>
      if str_truthy (Some e) then
        if has_char "@" e && has_char "." e then []
        else [InvalidEmail e]
      else []
  | None => []
  end.

Definition check_date (data : Receipt) : result (list warning) :=
  match date data with
  | Some d =>
      if str_truthy (Some d) then
        match re_search false year_pattern d with
        | Some year_match =>
            do year <- int_of_str (grp 1 year_match);
            if (2020 <=? year)%Z && (year <=? 2100)%Z then Ok []
            else Ok [UnusualYear year]
        | None => Ok []
        end
      else Ok []
  | None => Ok []
  end.

Definition validate_extraction (data : Receipt) : result (list warning) :=
  let warnings := [] in
  let warnings := warnings ++ check_sum data in
  let warnings := warnings ++ check_email data in
  do date_warnings <- check_date data;
  Ok (warnings ++ date_warnings).

(** [min(a, b)] of two numbers: [b] when it is smaller, else [a]. *)
Definition py_min (a b : Q) : Q :=
  match b ?= a with
  | Lt => b
  | _ => a
  end.

(** [('receipt_number', 20), ...]: each field path with the truth value of
    what it leads to, and its weight. *)
Definition fields_to_check (data : Receipt) : list (bool * Q) :=
  [ (str_truthy (receipt_number data), 20);
    (str_truthy (date data), 20);
    (str_truthy (name (bill_to data)), 15);
    (str_truthy (email (bill_to data)), 15);
    (num_truthy (total_amount data), 20);
    (str_truthy (payment_method data), 10) ].

Definition calculate_confidence_score (data : Receipt) : Q :=
  let score :=
    fold_left (fun (score : Q) (fw : bool * Q) =>
                 if fst fw then score + snd fw else score)
              (fields_to_check data) 0 in
  let score :=
    if list_truthy (items data)
    then score + py_min (inject_Z (Z.of_nat (length (items data))) * (5 # 2)) 10
    else score in
  py_min score 100.

(* ================================================================= *)
(** ** [src/detect_format.py] *)

Record FormatMatch : Type := mkFormat {
  fm_name : str;
  confidence : Q;
  indicators : list str;
  supported : bool
}.

Definition template_a0 : FormatMatch :=
  mkFormat (lit "Retail Receipt (Template A)") 0 [] true.
Definition template_b0 : FormatMatch :=
  mkFormat (lit "Professional Invoice (Template B)") 0 [] false.
Definition unknown : FormatMatch :=
  mkFormat (lit "Unknown Format") 0 [] false.

Definition month_names : regex := alt (map (fun m => word (lit m)) months).

Definition template_a_patterns : list (regex * str) :=
  [ (cat [word (lit "Receipt"); Star ws; Lit "#"; Plus digit],
     lit "Receipt # format");
    (cat [month_names; Plus ws; digit; Opt digit; Opt (Lit ","); Plus ws;
          digit; digit; digit; digit],
     lit "Written month format");
    (cat [word (lit "Total"); Plus ws; word (lit "Amount:")],
     lit "Total Amount: label");
    (cat [word (lit "Payment"); Plus ws; word (lit "Method:")],
     lit "Payment Method: label");
    (cat [word (lit "Item"); Plus ws; word (lit "Description"); Plus ws;
          word (lit "Quantity")],
     lit "Standard table header") ].

Definition template_b_patterns : list (regex * str) :=
  [ (cat [word (lit "RECEIPT"); Star ws; Lit "#"],
     lit "RECEIPT # (uppercase)");
    (cat [word (lit "RECEIPT"); Plus ws; word (lit "DATE")],
     lit "RECEIPT DATE label");
    (cat [digit; digit; Lit "/"; digit; digit; Lit "/";
          digit; digit; digit; digit],
     lit "Date format DD/MM/YYYY");
    (cat [word (lit "BILL"); Star ws; word (lit "TO")],
     lit "BILL TO (uppercase)");
    (cat [word (lit "SHIP"); Star ws; word (lit "TO")],
     lit "SHIP TO label");
    (cat [word (lit "QTY"); Plus ws; word (lit "DESCRIPTION")],
     lit "QTY DESCRIPTION header");
    (cat [word (lit "UNIT"); Plus ws; word (lit "PRICE")],
     lit "UNIT PRICE column");
    (cat [word (lit "East"); Plus ws; word (lit "Repair")],
     lit "East Repair Inc.") ].

(** One of the two loops over a template's patterns: each pattern found in
    the text adds [weight] to the confidence and its label to the
    indicators. *)
Definition score_template (weight : Q) (patterns : list (regex * str))
    (ocr_text : str) (f : FormatMatch) : FormatMatch :=
  fold_left
    (fun f pi =>
       match re_search true (fst pi) ocr_text with
       | Some _ => mkFormat (fm_name f) (confidence f + weight)
                            (indicators f ++ [snd pi]) (supported f)
       | None => f
       end)
    patterns f.

(** [max(entries, key=confidence)]: the first entry of the greatest
    confidence. *)
Definition max_by_confidence (first : FormatMatch) (others : list FormatMatch)
  : FormatMatch :=
  fold_left
    (fun best f =>
       match confidence f ?= confidence best with
       | Gt => f
       | _ => best
       end)
    others first.

Definition detect_invoice_format (ocr_text : str) : FormatMatch :=
  let template_a := score_template 20 template_a_patterns ocr_text template_a0 in
  let template_b := score_template (25 # 2) template_b_patterns ocr_text template_b0 in
  let best_format := max_by_confidence template_a [template_b; unknown] in
  match confidence best_format ?= 30 with
  | Lt => unknown
  | _ => best_format
  end.

(* ================================================================= *)
(** ** The statements of the specification *)

(** The sum of the weights of the fields that are present. *)
Definition weight_of (present : bool) (w : Q) : Q := if present then w else 0.

Definition presence_sum (data : Receipt) : Q :=
  weight_of (str_truthy (receipt_number data)) 20
  + weight_of (str_truthy (date data)) 20
  + weight_of (str_truthy (name (bill_to data))) 15
  + weight_of (str_truthy (email (bill_to data))) 15
  + weight_of (num_truthy (total_amount data)) 20
  + weight_of (str_truthy (payment_method data)) 10.

(** [len(items) * 2.5]; beyond four items the product only matters as a
    number above 10. *)
Definition items_bonus (data : Receipt) : Q :=
  inject_Z (Z.of_nat (length (items data))) * (5 # 2).

(** The presence sum counted in units of five points. *)
Definition weight_units (data : Receipt) : Z :=
  (if str_truthy (receipt_number data) then 4 else 0)
  + (if str_truthy (date data) then 4 else 0)
  + (if str_truthy (name (bill_to data)) then 3 else 0)
  + (if str_truthy (email (bill_to data)) then 3 else 0)
  + (if num_truthy (total_amount data) then 4 else 0)
  + (if str_truthy (payment_method data) then 2 else 0).

Definition is_integer (q : Q) : Prop := exists z : Z, q == inject_Z z.

Definition is_email_warning (w : warning) : bool :=
  match w with
  | InvalidEmail _ => true
  | _ => false
  end.

(** The result for a text that no template explains. *)
Definition is_unknown_result (f : FormatMatch) : Prop :=
  fm_name f = lit "Unknown Format" /\ confidence f == 0
  /\ supported f = false /\ indicators f = [].

(** The greatest of the total weights scored by the templates. *)
Definition best_weight (ocr_text : str) : Q :=
  Qmax (confidence (score_template 20 template_a_patterns ocr_text template_a0))
       (confidence (score_template (25 # 2) template_b_patterns ocr_text template_b0)).

(** Line [i] of the text lies inside the table that [extract_line_items]
    detects. *)
Definition in_table (text : str) (i : Z) : Prop :=
  let lines := split newline text in
  let '(table_start, table_end) := table_bounds lines 0 (-1) in
  table_start <> (-1)%Z
  /\ (table_start <= i)%Z
  /\ (i < (if negb (table_end =? -1)%Z then table_end
           else Z.of_nat (length lines)))%Z.

(** The arithmetic test on a row, with [cmp] the comparison against 0.01:
    [cmp (abs (quantity * unit_price - total)) 0.01]. *)
Definition within_tolerance (cmp : float -> float -> bool)
    (quantity : Z) (unit_price total : float) : Prop :=
  exists expected_total,
    mul_int_float quantity unit_price = Ok expected_total
    /\ cmp (fabs (fsub expected_total total)) cent = true.

(* ================================================================= *)
(** ** The line-item loop, round by round *)

(** One round of the second loop of [extract_line_items]. *)
Definition loop_body (lines : list str) (acc : result (list LineItem)) (i : Z)
  : result (list LineItem) :=
  do items <- acc;
  let line := line_at lines i in
  match line with
  | [] => Ok items
  | _ => item_step line items
  end.

(** What a stripped line contributes: the item it is accepted as, if any. *)
Definition row_outcome (line : str) : result (option LineItem) :=
  match re_match false item_pattern line with
  | Some m =>
      do quantity <- int_of_str (grp 2 m);
      do unit_price <- float_of_str (grp 3 m);
      do total <- float_of_str (grp 4 m);
      do expected_total <- mul_int_float quantity unit_price;
      if flt (fabs (fsub expected_total total)) cent
      then Ok (Some (mkItem (strip (grp 1 m)) quantity unit_price total))
      else Ok None
  | None => Ok None
  end.

(* ================================================================= *)
(** ** The matcher as a relation *)

(** [Run ic r c c']: starting from [c], the pattern [r] can match and leave
    the matcher at [c'].  It is the relation whose enumeration [run]
    computes. *)
Inductive Run (ic : bool) : regex -> cfg -> cfg -> Prop :=
| RunEps c : Run ic Eps c c
| RunLit a e p x s :
    lit_ok ic a x = true ->
    Run ic (Lit a) (Cfg e p (x :: s)) (Cfg e (S p) s)
| RunCls f e p x s :
    cls_ok ic f x = true ->
    Run ic (Cls f) (Cfg e p (x :: s)) (Cfg e (S p) s)
| RunCat r1 r2 c c1 c2 :
    Run ic r1 c c1 -> Run ic r2 c1 c2 -> Run ic (Cat r1 r2) c c2
| RunAltL r1 r2 c c' : Run ic r1 c c' -> Run ic (Alt r1 r2) c c'
| RunAltR r1 r2 c c' : Run ic r2 c c' -> Run ic (Alt r1 r2) c c'
| RunStarStop r c : Run ic (Star r) c c
| RunStarMore r c c1 c2 :
    Run ic r c c1 -> shorter c1 c = true -> Run ic (Star r) c1 c2 ->
    Run ic (Star r) c c2
| RunLazyStop r c : Run ic (StarLazy r) c c
| RunLazyMore r c c1 c2 :
    Run ic r c c1 -> shorter c1 c = true -> Run ic (StarLazy r) c1 c2 ->
    Run ic (StarLazy r) c c2
| RunGrp i r c c' :
    Run ic r c c' ->
    Run ic (Grp i r) c
        (Cfg ((i, firstn (pos c' - pos c) (rest c)) :: caps c')
             (pos c') (rest c'))
| RunBol e s : Run ic Bol (Cfg e 0 s) (Cfg e 0 s)
| RunEolEnd e p : Run ic Eol (Cfg e p []) (Cfg e p [])
| RunEolNewline e p : Run ic Eol (Cfg e p [newline]) (Cfg e p [newline]).

(** The numbers of the groups of a pattern. *)
Fixpoint group_ids (r : regex) : list nat :=
  match r with
  | Cat r1 r2 | Alt r1 r2 => group_ids r1 ++ group_ids r2
  | Star r' | StarLazy r' => group_ids r'
  | Grp i r' => i :: group_ids r'
  | _ => []
  end.

(* ================================================================= *)
(** ** The quantity-letter pattern, read directly *)

Definition is_JlI (c : ascii) : bool := has_char c (lit "JlI").

(** [\s+] at the head of [s]: what follows the whole run of whitespace. *)
Definition after_spaces (s : str) : option str :=
  match s with
  | c :: s1 => if is_space c then Some (lstrip s1) else None
  | [] => None
  end.

(** [\s+([JlI])\s+\$] at the head of [s]: what follows the match. *)
Definition quantity_letter_at (s : str) : option str :=
  match after_spaces s with
  | Some (l :: s2) =>
      if is_JlI l then
        match after_spaces s2 with
        | Some (d :: r) => if Ascii.eqb d dollar then Some r else None
        | _ => None
        end
      else None
  | _ => None
  end.

(** The text that [re.sub] writes for a scan. *)
Definition render (repl : str) (ps : list piece) : str :=
  flat_map (fun pc => match pc with
                      | Text c => [c]
                      | Match _ => repl
                      end) ps.

(** [re.sub(r'\s+([JlI])\s+\$', ' 1 $', s)] read directly, with the fuel of
    the scan. *)
Fixpoint sub_letters (fuel : nat) (s : str) : str :=
  match fuel with
  | O => s
  | S f =>
      match quantity_letter_at s with
      | Some r => lit " 1 $" ++ sub_letters f r
      | None =>
          match s with
          | [] => []
          | c :: s' => c :: sub_letters f s'
          end
      end
  end.

(** No match of the quantity-letter pattern starts anywhere in [s]. *)
Definition letter_free (s : str) : Prop :=
  forall pre t, s = pre ++ t -> quantity_letter_at t = None.

(** A line that [normalize_ocr_errors] treats as an item line. *)
Definition is_candidate (line : str) : bool :=
  has_char dollar line && negb (startswith (lit "Total") line).

(** The second half of the fix of a line: [O] becomes [0] after the first
    dollar sign. *)
Definition fix_prices (fixed_line : str) : str :=
  let parts := split dollar fixed_line in
  if (1 <? length parts)%nat then
    match parts with
    | first :: prices =>
        join dollar (first :: map (replace_char "O" "0") prices)
    | [] => fixed_line
    end
  else fixed_line.

(** What the second half of the fix may do to a character. *)
Definition zeroed (a b : ascii) : Prop :=
  b = a \/ (a = "O"%char /\ b = "0"%char).

(* ================================================================= *)
(** ** Sample records and texts *)

(** A record with a receipt number and one line item. *)
Definition one_item_receipt : Receipt :=
  mkReceipt (Some (lit "4521")) None (mkBillTo None None)
            [mkItem (lit "Widget") 1 (float_of_Z 1) (float_of_Z 1)]
            None None true.

(** A record with a receipt number and two line items. *)
Definition two_item_receipt : Receipt :=
  mkReceipt (Some (lit "4521")) None (mkBillTo None None)
            [mkItem (lit "Widget") 1 (float_of_Z 1) (float_of_Z 1);
             mkItem (lit "Gadget") 2 (float_of_Z 3) (float_of_Z 6)]
            None None true.

(** A record whose only field is the e-mail address [a@b]. *)
Definition at_only_receipt : Receipt :=
  mkReceipt None None (mkBillTo None (Some (lit "a@b"))) [] None None true.

(** A receipt text with a company address and a customer address. *)
Definition two_address_text : str :=
  lit "Bill To: Ann Lee inquire@shop.com ann.lee@mail.org".

(** A table with one consistent row. *)
Definition one_row_text : str :=
  lit "Item Description Quantity" ++ newline
  :: lit "Premium Software Subscription 1 $150.00 $150.00" ++ newline
  :: lit "Total Amount: $150.00".


(** A text whose total amount is a lone comma. *)
Definition comma_total_text : str := lit "Total Amount: ,".

(** A table row whose quantity has 400 digits. *)
Definition huge_quantity_text : str :=
  lit "Item Description Quantity" ++ newline
  :: lit "Bolt " ++ repeat "9"%char 400 ++ lit " $1.00 $1.00".

(** The receipt of the first scenario of the specification, its quantity
    read as the letter [J]. *)
Definition scenario_text : str :=
  lit "Receipt #4521" ++ newline
  :: lit "March 15, 2050" ++ newline
  :: lit "Item Description Quantity Unit Price Total" ++ newline
  :: lit "Premium Software Subscription J $150.00 $150.00" ++ newline
  :: lit "Total Amount: $150.00" ++ newline
  :: lit "Payment Method: Credit Card".

(* ================================================================= *)
(** ** [src/detect_format.py], continued *)

(** [a == b] on strings. *)
Fixpoint str_eqb (a b : str) : bool :=
  match a, b with
  | [], [] => true
  | x :: a', y :: b' => Ascii.eqb x y && str_eqb a' b'
  | _, _ => false
  end.

(** The text of a recommendation, kept as the bytes of its UTF-8 form. *)
Definition message : Type := string.

Definition get_format_recommendations (format_info : FormatMatch)
  : list message :=
  let recommendations := [] in
  if str_eqb (fm_name format_info) (lit "Retail Receipt (Template A)") then
    let recommendations :=
      recommendations ++ ["✅ This format is fully supported!"%string] in
    let recommendations :=
      recommendations ++ ["Expected accuracy: 95-100%"%string] in
    recommendations
  else if str_eqb (fm_name format_info)
                  (lit "Professional Invoice (Template B)") then
    let recommendations :=
      recommendations ++ ["⚠️ This format has limited support"%string] in
    let recommendations :=
      recommendations
      ++ ["💡 Recommendation: Add Template B patterns or use ML-based extraction"%string] in
    let recommendations :=
      recommendations
      ++ ["📊 Current accuracy: 10-20% (basic fields only)"%string] in
    recommendations
  else
    let recommendations :=
      recommendations ++ ["❌ Format not recognized"%string] in
    let recommendations :=
      recommendations
      ++ ["💡 Try using a clearer image or different format"%string] in
    let recommendations :=
      recommendations
      ++ ["📧 Or contact support to add this format"%string] in
    recommendations.

(* ================================================================= *)
(** ** The callers: extraction, validation and scoring in a row *)

(** The record with the two entries that the callers add to it. *)
Record Processed : Type := mkProcessed {
  extracted : Receipt;
  extraction_confidence : Q;
  validation_warnings : list warning
}.

(** The steps that the script of [src/extract_fields_v3.py],
    [process_single_invoice] of [src/batch_process.py] and [app.py] run on
    the text that OCR returned: extract, validate, score, and store the
    score and the warnings with the record. *)
Definition process_text (ocr_text : str) : result Processed :=
  do extracted_data <- extract_receipt_fields_v3 ocr_text;
  do warnings <- validate_extraction extracted_data;
  let confidence := calculate_confidence_score extracted_data in
  Ok (mkProcessed extracted_data confidence warnings).

(** The status that [process_single_invoice] reports. *)
Inductive status : Type := success | success_with_warnings | failed.

(** The [try] block of [process_single_invoice] on the text that OCR
    returned, the files being written without an error: any exception of
    the steps is caught and gives the status [failed]. *)
Definition status_of_text (ocr_text : str) : status :=
  match process_text ocr_text with
  | Ok r => if list_truthy (validation_warnings r)
            then success_with_warnings else success
  | Raise _ => failed
  end.

(* ================================================================= *)
(** ** Further statements *)

(** Every field that counts in [d] counts in [d'] too, and [d'] has at
    least as many line items. *)
Definition finds_no_less (d d' : Receipt) : Prop :=
  (str_truthy (receipt_number d) = true -> str_truthy (receipt_number d') = true)
  /\ (str_truthy (date d) = true -> str_truthy (date d') = true)
  /\ (str_truthy (name (bill_to d)) = true
      -> str_truthy (name (bill_to d')) = true)
  /\ (str_truthy (email (bill_to d)) = true
      -> str_truthy (email (bill_to d')) = true)
  /\ (num_truthy (total_amount d) = true -> num_truthy (total_amount d') = true)
  /\ (str_truthy (payment_method d) = true
      -> str_truthy (payment_method d') = true)
  /\ (length (items d) <= length (items d'))%nat.

(** The same fields are present in [d] and in [d']. *)
Definition same_fields_present (d d' : Receipt) : Prop :=
  str_truthy (receipt_number d) = str_truthy (receipt_number d')
  /\ str_truthy (date d) = str_truthy (date d')
  /\ str_truthy (name (bill_to d)) = str_truthy (name (bill_to d'))
  /\ str_truthy (email (bill_to d)) = str_truthy (email (bill_to d'))
  /\ num_truthy (total_amount d) = num_truthy (total_amount d')
  /\ str_truthy (payment_method d) = str_truthy (payment_method d').

(** The labels of the patterns of a template that are found in the text, in
    the order of the patterns. *)
Definition found_labels (patterns : list (regex * str)) (ocr_text : str)
  : list str :=
  map snd
      (filter (fun pi => match re_search true (fst pi) ocr_text with
                         | Some _ => true
                         | None => false
                         end)
              patterns).

(** The two scored templates. *)
Definition scored_a (ocr_text : str) : FormatMatch :=
  score_template 20 template_a_patterns ocr_text template_a0.
Definition scored_b (ocr_text : str) : FormatMatch :=
  score_template (25 # 2) template_b_patterns ocr_text template_b0.

(** The text with every character changed by [g], and the same change on
    the captures of a point of a match. *)
Definition recase_env (g : ascii -> ascii) (e : env) : env :=
  map (fun it => (fst it, map g (snd it))) e.

Definition recase (g : ascii -> ascii) (c : cfg) : cfg :=
  Cfg (recase_env g (caps c)) (pos c) (map g (rest c)).

(** Whether a search found a match. *)
Definition found (o : option mobj) : bool :=
  match o with
  | Some _ => true
  | None => false
  end.

(** The indices of the lines that the second loop of [extract_line_items]
    visits, in the order of the visits. *)
Definition table_rows (text : str) : list Z :=
  let lines := split newline text in
  let '(table_start, table_end) := table_bounds lines 0 (-1) in
  if (table_start =? -1)%Z then []
  else range table_start
             (if negb (table_end =? -1)%Z then table_end
              else Z.of_nat (length lines)).

(** The items that the rows of the given indices are accepted as, in the
    order of the indices. *)
Definition accepted_rows (lines : list str) (idx : list Z) : list LineItem :=
  flat_map (fun i => match row_outcome (line_at lines i) with
                     | Ok (Some it) => [it]
                     | _ => []
                     end)
           idx.

(** The class [[\d,]]. *)
Definition digit_or_comma (c : ascii) : bool :=
  is_digit c || Ascii.eqb c ",".

(** The label "Total Amount:" is found in the corrected text, and the
    amount after it has no digit. *)
Definition amount_without_digit (text : str) : Prop :=
  exists m,
    re_search true total_pattern (normalize_ocr_errors text) = Some m
    /\ existsb is_digit (grp 1 m) = false.

(** Four digits at the head of [s]. *)
Definition year_at (s : str) : option str :=
  match s with
  | a :: b :: c :: d :: _ =>
      if is_digit a && is_digit b && is_digit c && is_digit d
      then Some [a; b; c; d] else None
  | _ => None
  end.

(** A letter A to Z or a to z, or whitespace. *)
Definition letter_or_space (c : ascii) : bool :=
  is_upper c || is_lower c || is_space c.

(** The last character of [s] is a lower-case letter. *)
Definition ends_lower (s : str) : Prop :=
  exists t y, s = t ++ [y] /\ is_lower y = true.

(** One more word of a name: whitespace, an upper-case letter, lower-case
    letters. *)
Definition next_word : regex := cat [Plus ws; upper; Plus lower].

(* ================================================================= *)
(** ** Further sample records and texts *)

(** A record with four line items, and one with five. *)
Definition four_item_receipt : Receipt :=
  mkReceipt (Some (lit "4521")) None (mkBillTo None None)
            (repeat (mkItem (lit "Widget") 1 (float_of_Z 1) (float_of_Z 1)) 4)
            None None true.

Definition five_item_receipt : Receipt :=
  mkReceipt (Some (lit "4521")) None (mkBillTo None None)
            (repeat (mkItem (lit "Widget") 1 (float_of_Z 1) (float_of_Z 1)) 5)
            None None true.


(** A text with two indicators of Template A and three of Template B: the
    confidences are 40 and 37.5. *)
Definition both_templates_text : str :=
  lit "Receipt #77 Total Amount: 5 BILL TO SHIP TO".

(** A table of three rows, the second of which does not add up. *)
Definition three_row_text : str :=
  lit "Item Description Quantity" ++ newline
  :: lit "Pen 2 $1.50 $3.00" ++ newline
  :: lit "Ink 1 $4.00 $9.00" ++ newline
  :: lit "Cap 3 $1.00 $3.00" ++ newline
  :: lit "Total Amount: $6.00".

(** A text whose total amount has a thousands separator. *)
Definition thousands_text : str := lit "Total Amount: $1,250.50".

(** A text whose date has no comma. *)
Definition plain_date_text : str := lit "Paid on June 7 1999 in cash".

(* ================================================================= *)
(** * Properties *)

(** ** Numbers *)

Example cent_bits : cent = S754_finite false 5764607523034235 (-59).
Proof. vm_compute. reflexivity. Qed.

Example float_150 : float_of_str (lit "150.00") = Ok (float_of_Z 150).
Proof. vm_compute. reflexivity. Qed.

Example float_point : float_of_str (lit ".") = Raise ValueError.
Proof. reflexivity. Qed.

(** ** The matcher enumerates the matching relation *)

Section Matcher.

Local Open Scope nat_scope.

Variable ic : bool.

Lemma flat_map_nil {A B : Type} (f : A -> list B) (l : list A) :
  (forall a, In a l -> f a = []) -> flat_map f l = [].
Proof.
  induction l as [| a l IH]; intros H; simpl; [reflexivity |].
  rewrite (H a) by (left; reflexivity).
  apply IH. intros b Hb. apply H. right. exact Hb.
Qed.

Lemma flat_map_ext_in {A B : Type} (f g : A -> list B) (l : list A) :
  (forall a, In a l -> f a = g a) -> flat_map f l = flat_map g l.
Proof.
  induction l as [| a l IH]; intros H; simpl; [reflexivity |].
  rewrite (H a) by (left; reflexivity).
  f_equal. apply IH. intros b Hb. apply H. right. exact Hb.
Qed.

(** Fuel beyond the length of what is left to read changes nothing. *)
Lemma greedy_fuel (step : cfg -> list cfg) (n : nat) :
  forall f c, length (rest c) <= n -> n <= f ->
              greedy step f c = greedy step n c.
Proof.
  induction n as [| n IH]; intros f c Hlen Hf.
  - destruct f as [| f]; [reflexivity |]. simpl.
    rewrite flat_map_nil; [reflexivity |].
    intros c' _. unfold shorter.
    destruct (Nat.ltb_spec (length (rest c')) (length (rest c))); [lia | reflexivity].
  - destruct f as [| f]; [lia |]. simpl. f_equal.
    apply flat_map_ext_in. intros c' _. unfold shorter.
    destruct (Nat.ltb_spec (length (rest c')) (length (rest c))); [| reflexivity].
    apply IH; lia.
Qed.

Lemma lazy_fuel (step : cfg -> list cfg) (n : nat) :
  forall f c, length (rest c) <= n -> n <= f ->
              lazy step f c = lazy step n c.
Proof.
  induction n as [| n IH]; intros f c Hlen Hf.
  - destruct f as [| f]; [reflexivity |]. simpl.
    rewrite flat_map_nil; [reflexivity |].
    intros c' _. unfold shorter.
    destruct (Nat.ltb_spec (length (rest c')) (length (rest c))); [lia | reflexivity].
  - destruct f as [| f]; [lia |]. simpl. f_equal.
    apply flat_map_ext_in. intros c' _. unfold shorter.
    destruct (Nat.ltb_spec (length (rest c')) (length (rest c))); [| reflexivity].
    apply IH; lia.
Qed.

(** The equations of the two repetitions. *)
Lemma run_star (r : regex) (c : cfg) :
  run ic (Star r) c
  = flat_map (fun c' => if shorter c' c then run ic (Star r) c' else [])
             (run ic r c) ++ [c].
Proof.
  simpl. destruct (length (rest c)) as [| n] eqn:E.
  - simpl. rewrite flat_map_nil; [reflexivity |].
    intros c' _. unfold shorter. rewrite E. reflexivity.
  - simpl. f_equal. apply flat_map_ext_in. intros c' _.
    unfold shorter. rewrite E.
    destruct (Nat.ltb_spec (length (rest c')) (S n)); [| reflexivity].
    apply greedy_fuel; lia.
Qed.

Lemma run_lazy (r : regex) (c : cfg) :
  run ic (StarLazy r) c
  = c :: flat_map (fun c' => if shorter c' c then run ic (StarLazy r) c' else [])
                  (run ic r c).
Proof.
  simpl. destruct (length (rest c)) as [| n] eqn:E.
  - simpl. rewrite flat_map_nil; [reflexivity |].
    intros c' _. unfold shorter. rewrite E. reflexivity.
  - simpl. f_equal. apply flat_map_ext_in. intros c' _.
    unfold shorter. rewrite E.
    destruct (Nat.ltb_spec (length (rest c')) (S n)); [| reflexivity].
    apply lazy_fuel; lia.
Qed.

Lemma in_one (ok : ascii -> bool) (c c' : cfg) :
  In c' (one ok c) <->
  exists x s, rest c = x :: s /\ ok x = true /\ c' = Cfg (caps c) (S (pos c)) s.
Proof.
  unfold one. destruct (rest c) as [| x s].
  - split; [intros [] | intros (x & s & H & _); discriminate].
  - destruct (ok x) eqn:E; split.
    + intros [H | []]. exists x, s. auto.
    + intros (x' & s' & H & _ & ->). injection H as <- <-. left. reflexivity.
    + intros [].
    + intros (x' & s' & H & H' & _). injection H as <- <-. congruence.
Qed.

Lemma greedy_sound (r : regex) :
  (forall c c', In c' (run ic r c) -> Run ic r c c') ->
  forall f c c', In c' (greedy (run ic r) f c) -> Run ic (Star r) c c'.
Proof.
  intros IH f. induction f as [| f IHf]; intros c c' H; simpl in H.
  - destruct H as [<- | []]. constructor.
  - apply in_app_or in H. destruct H as [H | [<- | []]]; [| constructor].
    apply in_flat_map in H. destruct H as (c1 & H1 & H2).
    destruct (shorter c1 c) eqn:E; [| destruct H2].
    eapply RunStarMore; eauto.
Qed.

Lemma lazy_sound (r : regex) :
  (forall c c', In c' (run ic r c) -> Run ic r c c') ->
  forall f c c', In c' (lazy (run ic r) f c) -> Run ic (StarLazy r) c c'.
Proof.
  intros IH f. induction f as [| f IHf]; intros c c' H; simpl in H.
  - destruct H as [<- | []]. constructor.
  - destruct H as [<- | H]; [constructor |].
    apply in_flat_map in H. destruct H as (c1 & H1 & H2).
    destruct (shorter c1 c) eqn:E; [| destruct H2].
    eapply RunLazyMore; eauto.
Qed.

Lemma run_sound (r : regex) :
  forall c c', In c' (run ic r c) -> Run ic r c c'.
Proof.
  induction r; intros c c' H.
  - destruct H as [<- | []]. constructor.
  - apply in_one in H. destruct H as (x & s & E & Hok & ->).
    destruct c as [e p s0]; simpl in *; subst. constructor. exact Hok.
  - apply in_one in H. destruct H as (x & s & E & Hok & ->).
    destruct c as [e p s0]; simpl in *; subst. constructor. exact Hok.
  - simpl in H. apply in_flat_map in H. destruct H as (c1 & H1 & H2).
    econstructor; eauto.
  - simpl in H. apply in_app_or in H. destruct H as [H | H].
    + apply RunAltL; auto.
    + apply RunAltR; auto.
  - eapply greedy_sound; eauto.
  - eapply lazy_sound; eauto.
  - simpl in H. apply in_map_iff in H. destruct H as (c1 & <- & H1).
    constructor. auto.
  - simpl in H. destruct c as [e p s]; simpl in H.
    destruct p; [| destruct H].
    destruct H as [<- | []]. constructor.
  - simpl in H. destruct c as [e p s]; simpl in H.
    destruct s as [| x [| y s]].
    + destruct H as [<- | []]. constructor.
    + destruct (Ascii.eqb_spec x newline); [| destruct H].
      destruct H as [<- | []]. subst. constructor.
    + destruct H.
Qed.

Lemma run_complete (r : regex) (c c' : cfg) :
  Run ic r c c' -> In c' (run ic r c).
Proof.
  induction 1.
  - left. reflexivity.
  - apply in_one. simpl. eauto.
  - apply in_one. simpl. eauto.
  - simpl. apply in_flat_map. eauto.
  - simpl. apply in_or_app. auto.
  - simpl. apply in_or_app. auto.
  - rewrite run_star. apply in_or_app. right. left. reflexivity.
  - rewrite run_star. apply in_or_app. left.
    apply in_flat_map. exists c1. split; [assumption |].
    rewrite H0. assumption.
  - rewrite run_lazy. left. reflexivity.
  - rewrite run_lazy. right.
    apply in_flat_map. exists c1. split; [assumption |].
    rewrite H0. assumption.
  - simpl. apply in_map_iff. exists c'. auto.
  - left. reflexivity.
  - left. reflexivity.
  - simpl. left. reflexivity.
Qed.

(** What a match reads is a prefix of what was left, and the offset moves
    by its length. *)
Lemma Run_reads (r : regex) (c c' : cfg) :
  Run ic r c c' ->
  exists pre, rest c = pre ++ rest c' /\ pos c' = pos c + length pre.
Proof.
  induction 1; simpl;
    try (exists []; split; [reflexivity | simpl; lia]).
  - exists [x]. split; [reflexivity | simpl; lia].
  - exists [x]. split; [reflexivity | simpl; lia].
  - destruct IHRun1 as (p1 & E1 & P1), IHRun2 as (p2 & E2 & P2).
    exists (p1 ++ p2). rewrite E1, E2, <- app_assoc, length_app.
    split; [reflexivity | lia].
  - exact IHRun.
  - exact IHRun.
  - destruct IHRun1 as (p1 & E1 & P1), IHRun2 as (p2 & E2 & P2).
    exists (p1 ++ p2). rewrite E1, E2, <- app_assoc, length_app.
    split; [reflexivity | lia].
  - destruct IHRun1 as (p1 & E1 & P1), IHRun2 as (p2 & E2 & P2).
    exists (p1 ++ p2). rewrite E1, E2, <- app_assoc, length_app.
    split; [reflexivity | lia].
  - exact IHRun.
Qed.

(** A match only adds captures, and only of its own groups. *)
Lemma Run_caps (r : regex) (c c' : cfg) :
  Run ic r c c' ->
  exists new, caps c' = new ++ caps c
              /\ forall k v, In (k, v) new -> In k (group_ids r).
Proof.
  induction 1; simpl;
    try (exists []; split; [reflexivity | intros k v []]).
  - destruct IHRun1 as (n1 & E1 & G1), IHRun2 as (n2 & E2 & G2).
    exists (n2 ++ n1). rewrite E2, E1, app_assoc. split; [reflexivity |].
    intros k v Hin. apply in_or_app. apply in_app_or in Hin.
    destruct Hin; [right | left]; eauto.
  - destruct IHRun as (n & E & G). exists n. split; [exact E |].
    intros k v Hin. apply in_or_app. left. eauto.
  - destruct IHRun as (n & E & G). exists n. split; [exact E |].
    intros k v Hin. apply in_or_app. right. eauto.
  - destruct IHRun1 as (n1 & E1 & G1), IHRun2 as (n2 & E2 & G2).
    exists (n2 ++ n1). rewrite E2, E1, app_assoc. split; [reflexivity |].
    intros k v Hin. apply in_app_or in Hin. destruct Hin; eauto.
  - destruct IHRun1 as (n1 & E1 & G1), IHRun2 as (n2 & E2 & G2).
    exists (n2 ++ n1). rewrite E2, E1, app_assoc. split; [reflexivity |].
    intros k v Hin. apply in_app_or in Hin. destruct Hin; eauto.
  - destruct IHRun as (n & E & G).
    exists ((i, firstn (pos c' - pos c) (rest c)) :: n).
    rewrite E. split; [reflexivity |].
    intros k v [Hin | Hin]; [injection Hin as <- _; left; reflexivity |].
    right. eauto.
Qed.

Lemma group_app_skip (i : nat) (new e : env) :
  (forall k v, In (k, v) new -> k <> i) -> group i (new ++ e) = group i e.
Proof.
  induction new as [| [j s] new IH]; intros H; simpl; [reflexivity |].
  destruct (Nat.eqb_spec i j) as [-> | _].
  - exfalso. apply (H j s); [left |]; reflexivity.
  - apply IH. intros k v Hin. apply (H k v). right. exact Hin.
Qed.

(** A pattern leaves alone the groups it does not contain. *)
Lemma Run_group_kept (r : regex) (c c' : cfg) (i : nat) :
  Run ic r c c' -> ~ In i (group_ids r) ->
  group i (caps c') = group i (caps c).
Proof.
  intros H Hi. destruct (Run_caps H) as (new & E & G).
  rewrite E. apply group_app_skip.
  intros k v Hin ->. apply Hi. eauto.
Qed.

End Matcher.

(** ** Match objects *)

Section MatchObjects.

Local Open Scope nat_scope.

Variable ic : bool.

Lemma first_at_Run (r : regex) (p : nat) (s : str) (m : mobj) :
  first_at ic r p s = Some m ->
  exists c, Run ic r (Cfg [] p s) c
            /\ m = Mobj (caps c) p (pos c) (firstn (pos c - p) s) (rest c).
Proof.
  unfold first_at. destruct (run ic r (Cfg [] p s)) as [| c l] eqn:E;
    [discriminate |].
  intros H. injection H as <-. exists c. split; [| reflexivity].
  apply run_sound. rewrite E. left. reflexivity.
Qed.

Lemma first_at_none (r : regex) (p : nat) (s : str) :
  first_at ic r p s = None -> forall c, ~ Run ic r (Cfg [] p s) c.
Proof.
  unfold first_at. intros H c Hc. apply run_complete in Hc.
  destruct (run ic r (Cfg [] p s)); [destruct Hc | discriminate].
Qed.

Lemma search_from_first (r : regex) (s : str) :
  forall p m, search_from ic r p s = Some m ->
              exists p' s', first_at ic r p' s' = Some m.
Proof.
  induction s as [| x s IH]; intros p m H; simpl in H.
  - destruct (first_at ic r p []) eqn:E; [| discriminate].
    injection H as <-. eauto.
  - destruct (first_at ic r p (x :: s)) eqn:E; [| eauto].
    injection H as <-. eauto.
Qed.

Lemma scan_first (r : regex) (f : nat) :
  forall p s m, In (Match m) (scan ic r f p s) ->
                exists p' s', first_at ic r p' s' = Some m.
Proof.
  induction f as [| f IH]; intros p s m H; simpl in H.
  - apply in_map_iff in H. destruct H as (x & Hx & _). discriminate.
  - destruct (first_at ic r p s) as [m0 |] eqn:E.
    + destruct (m_end m0 =? p).
      * destruct H as [H | H]; [injection H as <-; eauto |].
        destruct s as [| x s]; [destruct H |].
        destruct H as [H | H]; [discriminate | eauto].
      * destruct H as [H | H]; [injection H as <-; eauto | eauto].
    + destruct s as [| x s]; [destruct H |].
      destruct H as [H | H]; [discriminate | eauto].
Qed.

End MatchObjects.

Lemma lit_ok_exact (a x : ascii) : lit_ok false a x = true -> x = a.
Proof.
  unfold lit_ok. rewrite orb_false_r. intros H.
  apply Ascii.eqb_eq in H. congruence.
Qed.

Lemma cls_ok_exact (f : ascii -> bool) (x : ascii) : cls_ok false f x = f x.
Proof. unfold cls_ok. apply orb_false_r. Qed.

(** Inversion of a match along the structure of its pattern. *)
Ltac run_inv H := inversion H; subst; clear H.

Ltac run_inv_all :=
  repeat match goal with
         | H : Run _ (Cat _ _) _ _ |- _ => run_inv H
         | H : Run _ (Lit _) _ _ |- _ => run_inv H
         | H : Run _ (Cls _) _ _ |- _ => run_inv H
         | H : Run _ (Grp _ _) _ _ |- _ => run_inv H
         | H : Run _ Eps _ _ |- _ => run_inv H
         | H : Run _ Bol _ _ |- _ => run_inv H
         end.

(** ** Inversion of matches *)

Section Inversion.

Local Open Scope nat_scope.

Variable ic : bool.

Lemma Run_Cat_inv (r1 r2 : regex) (c c2 : cfg) :
  Run ic (Cat r1 r2) c c2 ->
  exists c1, Run ic r1 c c1 /\ Run ic r2 c1 c2.
Proof. intros H. inversion H; subst. eauto. Qed.

Lemma Run_Grp_inv (i : nat) (r : regex) (c c1 : cfg) :
  Run ic (Grp i r) c c1 ->
  exists c', Run ic r c c'
             /\ c1 = Cfg ((i, firstn (pos c' - pos c) (rest c)) :: caps c')
                         (pos c') (rest c').
Proof. intros H. inversion H; subst. eauto. Qed.

(** The text of a group is what its pattern read. *)
Lemma Run_text (r : regex) (c c' : cfg) (pre : str) :
  Run ic r c c' -> rest c = pre ++ rest c' ->
  firstn (pos c' - pos c) (rest c) = pre.
Proof.
  intros H E. destruct (Run_reads H) as (pre' & E' & P).
  assert (L : length pre' = length pre).
  { apply (f_equal (@length ascii)) in E, E'.
    rewrite length_app in E, E'. lia. }
  rewrite E. replace (pos c' - pos c) with (length pre) by lia.
  rewrite firstn_app, firstn_all, Nat.sub_diag. cbn. apply app_nil_r.
Qed.

End Inversion.

Lemma Run_Lit_inv (a : ascii) (c c' : cfg) :
  Run false (Lit a) c c' -> rest c = a :: rest c'.
Proof.
  intros H. inversion H; subst. cbn.
  rewrite (lit_ok_exact _ _ H1). reflexivity.
Qed.

Lemma has_char_app (a : ascii) (u v : str) :
  has_char a (u ++ v) = has_char a u || has_char a v.
Proof. apply existsb_app. Qed.

Lemma has_char_head (a : ascii) (v : str) : has_char a (a :: v) = true.
Proof. unfold has_char. cbn. rewrite Ascii.eqb_refl. reflexivity. Qed.

(** ** The quantity-letter pattern *)

Section QuantityLetter.

Local Open Scope nat_scope.

Lemma lstrip_split (s : str) :
  exists w, s = w ++ lstrip s /\ forallb is_space w = true.
Proof.
  induction s as [| c s (w & E & F)]; [exists []; auto |].
  cbn [lstrip]. destruct (is_space c) eqn:C.
  - exists (c :: w). cbn. rewrite C, F. split; [f_equal; exact E | reflexivity].
  - exists []. auto.
Qed.

Lemma lstrip_spaces (w : str) (l : ascii) (t : str) :
  forallb is_space w = true -> is_space l = false ->
  lstrip (w ++ l :: t) = l :: t.
Proof.
  induction w as [| c w IH]; cbn; intros F L.
  - rewrite L. reflexivity.
  - apply andb_prop in F. destruct F as [C F]. rewrite C. auto.
Qed.

Lemma is_JlI_not_space (l : ascii) : is_JlI l = true -> is_space l = false.
Proof.
  destruct l as [[|] [|] [|] [|] [|] [|] [|] [|]]; vm_compute; intros H;
    (reflexivity || discriminate H).
Qed.

Lemma Run_Cls_inv (f : ascii -> bool) (c c' : cfg) :
  Run false (Cls f) c c' ->
  exists x, f x = true /\ rest c = x :: rest c' /\ caps c' = caps c.
Proof.
  intros H. inversion H; subst. cbn.
  match goal with
  | K : cls_ok false f _ = true |- _ => rewrite cls_ok_exact in K
  end.
  eauto.
Qed.

Lemma Run_star_cls (f : ascii -> bool) (r : regex) (c c' : cfg) :
  Run false r c c' -> r = Star (Cls f) ->
  exists w, forallb f w = true /\ rest c = w ++ rest c'
            /\ caps c' = caps c.
Proof.
  induction 1; intros E; try discriminate E.
  - exists []. auto.
  - injection E as ->. destruct (IHRun2 eq_refl) as (w & F & R & K).
    apply Run_Cls_inv in H. destruct H as (x & X & Rx & Kx).
    exists (x :: w). cbn. rewrite X, F, Rx, R, K, Kx. auto.
Qed.

Lemma Run_plus_cls (f : ascii -> bool) (c c' : cfg) :
  Run false (Plus (Cls f)) c c' ->
  exists x w, f x = true /\ forallb f w = true
              /\ rest c = x :: w ++ rest c' /\ caps c' = caps c.
Proof.
  unfold Plus. intros H. apply Run_Cat_inv in H. destruct H as (c1 & H1 & H2).
  destruct (Run_star_cls (f := f) H2 eq_refl) as (w & F & R & K).
  apply Run_Cls_inv in H1. destruct H1 as (x & X & Rx & Kx).
  exists x, w. rewrite Rx, R, K, Kx. auto.
Qed.

Lemma star_cls_Run (f : ascii -> bool) (w : str) :
  forallb f w = true ->
  forall e p r,
    Run false (Star (Cls f)) (Cfg e p (w ++ r)) (Cfg e (p + length w) r).
Proof.
  induction w as [| x w IH]; cbn [forallb app length]; intros F e p r.
  - rewrite Nat.add_0_r. constructor.
  - apply andb_prop in F. destruct F as [X F].
    replace (p + S (length w)) with (S p + length w) by lia.
    eapply RunStarMore.
    + constructor. rewrite cls_ok_exact. exact X.
    + unfold shorter. cbn [rest length]. apply Nat.ltb_lt. lia.
    + apply IH. exact F.
Qed.

Lemma plus_cls_Run (f : ascii -> bool) (x : ascii) (w : str) :
  f x = true -> forallb f w = true ->
  forall e p r,
    Run false (Plus (Cls f)) (Cfg e p (x :: w ++ r))
        (Cfg e (S p + length w) r).
Proof.
  intros X F e p r. unfold Plus. eapply RunCat.
  - constructor. rewrite cls_ok_exact. exact X.
  - apply star_cls_Run. exact F.
Qed.

Lemma after_spaces_some (x : ascii) (w : str) (l : ascii) (t : str) :
  is_space x = true -> forallb is_space w = true -> is_space l = false ->
  after_spaces (x :: w ++ l :: t) = Some (l :: t).
Proof.
  intros X F L. unfold after_spaces. rewrite X.
  rewrite lstrip_spaces by assumption. reflexivity.
Qed.

Lemma after_spaces_inv (s t : str) :
  after_spaces s = Some t ->
  exists x w, s = x :: w ++ t /\ is_space x = true
              /\ forallb is_space w = true.
Proof.
  unfold after_spaces. destruct s as [| x s1]; [discriminate |].
  destruct (is_space x) eqn:X; [| discriminate].
  intros H. injection H as <-.
  destruct (lstrip_split s1) as (w & E & F).
  exists x, w. rewrite <- E. auto.
Qed.

Lemma dollar_not_space : is_space dollar = false.
Proof. reflexivity. Qed.

(** A match of the pattern is what [quantity_letter_at] reads. *)
Lemma Run_quantity_letter (c c' : cfg) :
  Run false quantity_letter_pattern c c' ->
  quantity_letter_at (rest c) = Some (rest c').
Proof.
  unfold quantity_letter_pattern. cbn [cat]. intros H.
  apply Run_Cat_inv in H. destruct H as (c1 & H1 & H).
  apply Run_Cat_inv in H. destruct H as (c2 & H2 & H).
  apply Run_Cat_inv in H. destruct H as (c3 & H3 & H4).
  apply Run_plus_cls in H1. destruct H1 as (x1 & w1 & X1 & F1 & R1 & _).
  apply Run_plus_cls in H3. destruct H3 as (x3 & w3 & X3 & F3 & R3 & _).
  apply Run_Lit_inv in H4.
  apply Run_Grp_inv in H2. destruct H2 as (c2' & H2 & ->).
  unfold one_of in H2. apply Run_Cls_inv in H2.
  destruct H2 as (l & L & R2 & _). fold (is_JlI l) in L.
  cbn [rest] in *.
  rewrite R1, R2. unfold quantity_letter_at.
  rewrite after_spaces_some;
    [| assumption | assumption | apply is_JlI_not_space; assumption].
  rewrite L, R3, H4.
  rewrite after_spaces_some by (assumption || apply dollar_not_space).
  rewrite Ascii.eqb_refl. reflexivity.
Qed.

Lemma quantity_letter_Run (s r : str) (e : env) (p : nat) :
  quantity_letter_at s = Some r ->
  exists c', Run false quantity_letter_pattern (Cfg e p s) c'
             /\ rest c' = r.
Proof.
  unfold quantity_letter_at.
  destruct (after_spaces s) as [[| l s2] |] eqn:A1; try discriminate.
  destruct (is_JlI l) eqn:L; [| discriminate].
  destruct (after_spaces s2) as [[| d r'] |] eqn:A2; try discriminate.
  destruct (Ascii.eqb_spec d dollar) as [-> | _]; [| discriminate].
  intros H. injection H as ->.
  apply after_spaces_inv in A1. destruct A1 as (x1 & w1 & -> & X1 & F1).
  apply after_spaces_inv in A2. destruct A2 as (x3 & w3 & -> & X3 & F3).
  unfold quantity_letter_pattern. cbn [cat].
  eexists. split.
  - eapply RunCat; [apply plus_cls_Run; eassumption |].
    eapply RunCat.
    { apply RunGrp. unfold one_of. apply RunCls.
      rewrite cls_ok_exact. exact L. }
    cbn [pos rest caps].
    eapply RunCat; [apply plus_cls_Run; eassumption |].
    apply RunLit. unfold lit_ok. rewrite Ascii.eqb_refl. reflexivity.
  - reflexivity.
Qed.

Lemma quantity_letter_shorter (s r : str) :
  quantity_letter_at s = Some r -> length r < length s.
Proof.
  intros H. destruct (@quantity_letter_Run _ _ [] 0 H) as (c' & HR & <-).
  destruct (Run_reads HR) as (pre & E & _). cbn [rest] in E.
  apply Run_quantity_letter in HR. cbn [rest] in HR.
  unfold quantity_letter_at in H.
  destruct (after_spaces s) as [t |] eqn:A; [| discriminate].
  apply after_spaces_inv in A. destruct A as (x & w & -> & _).
  destruct pre; [| rewrite E; rewrite length_app; cbn; lia].
  cbn in E. exfalso.
  destruct t as [| l s2]; [discriminate |].
  destruct (is_JlI l); [| discriminate].
  destruct (after_spaces s2) as [[| d r'] |] eqn:A2; try discriminate.
  destruct (Ascii.eqb d dollar); [| discriminate].
  injection H as H.
  apply after_spaces_inv in A2. destruct A2 as (x3 & w3 & -> & _).
  apply (f_equal (@length ascii)) in E.
  rewrite H in E. cbn in E. rewrite !length_app in E. cbn in E.
  rewrite !length_app in E. cbn in E. lia.
Qed.

Lemma first_at_quantity_letter (p : nat) (s : str) :
  match first_at false quantity_letter_pattern p s with
  | Some m => quantity_letter_at s = Some (m_after m) /\ m_end m <> p
  | None => quantity_letter_at s = None
  end.
Proof.
  destruct (first_at false quantity_letter_pattern p s) as [m |] eqn:F.
  - apply first_at_Run in F. destruct F as (c & HR & ->). cbn.
    pose proof (Run_quantity_letter HR) as Q. cbn [rest] in Q.
    split; [exact Q |].
    destruct (Run_reads HR) as (pre & E & P). cbn [rest pos] in *.
    apply quantity_letter_shorter in Q.
    apply (f_equal (@length ascii)) in E. rewrite length_app in E. lia.
  - destruct (quantity_letter_at s) as [r |] eqn:Q; [| reflexivity].
    exfalso. destruct (@quantity_letter_Run _ _ [] p Q) as (c' & HR & _).
    exact (first_at_none F HR).
Qed.

End QuantityLetter.

(** ** The confidence score *)

Ltac q_arith :=
  unfold Qeq, Qle, Qlt, Qplus, Qmult, inject_Z; cbn [Qnum Qden]; lia.

Lemma py_min_Qmin (a b : Q) : py_min a b = Qmin a b.
Proof.
  unfold py_min, Qmin, GenericMinMax.gmin.
  rewrite <- (Qcompare_antisym a b).
  destruct (a ?= b); reflexivity.
Qed.

Lemma Qmin_eq (a a' b b' : Q) : a == a' -> b == b' -> Qmin a b == Qmin a' b'.
Proof. intros Ha Hb. rewrite Ha, Hb. reflexivity. Qed.


Lemma fields_fold (data : Receipt) :
  fold_left (fun (score : Q) (fw : bool * Q) =>
               if fst fw then score + snd fw else score)
            (fields_to_check data) 0 == presence_sum data.
Proof.
  unfold fields_to_check, presence_sum, weight_of; simpl.
  destruct (str_truthy (receipt_number data)), (str_truthy (date data)),
    (str_truthy (name (bill_to data))), (str_truthy (email (bill_to data))),
    (num_truthy (total_amount data)), (str_truthy (payment_method data));
    ring.
Qed.

Lemma score_min_form (data : Receipt) :
  calculate_confidence_score data
  == Qmin (presence_sum data + Qmin (items_bonus data) 10) 100.
Proof.
  unfold calculate_confidence_score.
  rewrite !py_min_Qmin.
  apply Qmin_eq; [| reflexivity].
  fold (items_bonus data).
  destruct (items data) eqn:E.
  - simpl list_truthy; cbv iota.
    assert (H : Qmin (items_bonus data) 10 == 0).
    { unfold items_bonus. rewrite E. reflexivity. }
    rewrite H, fields_fold. ring.
  - simpl list_truthy; cbv iota. rewrite fields_fold. reflexivity.
Qed.

(** C3: the score is [min(S + min(len(items) * 2.5, 10), 100)], where [S]
    adds the weights 20, 20, 15, 15, 20 and 10 of the fields receipt_number,
    date, bill_to.name, bill_to.email, total_amount and payment_method that
    are truthy. *)
Theorem score_formula (data : Receipt) :
  calculate_confidence_score data
  == Qmin (presence_sum data + Qmin (items_bonus data) 10) 100.
Proof. exact (score_min_form data). Qed.

(** C6, as stated, fails: with a receipt number and one line item the score
    is 22.5, which is not an integer. *)
Lemma score_one_item_not_integer :
  ~ is_integer (calculate_confidence_score one_item_receipt).
Proof.
  assert (E : calculate_confidence_score one_item_receipt = 45 # 2)
    by (vm_compute; reflexivity).
  rewrite E. intros [z H]. unfold Qeq in H; simpl in H. lia.
Qed.

Lemma presence_sum_units (data : Receipt) :
  presence_sum data == inject_Z (5 * weight_units data)
  /\ (0 <= weight_units data <= 20)%Z.
Proof.
  unfold presence_sum, weight_units, weight_of.
  destruct (str_truthy (receipt_number data)), (str_truthy (date data)),
    (str_truthy (name (bill_to data))), (str_truthy (email (bill_to data))),
    (num_truthy (total_amount data)), (str_truthy (payment_method data));
    (split; [reflexivity | lia]).
Qed.

Lemma bonus_units (n : nat) :
  Qmin (inject_Z (Z.of_nat n) * (5 # 2)) 10
  == inject_Z (Z.min (Z.of_nat n) 4) * (5 # 2).
Proof.
  destruct (Z.le_gt_cases (Z.of_nat n) 4) as [H | H].
  - rewrite Z.min_l by exact H. apply Q.min_l.
    q_arith.
  - rewrite Z.min_r by lia. rewrite Q.min_r.
    + reflexivity.
    + q_arith.
Qed.

Lemma score_units (data : Receipt) :
  calculate_confidence_score data
  == inject_Z (Z.min (2 * weight_units data
                      + Z.min (Z.of_nat (length (items data))) 4) 40) * (5 # 2).
Proof.
  rewrite score_min_form.
  destruct (presence_sum_units data) as [HS Hw].
  unfold items_bonus. rewrite HS, bonus_units.
  set (w := weight_units data) in *.
  set (j := Z.min (Z.of_nat (length (items data))) 4).
  assert (Hj : (0 <= j <= 4)%Z) by (unfold j; lia).
  destruct (Z.le_gt_cases (2 * w + j) 40) as [H | H].
  - rewrite Z.min_l by exact H. rewrite Q.min_l.
    + q_arith.
    + q_arith.
  - rewrite Z.min_r by lia. rewrite Q.min_r.
    + reflexivity.
    + q_arith.
Qed.

(** C6, amended: the score lies between 0 and 100 and is a multiple of 2.5;
    it is an integer unless the record has exactly one or exactly three
    line items. *)
Theorem score_bound (data : Receipt) :
  0 <= calculate_confidence_score data <= 100
  /\ (exists k : Z, calculate_confidence_score data == inject_Z k * (5 # 2))
  /\ (length (items data) <> 1%nat -> length (items data) <> 3%nat ->
      is_integer (calculate_confidence_score data)).
Proof.
  pose proof (score_units data) as E.
  destruct (presence_sum_units data) as [_ Hw].
  set (w := weight_units data) in *.
  set (n := length (items data)) in *.
  set (k := Z.min (2 * w + Z.min (Z.of_nat n) 4) 40) in *.
  assert (Hk : (0 <= k <= 40)%Z) by (unfold k; lia).
  split; [| split].
  - rewrite E. q_arith.
  - exists k. exact E.
  - intros H1 H3.
    assert (Hev : exists h, k = (2 * h)%Z).
    { destruct (Z.le_gt_cases (2 * w + Z.min (Z.of_nat n) 4) 40) as [H | H].
      - assert (Hn : n = 0%nat \/ n = 2%nat \/ (4 <= n)%nat) by lia.
        destruct Hn as [Hn | [Hn | Hn]].
        + exists w. unfold k. lia.
        + exists (w + 1)%Z. unfold k. lia.
        + exists (w + 2)%Z. unfold k. lia.
      - exists 20%Z. unfold k. lia. }
    destruct Hev as [h Hh]. exists (5 * h)%Z.
    rewrite E, Hh. q_arith.
Qed.

Lemma score_bound_witness :
  0 <= calculate_confidence_score two_item_receipt <= 100
  /\ is_integer (calculate_confidence_score two_item_receipt).
Proof.
  destruct (score_bound two_item_receipt) as (B & _ & I).
  split; [exact B |].
  apply I; cbn; discriminate.
Defined.

(** ** The format classifier *)

Lemma max_by_confidence_cases (a b : FormatMatch) :
  max_by_confidence a [b; unknown] = a
  \/ max_by_confidence a [b; unknown] = b
  \/ max_by_confidence a [b; unknown] = unknown.
Proof.
  unfold max_by_confidence. cbn [fold_left].
  destruct (confidence b ?= confidence a);
    destruct (confidence unknown ?= _); auto.
Qed.

Lemma threshold_cases (best : FormatMatch) :
  let result := match confidence best ?= 30 with
                | Lt => unknown
                | _ => best
                end in
  result = unknown /\ confidence best < 30
  \/ result = best /\ 30 <= confidence best.
Proof.
  cbv zeta. destruct (confidence best ?= 30) eqn:E.
  - right. split; [reflexivity |].
    apply Qeq_alt in E. rewrite E. apply Qle_refl.
  - left. split; [reflexivity |]. apply Qlt_alt. exact E.
  - right. split; [reflexivity |].
    apply Qlt_le_weak. apply Qgt_alt in E. exact E.
Qed.

Lemma detect_cases (ocr_text : str) :
  exists a b best,
    best_weight ocr_text = Qmax (confidence a) (confidence b)
    /\ (best = a \/ best = b \/ best = unknown)
    /\ (detect_invoice_format ocr_text = unknown /\ confidence best < 30
        \/ detect_invoice_format ocr_text = best /\ 30 <= confidence best).
Proof.
  exists (score_template 20 template_a_patterns ocr_text template_a0),
         (score_template (25 # 2) template_b_patterns ocr_text template_b0).
  eexists. split; [reflexivity |]. split.
  - apply max_by_confidence_cases.
  - exact (threshold_cases _).
Qed.

Lemma unknown_is_unknown : is_unknown_result unknown.
Proof. repeat split. Qed.

(** C4: when the greatest total weight scored by the templates is below 30,
    the result is the unknown format: its name is "Unknown Format", it is
    not supported, and it carries no indicator. *)
Theorem detect_below_threshold (ocr_text : str) :
  best_weight ocr_text < 30 ->
  detect_invoice_format ocr_text = unknown
  /\ fm_name (detect_invoice_format ocr_text) = lit "Unknown Format"
  /\ supported (detect_invoice_format ocr_text) = false
  /\ indicators (detect_invoice_format ocr_text) = [].
Proof.
  intros H.
  destruct (detect_cases ocr_text)
    as (a & b & best & W & Hbest & [[E _] | [E Hge]]).
  - rewrite E. repeat split.
  - exfalso. rewrite W in H.
    assert (Ha : confidence a < 30)
      by (eapply Qle_lt_trans; [apply Q.le_max_l | exact H]).
    assert (Hb : confidence b < 30)
      by (eapply Qle_lt_trans; [apply Q.le_max_r | exact H]).
    destruct Hbest as [Hx | [Hx | Hx]]; rewrite Hx in Hge.
    + exact (Qlt_not_le _ _ Ha Hge).
    + exact (Qlt_not_le _ _ Hb Hge).
    + apply (Qlt_not_le 0 30); [reflexivity | exact Hge].
Qed.

Lemma detect_below_threshold_witness :
  best_weight (lit "Receipt #12") < 30
  /\ indicators (detect_invoice_format (lit "Receipt #12")) = [].
Proof.
  split.
  - vm_compute. reflexivity.
  - apply (detect_below_threshold (lit "Receipt #12")).
    vm_compute. reflexivity.
Defined.

(** C8: the result either has a confidence of at least 30, or is the unknown
    format with confidence 0, not supported and without indicators; its
    confidence is never strictly between 0 and 30. *)
Theorem detect_confidence_gap (ocr_text : str) :
  (30 <= confidence (detect_invoice_format ocr_text)
   \/ is_unknown_result (detect_invoice_format ocr_text))
  /\ ~ (0 < confidence (detect_invoice_format ocr_text)
        /\ confidence (detect_invoice_format ocr_text) < 30).
Proof.
  destruct (detect_cases ocr_text)
    as (a & b & best & _ & _ & [[E _] | [E Hge]]); rewrite E.
  - split.
    + right. exact unknown_is_unknown.
    + intros [H _]. exact (Qlt_irrefl 0 H).
  - split.
    + left. exact Hge.
    + intros [_ H]. exact (Qlt_not_le _ _ H Hge).
Qed.

(** ** The validator *)

Lemma year_group_digits (d : str) (m : mobj) :
  re_search false year_pattern d = Some m ->
  exists year, int_of_str (grp 1 m) = Ok year.
Proof.
  intros H. apply search_from_first in H. destruct H as (p & s & H).
  apply first_at_Run in H. destruct H as (c & HR & ->).
  unfold year_pattern in HR. cbn [cat] in HR. unfold digit in HR.
  run_inv_all.
  unfold grp. cbn [groups caps pos rest group Nat.eqb].
  replace (S (S (S (S p))) - p)%nat with 4%nat by lia.
  cbn [firstn].
  repeat match goal with
         | H : cls_ok false _ _ = true |- _ => rewrite cls_ok_exact in H
         end.
  unfold int_of_str. cbn [forallb].
  repeat match goal with
         | H : is_digit _ = true |- _ => rewrite H; clear H
         end.
  cbn [andb]. eauto.
Qed.

Lemma check_date_total (data : Receipt) :
  exists ws, check_date data = Ok ws
             /\ existsb is_email_warning ws = false.
Proof.
  unfold check_date. destruct (date data) as [d |]; [| exists []; auto].
  destruct (str_truthy (Some d)); [| exists []; auto].
  destruct (re_search false year_pattern d) as [m |] eqn:E; [| exists []; auto].
  destruct (year_group_digits _ E) as (year & ->). cbn [bind].
  destruct ((2020 <=? year)%Z && (year <=? 2100)%Z); eexists; split;
    reflexivity.
Qed.

Lemma check_sum_no_email (data : Receipt) :
  existsb is_email_warning (check_sum data) = false.
Proof.
  unfold check_sum. destruct (total_amount data); [| reflexivity].
  destruct (list_truthy (items data) && float_truthy f); [| reflexivity].
  destruct (flt cent _); reflexivity.
Qed.

Lemma validate_email_warning (data : Receipt) :
  exists ws, validate_extraction data = Ok ws
             /\ existsb is_email_warning ws
                = existsb is_email_warning (check_email data).
Proof.
  unfold validate_extraction.
  destruct (check_date_total data) as (dw & -> & Hd). cbn [bind].
  eexists. split; [reflexivity |].
  cbn [app]. rewrite !existsb_app, check_sum_no_email, Hd.
  cbn [orb]. apply orb_false_r.
Qed.

(** C5, as stated, fails: the address [a@b] has an [@], so it does not lack
    both characters, and yet the validator warns about it. *)
Lemma email_warning_with_at :
  exists ws, validate_extraction at_only_receipt = Ok ws
             /\ existsb is_email_warning ws = true
             /\ ~ (has_char "@" (lit "a@b") = false
                   /\ has_char "." (lit "a@b") = false).
Proof.
  exists [InvalidEmail (lit "a@b")]. split; [reflexivity |].
  split; [reflexivity |]. intros [H _]. discriminate H.
Qed.

(** C5, amended: for a record whose bill_to.email is present, the validator
    returns its warnings, and an e-mail warning is among them exactly when
    the address lacks an [@] or lacks a [.]; an address with both characters
    anywhere in it gets no e-mail warning. *)
Theorem email_warning_rule (data : Receipt) (e : str) :
  email (bill_to data) = Some e -> e <> [] ->
  exists ws, validate_extraction data = Ok ws
             /\ (existsb is_email_warning ws = true
                 <-> has_char "@" e = false \/ has_char "." e = false)
             /\ (has_char "@" e = true -> has_char "." e = true ->
                 existsb is_email_warning ws = false).
Proof.
  intros He Hne.
  destruct (validate_email_warning data) as (ws & Hv & Hw).
  exists ws. split; [exact Hv |]. rewrite Hw.
  unfold check_email. rewrite He.
  destruct e as [| x e]; [congruence |]. cbn [str_truthy].
  destruct (has_char "@" (x :: e)), (has_char "." (x :: e)); cbn;
    (split; [split; [intros H; try discriminate H; auto
                    | intros [H | H]; try discriminate H; reflexivity]
            | intros H1 H2; try discriminate; reflexivity]).
Qed.

Lemma email_warning_rule_witness :
  exists ws, validate_extraction at_only_receipt = Ok ws
             /\ (existsb is_email_warning ws = true
                 <-> has_char "@" (lit "a@b") = false
                     \/ has_char "." (lit "a@b") = false)
             /\ (has_char "@" (lit "a@b") = true ->
                 has_char "." (lit "a@b") = true ->
                 existsb is_email_warning ws = false).
Proof.
  apply (email_warning_rule at_only_receipt (e := lit "a@b")).
  - reflexivity.
  - discriminate.
Defined.

(** ** The e-mail address of an extracted record *)

Lemma email_match_shape (c c' : cfg) :
  Run false email_pattern c c' ->
  exists e, group 1 (caps c') = Some e
            /\ has_char "@" e = true /\ has_char "." e = true.
Proof.
  intros H. unfold email_pattern in H. cbn [cat] in H.
  apply Run_Grp_inv in H. destruct H as (c5 & H & ->).
  cbn [caps group Nat.eqb]. eexists. split; [reflexivity |].
  pose proof H as Hall.
  apply Run_Cat_inv in H. destruct H as (c1 & H1 & H).
  apply Run_Cat_inv in H. destruct H as (c2 & H2 & H).
  apply Run_Cat_inv in H. destruct H as (c3 & H3 & H).
  apply Run_Cat_inv in H. destruct H as (c4 & H4 & H).
  destruct (Run_reads H1) as (p1 & E1 & _).
  apply Run_Lit_inv in H2.
  destruct (Run_reads H3) as (p3 & E3 & _).
  apply Run_Lit_inv in H4.
  destruct (Run_reads H) as (p5 & E5 & _).
  assert (E : rest c = (p1 ++ "@"%char :: p3 ++ "."%char :: p5) ++ rest c5).
  { rewrite E1, H2, E3, H4, E5.
    repeat (rewrite <- app_assoc; cbn [app]). reflexivity. }
  rewrite (Run_text _ Hall E).
  split.
  - rewrite has_char_app, has_char_head. apply orb_true_r.
  - rewrite has_char_app.
    change ("@"%char :: p3 ++ "."%char :: p5)
      with (("@"%char :: p3) ++ "."%char :: p5).
    rewrite has_char_app, has_char_head, !orb_true_r. reflexivity.
Qed.

Lemma findall_email_shape (text e : str) :
  In e (re_findall1 false email_pattern text) ->
  has_char "@" e = true /\ has_char "." e = true.
Proof.
  unfold re_findall1, pieces. intros H.
  apply in_flat_map in H. destruct H as ([x | m] & Hm & He); [destruct He |].
  apply scan_first in Hm. destruct Hm as (p & s & Hm).
  apply first_at_Run in Hm. destruct Hm as (c & HR & ->).
  apply email_match_shape in HR. destruct HR as (g & Hg & H1 & H2).
  cbn [groups] in He. rewrite Hg in He.
  destruct He as [<- | []]. auto.
Qed.

Lemma extracted_email (text : str) (data : Receipt) :
  extract_receipt_fields_v3 text = Ok data ->
  email (bill_to data)
  = find (fun email => negb (startswith (lit "inquire") email))
         (re_findall1 false email_pattern (normalize_ocr_errors text)).
Proof.
  unfold extract_receipt_fields_v3.
  destruct (re_search true total_pattern (normalize_ocr_errors text)) as [m |].
  - destruct (float_of_str (remove_char "," (grp 1 m))); [| discriminate].
    cbn [bind].
    destruct (extract_line_items (normalize_ocr_errors text)); [| discriminate].
    cbn [bind]. intros H. injection H as <-. reflexivity.
  - cbn [bind].
    destruct (extract_line_items (normalize_ocr_errors text)); [| discriminate].
    cbn [bind]. intros H. injection H as <-. reflexivity.
Qed.

(** C9: in a record that [extract_receipt_fields_v3] produced, an e-mail
    address that is set contains both an [@] and a [.], and the validator
    returns no e-mail warning for that record. *)
Theorem extracted_email_is_well_formed (text : str) (data : Receipt) (e : str) :
  extract_receipt_fields_v3 text = Ok data ->
  email (bill_to data) = Some e ->
  has_char "@" e = true /\ has_char "." e = true
  /\ exists ws, validate_extraction data = Ok ws
                /\ existsb is_email_warning ws = false.
Proof.
  intros Hx He.
  rewrite (extracted_email _ Hx) in He.
  apply find_some in He. destruct He as [Hin _].
  apply findall_email_shape in Hin. destruct Hin as [H1 H2].
  split; [exact H1 |]. split; [exact H2 |].
  destruct (validate_email_warning data) as (ws & Hv & Hw).
  exists ws. split; [exact Hv |]. rewrite Hw.
  unfold check_email.
  rewrite (extracted_email _ Hx).
  destruct (find _ _) as [e' |] eqn:F; [| reflexivity].
  apply find_some in F. destruct F as [Hin _].
  apply findall_email_shape in Hin. destruct Hin as [H1' H2'].
  rewrite H1', H2'. destruct (str_truthy (Some e')); reflexivity.
Qed.

Lemma extracted_email_is_well_formed_witness :
  exists data,
    extract_receipt_fields_v3 two_address_text = Ok data
    /\ email (bill_to data) = Some (lit "ann.lee@mail.org")
    /\ has_char "@" (lit "ann.lee@mail.org") = true
    /\ has_char "." (lit "ann.lee@mail.org") = true
    /\ exists ws, validate_extraction data = Ok ws
                  /\ existsb is_email_warning ws = false.
Proof.
  eexists. split; [vm_compute; reflexivity |].
  split; [reflexivity |].
  eapply (extracted_email_is_well_formed two_address_text).
  - vm_compute. reflexivity.
  - reflexivity.
Defined.

(** ** The line-item loop *)

Lemma item_step_outcome (line : str) (items : list LineItem) :
  item_step line items
  = do o <- row_outcome line;
    Ok (match o with Some it => items ++ [it] | None => items end).
Proof.
  unfold item_step, row_outcome.
  destruct (re_match false item_pattern line) as [m |]; [| reflexivity].
  destruct (int_of_str (grp 2 m)); [| reflexivity]. cbn [bind].
  destruct (float_of_str (grp 3 m)); [| reflexivity]. cbn [bind].
  destruct (float_of_str (grp 4 m)); [| reflexivity]. cbn [bind].
  destruct (mul_int_float a a0); [| reflexivity]. cbn [bind].
  destruct (flt _ cent); reflexivity.
Qed.

Lemma row_outcome_blank : row_outcome [] = Ok None.
Proof. reflexivity. Qed.

Lemma loop_body_outcome (lines : list str) (items : list LineItem) (i : Z) :
  loop_body lines (Ok items) i
  = do o <- row_outcome (line_at lines i);
    Ok (match o with Some it => items ++ [it] | None => items end).
Proof.
  unfold loop_body. cbn [bind].
  destruct (line_at lines i) as [| x l] eqn:E.
  - rewrite row_outcome_blank. reflexivity.
  - apply item_step_outcome.
Qed.

Lemma loop_raise (lines : list str) (idx : list Z) (e : exn) :
  fold_left (loop_body lines) idx (Raise e) = Raise e.
Proof. induction idx as [| i idx IH]; [reflexivity | exact IH]. Qed.

(** The items of a loop that ends normally: those it started with and, for
    each index, the item its row is accepted as. *)
Lemma loop_items (lines : list str) (idx : list Z) :
  forall acc items,
    fold_left (loop_body lines) idx (Ok acc) = Ok items ->
    (forall i, In i idx -> exists o, row_outcome (line_at lines i) = Ok o)
    /\ forall it, In it items <->
                  In it acc
                  \/ exists i, In i idx
                               /\ row_outcome (line_at lines i) = Ok (Some it).
Proof.
  induction idx as [| i idx IH]; intros acc items H.
  - cbn in H. injection H as <-. split; [intros i [] |].
    intros it. split; [auto | intros [H | (i & [] & _)]; exact H].
  - cbn [fold_left] in H. rewrite loop_body_outcome in H.
    destruct (row_outcome (line_at lines i)) as [o | e] eqn:E;
      [| cbn [bind] in H; rewrite loop_raise in H; discriminate].
    cbn [bind] in H. apply IH in H. destruct H as [Hok Hin]. split.
    + intros j [<- | Hj]; [eauto | auto].
    + intros it. rewrite Hin. split.
      * intros [Hacc | (j & Hj & Hrow)].
        -- destruct o as [it' |]; [| auto].
           apply in_app_or in Hacc. destruct Hacc as [Hacc | [<- | []]]; [auto |].
           right. exists i. split; [left; reflexivity | exact E].
        -- right. exists j. split; [right; exact Hj | exact Hrow].
      * intros [Hacc | (j & [<- | Hj] & Hrow)].
        -- left. destruct o; [apply in_or_app |]; auto.
        -- left. rewrite E in Hrow. injection Hrow as ->.
           apply in_or_app. right. left. reflexivity.
        -- right. eauto.
Qed.

Lemma items_loop_fold (lines : list str) (idx : list Z) :
  items_loop lines idx = fold_left (loop_body lines) idx (Ok []).
Proof. reflexivity. Qed.

Lemma in_range_iff (a b i : Z) : In i (range a b) <-> (a <= i < b)%Z.
Proof.
  unfold range. rewrite in_map_iff. split.
  - intros (k & <- & Hk). apply in_seq in Hk. lia.
  - intros H. exists (Z.to_nat (i - a)). split; [lia |].
    apply in_seq. lia.
Qed.

(** The items [extract_line_items] returns are the accepted rows of the
    table. *)
Lemma extract_line_items_rows (text : str) (items : list LineItem) :
  extract_line_items text = Ok items ->
  (forall i, in_table text i ->
             exists o, row_outcome (line_at (split newline text) i) = Ok o)
  /\ forall it, In it items <->
                exists i, in_table text i
                          /\ row_outcome (line_at (split newline text) i)
                             = Ok (Some it).
Proof.
  unfold extract_line_items, in_table.
  destruct (table_bounds (split newline text) 0 (-1)) as [ts te].
  destruct (Z.eqb_spec ts (-1)) as [-> | Hts].
  - intros H. injection H as <-. split.
    + intros i (H & _). congruence.
    + intros it. split; [intros [] | intros (i & (H & _) & _); congruence].
  - intros H. rewrite items_loop_fold in H. apply loop_items in H.
    destruct H as [Hok Hin]. split.
    + intros i (_ & H1 & H2). apply Hok. apply in_range_iff. lia.
    + intros it. rewrite Hin. split.
      * intros [[] | (i & Hi & Hrow)]. exists i.
        apply in_range_iff in Hi. repeat split; try assumption; lia.
      * intros (i & (_ & H1 & H2) & Hrow). right. exists i.
        split; [apply in_range_iff; lia | exact Hrow].
Qed.

Lemma row_outcome_some (line : str) (it : LineItem) :
  row_outcome line = Ok (Some it) ->
  exists m, re_match false item_pattern line = Some m
            /\ int_of_str (grp 2 m) = Ok (quantity it)
            /\ float_of_str (grp 3 m) = Ok (unit_price it)
            /\ float_of_str (grp 4 m) = Ok (total it)
            /\ description it = strip (grp 1 m)
            /\ within_tolerance flt (quantity it) (unit_price it) (total it).
Proof.
  unfold row_outcome, within_tolerance. intros H.
  destruct (re_match false item_pattern line) as [m |]; [| discriminate].
  exists m. split; [reflexivity |].
  destruct (int_of_str (grp 2 m)) as [q |]; [| discriminate].
  cbn [bind] in H.
  destruct (float_of_str (grp 3 m)) as [u |]; [| discriminate].
  cbn [bind] in H.
  destruct (float_of_str (grp 4 m)) as [t |]; [| discriminate].
  cbn [bind] in H.
  destruct (mul_int_float q u) as [e |] eqn:M; [| discriminate].
  cbn [bind] in H.
  destruct (flt _ cent) eqn:C; [| discriminate].
  injection H as <-. cbn.
  do 4 (split; [reflexivity |]).
  exists e. split; [exact M | exact C].
Qed.




(** ** The conversions of a row never fail *)

Section RowGroups.

Local Open Scope nat_scope.

Lemma Run_Grp_text (i : nat) (r : regex) (c c1 : cfg) :
  Run false (Grp i r) c c1 ->
  exists c', Run false r c c'
             /\ rest c1 = rest c' /\ pos c1 = pos c'
             /\ forall pre, rest c = pre ++ rest c' ->
                            group i (caps c1) = Some pre.
Proof.
  intros H. apply Run_Grp_inv in H. destruct H as (c' & H & ->).
  exists c'. cbn [rest pos caps group]. rewrite Nat.eqb_refl.
  repeat split; try assumption.
  intros pre E. f_equal. exact (Run_text _ H E).
Qed.

Lemma digit_not_point (x : ascii) : is_digit x = true -> x <> "."%char.
Proof. intros H ->. discriminate H. Qed.

Lemma cut_point_digits (w f : str) :
  forallb is_digit w = true -> cut_point (w ++ "."%char :: f) = (w, Some f).
Proof.
  induction w as [| x w IH]; cbn [app cut_point forallb]; intros F.
  - reflexivity.
  - apply andb_prop in F. destruct F as [X F].
    destruct (Ascii.eqb_spec x ".") as [E | _];
      [exact (False_ind _ (@digit_not_point x X E)) |].
    rewrite (IH F). reflexivity.
Qed.

Lemma int_of_digits (x : ascii) (w : str) :
  is_digit x = true -> forallb is_digit w = true ->
  exists n, int_of_str (x :: w) = Ok n.
Proof.
  intros X F. unfold int_of_str. cbn [forallb]. rewrite X, F. cbn. eauto.
Qed.

Lemma float_of_price (x : ascii) (w : str) (d1 d2 : ascii) :
  is_digit x = true -> forallb is_digit w = true ->
  is_digit d1 = true -> is_digit d2 = true ->
  exists u, float_of_str ((x :: w) ++ "."%char :: [d1; d2]) = Ok u.
Proof.
  intros X F D1 D2. unfold float_of_str.
  rewrite cut_point_digits by (cbn [forallb]; rewrite X, F; reflexivity).
  cbn [forallb length]. rewrite X, F, D1, D2. cbn. eauto.
Qed.

Lemma price_text (c c' : cfg) :
  Run false price c c' ->
  exists x w d1 d2,
    is_digit x = true /\ forallb is_digit w = true
    /\ is_digit d1 = true /\ is_digit d2 = true
    /\ rest c = ((x :: w) ++ "."%char :: [d1; d2]) ++ rest c'.
Proof.
  unfold price. cbn [cat]. intros H.
  apply Run_Cat_inv in H. destruct H as (c1 & H1 & H).
  apply Run_Cat_inv in H. destruct H as (c2 & H2 & H).
  apply Run_Cat_inv in H. destruct H as (c3 & H3 & H4).
  apply Run_plus_cls in H1. destruct H1 as (x & w & X & F & R1 & _).
  apply Run_Lit_inv in H2.
  apply Run_Cls_inv in H3. destruct H3 as (d1 & D1 & R3 & _).
  apply Run_Cls_inv in H4. destruct H4 as (d2 & D2 & R4 & _).
  exists x, w, d1, d2. rewrite R1, H2, R3, R4.
  repeat split; try assumption.
  cbn. rewrite <- app_assoc. reflexivity.
Qed.

Lemma item_groups_convert (line : str) (m : mobj) :
  re_match false item_pattern line = Some m ->
  exists q u t,
    int_of_str (grp 2 m) = Ok q
    /\ float_of_str (grp 3 m) = Ok u
    /\ float_of_str (grp 4 m) = Ok t.
Proof.
  unfold re_match. intros H.
  apply first_at_Run in H. destruct H as (c & H & ->).
  unfold grp. cbn [groups].
  unfold item_pattern in H. cbn [cat] in H.
  apply Run_Cat_inv in H. destruct H as (c0 & _ & H).
  apply Run_Cat_inv in H. destruct H as (c1 & _ & H).
  apply Run_Cat_inv in H. destruct H as (c2 & _ & H).
  apply Run_Cat_inv in H. destruct H as (c3 & G2 & H).
  assert (K2 : group 2 (caps c) = group 2 (caps c3)).
  { apply (Run_group_kept 2 H). cbn.
    intros [E | [E | []]]; discriminate E. }
  apply Run_Cat_inv in H. destruct H as (c4 & _ & H).
  apply Run_Cat_inv in H. destruct H as (c5 & _ & H).
  apply Run_Cat_inv in H. destruct H as (c6 & G3 & H).
  assert (K3 : group 3 (caps c) = group 3 (caps c6)).
  { apply (Run_group_kept 3 H). cbn. intros [E | []]; discriminate E. }
  apply Run_Cat_inv in H. destruct H as (c7 & _ & H).
  apply Run_Cat_inv in H. destruct H as (c8 & _ & H).
  apply Run_Cat_inv in H. destruct H as (c9 & G4 & H).
  assert (K4 : group 4 (caps c) = group 4 (caps c9)).
  { apply (Run_group_kept 4 H). cbn. tauto. }
  rewrite K2, K3, K4. clear K2 K3 K4 H.
  apply Run_Grp_text in G2. destruct G2 as (c3' & G2 & _ & _ & T2).
  apply Run_plus_cls in G2. destruct G2 as (x & w & X & F & R2 & _).
  rewrite (T2 (x :: w) R2).
  apply Run_Grp_text in G3. destruct G3 as (c6' & G3 & _ & _ & T3).
  apply price_text in G3.
  destruct G3 as (x3 & w3 & a3 & b3 & X3 & F3 & A3 & B3 & R3).
  rewrite (T3 _ R3).
  apply Run_Grp_text in G4. destruct G4 as (c9' & G4 & _ & _ & T4).
  apply price_text in G4.
  destruct G4 as (x4 & w4 & a4 & b4 & X4 & F4 & A4 & B4 & R4).
  rewrite (T4 _ R4).
  destruct (@int_of_digits x w X F) as (q & Q).
  destruct (@float_of_price x3 w3 a3 b3 X3 F3 A3 B3) as (u & U).
  destruct (@float_of_price x4 w4 a4 b4 X4 F4 A4 B4) as (t & T).
  exists q, u, t. auto.
Qed.

Lemma mul_int_float_result (n : Z) (x : float) :
  (exists y, mul_int_float n x = Ok y)
  \/ mul_int_float n x = Raise OverflowError.
Proof.
  unfold mul_int_float, float_of_int.
  destruct (float_of_Z n); cbn [bind]; eauto.
Qed.

Lemma row_outcome_result (line : str) :
  (exists o, row_outcome line = Ok o)
  \/ row_outcome line = Raise OverflowError.
Proof.
  unfold row_outcome.
  destruct (re_match false item_pattern line) as [m |] eqn:M; [| eauto].
  destruct (item_groups_convert _ M) as (q & u & t & -> & -> & ->).
  cbn [bind].
  destruct (mul_int_float_result q u) as [(y & ->) | ->]; cbn [bind];
    [| auto].
  left. destruct (flt _ cent); eauto.
Qed.

Lemma loop_result (lines : list str) (idx : list Z) :
  forall acc,
    (exists items, fold_left (loop_body lines) idx (Ok acc) = Ok items)
    \/ fold_left (loop_body lines) idx (Ok acc) = Raise OverflowError.
Proof.
  induction idx as [| i idx IH]; intros acc; cbn [fold_left]; [eauto |].
  rewrite loop_body_outcome.
  destruct (row_outcome_result (line_at lines i)) as [(o & ->) | ->];
    cbn [bind].
  - apply IH.
  - right. apply loop_raise.
Qed.

(** [extract_line_items] returns its items, unless a quantity is beyond the
    range of [float]. *)
Lemma extract_line_items_result (text : str) :
  (exists items, extract_line_items text = Ok items)
  \/ extract_line_items text = Raise OverflowError.
Proof.
  unfold extract_line_items.
  destruct (table_bounds (split newline text) 0 (-1)) as [ts te].
  destruct (ts =? -1)%Z; [eauto |].
  rewrite items_loop_fold. apply loop_result.
Qed.

End RowGroups.



(** ** Accepted line items are well formed *)

Section Strip.

Lemma lstrip_suffix (s : str) : exists w, s = w ++ lstrip s.
Proof.
  induction s as [| c s [w IH]]; [exists []; reflexivity |].
  cbn. destruct (is_space c).
  - exists (c :: w). cbn. f_equal. exact IH.
  - exists []. reflexivity.
Qed.

Lemma lstrip_head (s : str) (x : ascii) (t : str) :
  lstrip s = x :: t -> is_space x = false.
Proof.
  induction s as [| c s IH]; cbn; [discriminate |].
  destruct (is_space c) eqn:E; [exact IH |].
  intros H. injection H as <- _. exact E.
Qed.

Lemma lstrip_keeps (s : str) (y : ascii) :
  In y s -> is_space y = false -> lstrip s <> [].
Proof.
  induction s as [| c s IH]; cbn; [intros [] |].
  intros [-> | Hin] Hy.
  - rewrite Hy. discriminate.
  - destruct (is_space c); [auto | discriminate].
Qed.

Lemma rstrip_prefix (s : str) : exists w, s = rstrip s ++ w.
Proof.
  unfold rstrip. destruct (lstrip_suffix (rev s)) as [w H].
  exists (rev w). rewrite <- rev_app_distr, <- H, rev_involutive. reflexivity.
Qed.

Lemma strip_head (s : str) (x : ascii) (t : str) :
  strip s = x :: t -> is_space x = false.
Proof.
  unfold strip. intros H.
  destruct (rstrip_prefix (lstrip s)) as [w Hw].
  rewrite H in Hw. cbn in Hw. exact (lstrip_head _ Hw).
Qed.

Lemma strip_keeps (x : ascii) (p : str) :
  is_space x = false -> strip (x :: p) <> [].
Proof.
  intros Hx. unfold strip. cbn [lstrip]. rewrite Hx.
  unfold rstrip. intros H.
  apply (f_equal (@rev ascii)) in H. rewrite rev_involutive in H. cbn in H.
  apply (@lstrip_keeps (rev p ++ [x]) x); auto.
  apply in_or_app. right. left. reflexivity.
Qed.

End Strip.

Lemma digits_val_nonneg (s : str) : (0 <= digits_val s)%Z.
Proof.
  unfold digits_val.
  assert (G : forall acc, (0 <= acc)%Z ->
              (0 <= fold_left (fun a c => (10 * a + digit_val c)%Z) s acc)%Z).
  { induction s as [| c s IH]; intros acc Hacc; cbn [fold_left];
      [exact Hacc |].
    apply IH. unfold digit_val. lia. }
  apply G. lia.
Qed.

Lemma int_of_str_nonneg (s : str) (n : Z) :
  int_of_str s = Ok n -> (0 <= n)%Z.
Proof.
  unfold int_of_str. destruct s; [discriminate |].
  destruct (forallb is_digit (a :: s)); [| discriminate].
  intros H. injection H as <-. apply digits_val_nonneg.
Qed.

(** *** Rounding a number that is not negative *)

Section Rounding.

Local Open Scope Z_scope.

Lemma shr_1_nonneg (mrs : shr_record) :
  0 <= shr_m mrs -> 0 <= shr_m (shr_1 mrs).
Proof.
  destruct mrs as [m r s]. cbn.
  destruct m as [| [p | p |] | [p | p |]]; cbn; lia.
Qed.

Lemma iter_shr_1_nonneg (p : positive) :
  forall mrs, 0 <= shr_m mrs -> 0 <= shr_m (iter_pos shr_1 p mrs).
Proof.
  induction p as [p IH | p IH |]; intros mrs H; cbn.
  - apply IH, IH, shr_1_nonneg, H.
  - apply IH, IH, H.
  - apply shr_1_nonneg, H.
Qed.

Lemma shr_fexp_nonneg (m e : Z) (l : location) :
  0 <= m -> 0 <= shr_m (fst (shr_fexp prec emax m e l)).
Proof.
  intros H. unfold shr_fexp, shr.
  assert (H0 : 0 <= shr_m (shr_record_of_loc m l))
    by (destruct l as [| []]; exact H).
  destruct (fexp prec emax (Zdigits2 m + e) - e); cbn; auto.
  apply iter_shr_1_nonneg, H0.
Qed.

Lemma round_nearest_even_nonneg (m : Z) (l : location) :
  0 <= m -> 0 <= round_nearest_even m l.
Proof.
  intros H. destruct l as [| []]; cbn; try lia.
  destruct (Z.even m); lia.
Qed.

Lemma binary_round_aux_nonneg (m e : Z) (l : location) :
  0 <= m -> fle fzero (binary_round_aux prec emax false m e l) = true.
Proof.
  intros H. unfold binary_round_aux.
  pose proof (shr_fexp_nonneg e l H) as H1.
  destruct (shr_fexp prec emax m e l) as [mrs' e'] eqn:E1. cbn [fst] in H1.
  pose proof (round_nearest_even_nonneg (loc_of_shr_record mrs') H1) as H2.
  pose proof (shr_fexp_nonneg e' loc_Exact H2) as H3.
  destruct (shr_fexp prec emax _ e' loc_Exact) as [mrs'' e''].
  cbn [fst] in H3.
  destruct (shr_m mrs'') as [| p | p]; [reflexivity | | lia].
  destruct (e'' <=? emax - prec); reflexivity.
Qed.

Lemma float_of_ratio_nonneg (n d : Z) :
  0 <= n -> 0 < d -> fle fzero (float_of_ratio n d) = true.
Proof.
  intros Hn Hd. unfold float_of_ratio, SFdiv_core_binary.
  set (e' := Z.min _ _). set (s := 0 - 0 - e').
  set (m' := match s with Z.pos _ => Z.shiftl n s | 0 => n | Z.neg _ => 0 end).
  assert (Hm : 0 <= m').
  { unfold m'. destruct s; try lia. apply Z.shiftl_nonneg. exact Hn. }
  pose proof (Z.div_pos m' d Hm Hd) as Hq. unfold Z.div in Hq.
  destruct (Z.div_eucl m' d) as [q r]. cbn [fst] in Hq.
  apply binary_round_aux_nonneg. exact Hq.
Qed.

End Rounding.

Lemma float_of_str_nonneg (s : str) (x : float) :
  float_of_str s = Ok x -> fle fzero x = true.
Proof.
  unfold float_of_str. destruct (cut_point s) as [ip fp].
  destruct (_ && _); [| discriminate].
  intros H. injection H as <-.
  apply float_of_ratio_nonneg; [apply digits_val_nonneg |].
  apply Z.pow_pos_nonneg; lia.
Qed.

(** *** The description group *)

Lemma item_description_group (line : str) (m : mobj) :
  re_match false item_pattern line = Some m ->
  exists x p t, line = x :: t /\ grp 1 m = x :: p.
Proof.
  unfold re_match. intros H.
  apply first_at_Run in H. destruct H as (c & H & ->).
  unfold item_pattern in H. cbn [cat] in H.
  apply Run_Cat_inv in H. destruct H as (c0 & H0 & H).
  inversion H0; subst; clear H0.
  apply Run_Cat_inv in H. destruct H as (c1 & H1 & H).
  apply Run_Grp_inv in H1. destruct H1 as (c' & H1 & ->).
  assert (G : group 1 (caps c)
              = Some (firstn (pos c' - 0) line)).
  { rewrite (Run_group_kept 1 H).
    - reflexivity.
    - cbn. intros [E | [E | [E | []]]]; discriminate E. }
  unfold grp. cbn [groups]. rewrite G. clear G H.
  pose proof H1 as Hall.
  unfold PlusLazy in H1.
  apply Run_Cat_inv in H1. destruct H1 as (c2 & H1 & H2).
  unfold dot in H1. inversion H1; subst; clear H1.
  destruct (Run_reads H2) as (p & E & _). cbn [rest] in E.
  exists x, p, s. split; [reflexivity |].
  apply (Run_text _ Hall). cbn [rest]. rewrite E. reflexivity.
Qed.

Lemma line_at_head (lines : list str) (i : Z) (x : ascii) (t : str) :
  line_at lines i = x :: t -> is_space x = false.
Proof. unfold line_at. apply strip_head. Qed.

Lemma accepted_item_shape (text : str) (items : list LineItem) (it : LineItem) :
  extract_line_items text = Ok items -> In it items ->
  description it <> []
  /\ strip (description it) <> []
  /\ (0 <= quantity it)%Z
  /\ fle fzero (unit_price it) = true
  /\ fle fzero (total it) = true.
Proof.
  intros Hx Hin.
  destruct (extract_line_items_rows _ Hx) as [_ Hrows].
  apply Hrows in Hin. destruct Hin as (i & _ & Hrow).
  apply row_outcome_some in Hrow.
  destruct Hrow as (m & Hm & Hq & Hu & Ht & Hd & _).
  destruct (item_description_group _ Hm) as (x & p & t & Hline & Hg).
  apply line_at_head in Hline.
  assert (D : description it <> [])
    by (rewrite Hd, Hg; apply strip_keeps; exact Hline).
  split; [exact D |]. split.
  - destruct (description it) as [| y d]; [congruence |].
    apply strip_keeps. symmetry in Hd. exact (strip_head _ Hd).
  - split; [exact (int_of_str_nonneg _ Hq) |].
    split; eapply float_of_str_nonneg; eassumption.
Qed.

(** C10: every line item that [extract_line_items] accepts has a description
    that is not empty, also after trimming, a quantity that is at least 0,
    and a unit price and a total that are at least 0. *)
Theorem accepted_items_are_well_formed
    (text : str) (items : list LineItem) (it : LineItem) :
  extract_line_items text = Ok items -> In it items ->
  description it <> []
  /\ strip (description it) <> []
  /\ (0 <= quantity it)%Z
  /\ fle fzero (unit_price it) = true
  /\ fle fzero (total it) = true.
Proof. exact (@accepted_item_shape text items it). Qed.

Lemma accepted_items_are_well_formed_witness :
  exists it,
    extract_line_items one_row_text = Ok [it]
    /\ description it <> []
    /\ strip (description it) <> []
    /\ (0 <= quantity it)%Z
    /\ fle fzero (unit_price it) = true
    /\ fle fzero (total it) = true.
Proof.
  eexists. split; [vm_compute; reflexivity |].
  eapply (accepted_items_are_well_formed one_row_text).
  - vm_compute. reflexivity.
  - left. reflexivity.
Defined.

(** ** Exceptions of the extractor *)

(** C2 fails on the code: [extract_receipt_fields_v3] raises [ValueError] on
    the text "Total Amount: ," (the amount group is a lone comma, which
    [float] refuses once the comma is removed), and [extract_line_items]
    raises [OverflowError] on a row whose quantity has 400 digits (the
    product of that [int] and a [float]). *)
Theorem extractor_raises :
  extract_receipt_fields_v3 comma_total_text = Raise ValueError
  /\ extract_line_items huge_quantity_text = Raise OverflowError
  /\ extract_receipt_fields_v3 huge_quantity_text = Raise OverflowError.
Proof.
  split; [vm_compute; reflexivity |].
  split; vm_compute; reflexivity.
Qed.

(** ** The substitution of the quantity letter *)

Section Substitution.

Local Open Scope nat_scope.

Lemma re_sub_render (ic : bool) (r : regex) (repl s : str) :
  re_sub ic r repl s = render repl (pieces ic r s).
Proof. reflexivity. Qed.

Lemma render_text (repl s : str) : render repl (map Text s) = s.
Proof.
  induction s as [| c s IH]; [reflexivity |]. cbn. f_equal. exact IH.
Qed.

Lemma render_scan (f : nat) :
  forall p s,
    render (lit " 1 $") (scan false quantity_letter_pattern f p s)
    = sub_letters f s.
Proof.
  induction f as [| f IH]; intros p s; cbn [scan sub_letters].
  - apply render_text.
  - pose proof (first_at_quantity_letter p s) as Q.
    destruct (first_at false quantity_letter_pattern p s) as [m |].
    + destruct Q as [Q Hend]. rewrite Q.
      destruct (Nat.eqb_spec (m_end m) p) as [E | _]; [contradiction |].
      unfold render. cbn [flat_map]. fold (render (lit " 1 $")).
      f_equal. apply IH.
    + rewrite Q. destruct s as [| c s']; [reflexivity |].
      unfold render. cbn [flat_map app]. fold (render (lit " 1 $")).
      f_equal. apply IH.
Qed.

Lemma re_sub_letters (s : str) :
  re_sub false quantity_letter_pattern (lit " 1 $") s
  = sub_letters (S (length s)) s.
Proof. rewrite re_sub_render. apply render_scan. Qed.

(** The two readings of a match. *)
Lemma quantity_letter_shape (s r : str) :
  quantity_letter_at s = Some r <->
  exists x1 w1 l x3 w3,
    s = x1 :: w1 ++ l :: x3 :: w3 ++ dollar :: r
    /\ is_space x1 = true /\ forallb is_space w1 = true
    /\ is_JlI l = true
    /\ is_space x3 = true /\ forallb is_space w3 = true.
Proof.
  split.
  - unfold quantity_letter_at.
    destruct (after_spaces s) as [[| l s2] |] eqn:A1; try discriminate.
    destruct (is_JlI l) eqn:L; [| discriminate].
    destruct (after_spaces s2) as [[| d r'] |] eqn:A2; try discriminate.
    destruct (Ascii.eqb_spec d dollar) as [-> | _]; [| discriminate].
    intros H. injection H as ->.
    apply after_spaces_inv in A1. destruct A1 as (x1 & w1 & -> & X1 & F1).
    apply after_spaces_inv in A2. destruct A2 as (x3 & w3 & -> & X3 & F3).
    exists x1, w1, l, x3, w3. auto 10.
  - intros (x1 & w1 & l & x3 & w3 & -> & X1 & F1 & L & X3 & F3).
    unfold quantity_letter_at.
    rewrite after_spaces_some;
      [| assumption | assumption | apply is_JlI_not_space; assumption].
    rewrite L.
    rewrite after_spaces_some by (assumption || apply dollar_not_space).
    rewrite Ascii.eqb_refl. reflexivity.
Qed.

Lemma space_not_one (x : ascii) : is_space x = true -> x <> "1"%char.
Proof. intros H ->. discriminate H. Qed.

Lemma spaces_no_one (w : str) :
  forallb is_space w = true -> ~ In "1"%char w.
Proof.
  induction w as [| x w IH]; cbn; [tauto |].
  intros F. apply andb_prop in F. destruct F as [X F].
  intros [E | Hin]; [exact (@space_not_one x X E) | exact (IH F Hin)].
Qed.

(** A piece of the output that has no [1] and ends with a character that is
    not whitespace was copied from the input. *)
Lemma sub_letters_prefix (f : nat) :
  forall s q d t,
    sub_letters f s = q ++ d :: t ->
    is_space d = false -> ~ In "1"%char (q ++ [d]) ->
    exists t', s = q ++ d :: t'.
Proof.
  induction f as [| f IH]; intros s q d t E D N; cbn [sub_letters] in E.
  - eauto.
  - destruct (quantity_letter_at s) as [r |].
    + exfalso. cbn in E.
      destruct q as [| a [| b q]]; cbn in E.
      * injection E as <- _. discriminate D.
      * injection E as _ <- _. apply N. cbn. auto.
      * injection E as _ <- _. apply N. cbn. auto.
    + destruct s as [| c s'].
      * destruct q; discriminate E.
      * destruct q as [| a q]; cbn in E; injection E as -> E.
        -- exists s'. reflexivity.
        -- destruct (IH s' q d t E D) as (t' & ->).
           ++ intros Hin. apply N. right. exact Hin.
           ++ exists t'. reflexivity.
Qed.

Lemma sub_letters_transfer (f : nat) (c : ascii) (s r' : str) :
  quantity_letter_at (c :: sub_letters f s) = Some r' ->
  exists r, quantity_letter_at (c :: s) = Some r.
Proof.
  intros H. apply quantity_letter_shape in H.
  destruct H as (x1 & w1 & l & x3 & w3 & E & X1 & F1 & L & X3 & F3).
  injection E as <- E.
  assert (E' : sub_letters f s = (w1 ++ l :: x3 :: w3) ++ dollar :: r').
  { rewrite E, <- app_assoc. reflexivity. }
  apply sub_letters_prefix in E'.
  - destruct E' as (t' & ->). exists t'.
    apply quantity_letter_shape.
    exists c, w1, l, x3, w3. rewrite <- app_assoc. cbn. auto 10.
  - reflexivity.
  - rewrite <- !app_assoc. cbn. intros Hin.
    apply in_app_or in Hin. destruct Hin as [Hin | [E1 | [E1 | Hin]]].
    + exact (@spaces_no_one _ F1 Hin).
    + rewrite E1 in L. discriminate L.
    + rewrite E1 in X3. discriminate X3.
    + apply in_app_or in Hin. destruct Hin as [Hin | [Hin | []]].
      * exact (@spaces_no_one _ F3 Hin).
      * discriminate Hin.
Qed.

(** With enough fuel, no match is left in the output. *)
Lemma sub_letters_free (f : nat) :
  forall s, length s < f -> letter_free (sub_letters f s).
Proof.
  induction f as [| f IH]; intros s Hf; [lia |].
  intros pre t E. cbn [sub_letters] in E.
  destruct (quantity_letter_at s) as [r |] eqn:Q.
  - apply quantity_letter_shorter in Q.
    assert (Hr : length r < f) by lia.
    destruct pre as [| a [| b [| c [| d pre]]]]; cbn in E.
    + subst t. reflexivity.
    + injection E as _ <-. reflexivity.
    + injection E as _ _ <-. reflexivity.
    + injection E as _ _ _ <-. reflexivity.
    + injection E as _ _ _ _ E. exact (IH r Hr pre t E).
  - destruct s as [| c s'].
    + destruct pre; [| discriminate E]. cbn in E. subst t. reflexivity.
    + cbn [length] in Hf. destruct pre as [| a pre]; cbn in E.
      * subst t.
        destruct (quantity_letter_at (c :: sub_letters f s')) as [r' |] eqn:Q';
          [| reflexivity].
        apply sub_letters_transfer in Q'. destruct Q' as (r & Q').
        congruence.
      * injection E as _ E. apply (IH s') with (pre := pre); [lia | exact E].
Qed.

(** Without a match, nothing is substituted. *)
Lemma sub_letters_id (f : nat) :
  forall s, letter_free s -> sub_letters f s = s.
Proof.
  induction f as [| f IH]; intros s H; [reflexivity |].
  cbn [sub_letters]. rewrite (H [] s eq_refl).
  destruct s as [| c s']; [reflexivity |].
  f_equal. apply IH. intros pre t E. apply (H (c :: pre) t).
  rewrite E. reflexivity.
Qed.

(** The characters of the output. *)
Lemma sub_letters_chars (f : nat) :
  forall s x, In x (sub_letters f s) -> In x s \/ In x (lit " 1 $").
Proof.
  induction f as [| f IH]; intros s x H; cbn [sub_letters] in H; [auto |].
  destruct (quantity_letter_at s) as [r |] eqn:Q.
  - apply in_app_or in H. destruct H as [H | H]; [auto |].
    apply IH in H. destruct H as [H | H]; [| auto].
    left. apply quantity_letter_shape in Q.
    destruct Q as (x1 & w1 & l & x3 & w3 & -> & _).
    right. apply in_or_app. right. right. right. apply in_or_app.
    right. right. exact H.
  - destruct s as [| c s']; [destruct H |].
    destruct H as [<- | H]; [left; left; reflexivity |].
    apply IH in H. destruct H; [left; right |]; auto.
Qed.

Lemma sub_letters_dollar (f : nat) :
  forall s, length s < f -> has_char dollar s = true ->
            has_char dollar (sub_letters f s) = true.
Proof.
  induction f as [| f IH]; intros s Hf H; [lia |]. cbn [sub_letters].
  destruct (quantity_letter_at s) as [r |] eqn:Q.
  - rewrite has_char_app. reflexivity.
  - destruct s as [| c s']; [discriminate H |].
    unfold has_char in *. cbn [existsb] in *.
    destruct (Ascii.eqb dollar c); [reflexivity |]. cbn [orb] in *.
    apply IH; [cbn [length] in Hf; lia | exact H].
Qed.

End Substitution.

(** ** Splitting and joining *)

Section SplitJoin.

Variable sep : ascii.

Lemma split_nonempty (s : str) : split sep s <> [].
Proof.
  destruct s as [| c s]; cbn; [discriminate |].
  destruct (Ascii.eqb c sep); [discriminate |].
  destruct (split sep s); discriminate.
Qed.

Lemma join_cons (w : str) (ws : list str) :
  ws <> [] -> join sep (w :: ws) = w ++ sep :: join sep ws.
Proof. destruct ws; [congruence | reflexivity]. Qed.

Lemma join_split (s : str) : join sep (split sep s) = s.
Proof.
  induction s as [| c s IH]; [reflexivity |]. cbn [split].
  destruct (Ascii.eqb_spec c sep) as [-> | _].
  - rewrite join_cons by apply split_nonempty. rewrite IH. reflexivity.
  - pose proof (split_nonempty s) as N.
    destruct (split sep s) as [| w ws]; [congruence |].
    destruct ws as [| w' ws]; cbn in *; rewrite <- IH; reflexivity.
Qed.

Lemma split_parts (s : str) : Forall (fun w => ~ In sep w) (split sep s).
Proof.
  induction s as [| c s IH]; cbn [split].
  - constructor; [intros [] | constructor].
  - destruct (Ascii.eqb_spec c sep) as [-> | N].
    + constructor; [intros [] | exact IH].
    + destruct (split sep s) as [| w ws]; [repeat constructor; cbn; tauto |].
      inversion IH; subst. constructor; [| assumption].
      intros [E | Hin]; [congruence | contradiction].
Qed.

Lemma split_app_sep (w t : str) :
  ~ In sep w -> split sep (w ++ sep :: t) = w :: split sep t.
Proof.
  induction w as [| c w IH]; intros N; cbn [app split].
  - rewrite Ascii.eqb_refl. reflexivity.
  - destruct (Ascii.eqb_spec c sep) as [-> | _].
    + exfalso. apply N. left. reflexivity.
    + rewrite IH; [reflexivity |]. intros Hin. apply N. right. exact Hin.
Qed.

Lemma split_whole (w : str) : ~ In sep w -> split sep w = [w].
Proof.
  induction w as [| c w IH]; intros N; cbn [split]; [reflexivity |].
  destruct (Ascii.eqb_spec c sep) as [-> | _].
  - exfalso. apply N. left. reflexivity.
  - rewrite IH; [reflexivity |]. intros Hin. apply N. right. exact Hin.
Qed.

Lemma split_join (parts : list str) :
  parts <> [] -> Forall (fun w => ~ In sep w) parts ->
  split sep (join sep parts) = parts.
Proof.
  induction parts as [| w ws IH]; intros N F; [congruence |].
  inversion F; subst.
  destruct ws as [| w' ws].
  - cbn. apply split_whole. assumption.
  - rewrite join_cons by discriminate.
    rewrite split_app_sep by assumption.
    f_equal. apply IH; [discriminate | assumption].
Qed.

End SplitJoin.

(** ** The change of [O] into [0] *)

Section Zeroed.

Lemma zeroed_refl (s : str) : Forall2 zeroed s s.
Proof. induction s; constructor; [left; reflexivity | assumption]. Qed.

Lemma zeroed_replace (s : str) : Forall2 zeroed s (replace_char "O" "0" s).
Proof.
  induction s as [| c s IH]; cbn; constructor; [| exact IH].
  destruct (Ascii.eqb_spec c "O") as [-> | _]; [right | left]; auto.
Qed.

Lemma zeroed_space (a b : ascii) : zeroed a b -> is_space b = is_space a.
Proof. intros [-> | [-> ->]]; reflexivity. Qed.

Lemma zeroed_JlI (a b : ascii) : zeroed a b -> is_JlI b = is_JlI a.
Proof. intros [-> | [-> ->]]; reflexivity. Qed.

Lemma zeroed_eqb (x a b : ascii) :
  x <> "0"%char -> x <> "O"%char -> zeroed a b ->
  Ascii.eqb b x = Ascii.eqb a x.
Proof.
  intros N0 NO [-> | [-> ->]]; [reflexivity |].
  destruct (Ascii.eqb_spec "0" x), (Ascii.eqb_spec "O" x); congruence.
Qed.

Lemma zeroed_eq (x a b : ascii) :
  x <> "0"%char -> zeroed a b -> b = x -> a = x.
Proof. intros N0 [-> | [-> ->]] E; congruence. Qed.

Lemma zeroed_join (sep : ascii) (ps ps' : list str) :
  Forall2 (Forall2 zeroed) ps ps' ->
  Forall2 zeroed (join sep ps) (join sep ps').
Proof.
  induction 1 as [| w w' ws ws' Hw Hws IH]; [constructor |].
  destruct Hws as [| v v' vs vs' Hv Hvs]; [exact Hw |].
  rewrite !join_cons by discriminate.
  apply Forall2_app; [exact Hw |].
  constructor; [left; reflexivity | exact IH].
Qed.

Lemma zeroed_map_replace (ws : list str) :
  Forall2 (Forall2 zeroed) ws (map (replace_char "O" "0") ws).
Proof.
  induction ws; cbn; constructor; [apply zeroed_replace | assumption].
Qed.

Lemma fix_prices_zeroed (s : str) : Forall2 zeroed s (fix_prices s).
Proof.
  unfold fix_prices.
  destruct (1 <? length (split dollar s))%nat; [| apply zeroed_refl].
  destruct (split dollar s) as [| first prices] eqn:E; [apply zeroed_refl |].
  rewrite <- (join_split dollar s) at 1. rewrite E.
  apply zeroed_join. constructor; [apply zeroed_refl |].
  apply zeroed_map_replace.
Qed.

Lemma replace_twice (w : str) :
  replace_char "O" "0" (replace_char "O" "0" w) = replace_char "O" "0" w.
Proof.
  unfold replace_char. rewrite map_map. apply map_ext. intros c.
  destruct (Ascii.eqb_spec c "O") as [-> | N]; [reflexivity |].
  destruct (Ascii.eqb_spec c "O"); congruence.
Qed.

Lemma replace_keeps_dollar (w : str) :
  ~ In dollar w -> ~ In dollar (replace_char "O" "0" w).
Proof.
  intros N Hin. unfold replace_char in Hin. apply in_map_iff in Hin.
  destruct Hin as (c & E & Hc).
  destruct (Ascii.eqb_spec c "O"); [discriminate E | subst; auto].
Qed.

Lemma fix_prices_twice (s : str) : fix_prices (fix_prices s) = fix_prices s.
Proof.
  destruct (1 <? length (split dollar s))%nat eqn:L.
  2: { assert (H : fix_prices s = s)
         by (unfold fix_prices; rewrite L; reflexivity).
       rewrite H. exact H. }
  destruct (split dollar s) as [| first prices] eqn:E; [discriminate L |].
  assert (H : fix_prices s
              = join dollar (first :: map (replace_char "O" "0") prices))
    by (unfold fix_prices; rewrite E, L; reflexivity).
  rewrite H.
  pose proof (split_parts dollar s) as P. rewrite E in P.
  inversion P as [| ? ? P1 P2]; subst.
  assert (S : split dollar (join dollar (first :: map (replace_char "O" "0") prices))
              = first :: map (replace_char "O" "0") prices).
  { apply split_join; [discriminate |].
    constructor; [assumption |].
    apply Forall_forall. intros w Hw. apply in_map_iff in Hw.
    destruct Hw as (v & <- & Hv). apply replace_keeps_dollar.
    rewrite Forall_forall in P2. auto. }
  unfold fix_prices. rewrite S. cbn [length] in *.
  rewrite length_map, L, map_map.
  do 2 f_equal. apply map_ext. apply replace_twice.
Qed.

Lemma zeroed_lstrip (s s' : str) :
  Forall2 zeroed s s' -> Forall2 zeroed (lstrip s) (lstrip s').
Proof.
  induction 1 as [| a b s s' Hab Hs IH]; [constructor |]. cbn.
  rewrite (zeroed_space Hab). destruct (is_space a); [exact IH |].
  constructor; assumption.
Qed.

Lemma zeroed_after_spaces (s s' : str) :
  Forall2 zeroed s s' ->
  match after_spaces s, after_spaces s' with
  | Some t, Some t' => Forall2 zeroed t t'
  | None, None => True
  | _, _ => False
  end.
Proof.
  intros H. destruct H as [| a b s s' Hab Hs]; cbn; [exact I |].
  rewrite (zeroed_space Hab). destruct (is_space a); [| exact I].
  apply zeroed_lstrip. exact Hs.
Qed.

Lemma zeroed_no_match (s s' : str) :
  Forall2 zeroed s s' ->
  quantity_letter_at s = None -> quantity_letter_at s' = None.
Proof.
  intros H. unfold quantity_letter_at.
  pose proof (zeroed_after_spaces H) as A.
  destruct (after_spaces s) as [t |], (after_spaces s') as [t' |];
    try contradiction; [| reflexivity].
  destruct A as [| l l' t t' Hl Ht]; [reflexivity |].
  rewrite (zeroed_JlI Hl). destruct (is_JlI l); [| reflexivity].
  pose proof (zeroed_after_spaces Ht) as B.
  destruct (after_spaces t) as [u |], (after_spaces t') as [u' |];
    try contradiction; [| reflexivity].
  destruct B as [| d d' u u' Hd Hu]; [reflexivity |].
  rewrite (@zeroed_eqb dollar d d' ltac:(discriminate) ltac:(discriminate) Hd).
  destruct (Ascii.eqb d dollar); [discriminate | reflexivity].
Qed.

Lemma zeroed_letter_free (s s' : str) :
  Forall2 zeroed s s' -> letter_free s -> letter_free s'.
Proof.
  intros H F pre' t' E. subst s'.
  apply Forall2_app_inv_r in H.
  destruct H as (pre & t & _ & Ht & ->).
  exact (zeroed_no_match Ht (F pre t eq_refl)).
Qed.

Lemma zeroed_has_dollar (s s' : str) :
  Forall2 zeroed s s' -> has_char dollar s' = has_char dollar s.
Proof.
  induction 1 as [| a b s s' Hab Hs IH]; [reflexivity |].
  unfold has_char in *. cbn [existsb]. rewrite IH. f_equal.
  rewrite !(Ascii.eqb_sym dollar).
  exact (@zeroed_eqb dollar a b ltac:(discriminate) ltac:(discriminate) Hab).
Qed.

Lemma zeroed_in (x : ascii) (s s' : str) :
  x <> "0"%char -> Forall2 zeroed s s' -> In x s' -> In x s.
Proof.
  intros N. induction 1 as [| a b s s' Hab Hs IH]; [auto |].
  intros [E | Hin]; [left; exact (@zeroed_eq x a b N Hab E) | right; auto].
Qed.

End Zeroed.

(** ** Normalising twice *)

Section Idempotence.

Local Open Scope nat_scope.

Lemma fix_line_unfold (line : str) :
  fix_line line
  = if is_candidate line
    then fix_prices (re_sub false quantity_letter_pattern (lit " 1 $") line)
    else line.
Proof. reflexivity. Qed.

Lemma startswith_app (p s : str) :
  startswith p s = true <-> exists t, s = p ++ t.
Proof.
  revert s. induction p as [| a p IH]; intros s; cbn.
  - split; [eauto | reflexivity].
  - destruct s as [| b s]; [split; [discriminate | intros (t & E); discriminate E] |].
    rewrite andb_true_iff, IH. split.
    + intros (E & t & ->). apply Ascii.eqb_eq in E. subst. eauto.
    + intros (t & E). injection E as -> ->.
      split; [apply Ascii.eqb_refl | eauto].
Qed.

Lemma zeroed_total (t' s : str) :
  Forall2 zeroed s (lit "Total" ++ t') -> exists t, s = lit "Total" ++ t.
Proof.
  intros H. apply Forall2_app_inv_r in H.
  destruct H as (q & t & Hq & _ & ->). exists t. f_equal.
  cbn in Hq.
  repeat match goal with
         | K : Forall2 zeroed _ (_ :: _) |- _ => inversion K; subst; clear K
         | K : Forall2 zeroed _ [] |- _ => inversion K; subst; clear K
         end.
  repeat match goal with
         | K : zeroed _ _ |- _ =>
             destruct K as [K | [_ K]]; [| discriminate K]
         end.
  subst. reflexivity.
Qed.

(** The fix of a candidate line is again a candidate line. *)
Lemma fix_keeps_candidate (line : str) :
  is_candidate line = true ->
  is_candidate
    (fix_prices (sub_letters (S (length line)) line)) = true.
Proof.
  unfold is_candidate. intros H. apply andb_prop in H. destruct H as [D T].
  pose proof (fix_prices_zeroed (sub_letters (S (length line)) line)) as Z.
  apply andb_true_intro. split.
  - rewrite (zeroed_has_dollar Z). apply sub_letters_dollar; [lia | exact D].
  - apply negb_true_iff. apply negb_true_iff in T.
    destruct (startswith (lit "Total") (fix_prices _)) eqn:S; [| reflexivity].
    exfalso. apply startswith_app in S. destruct S as (t' & S).
    rewrite S in Z. apply zeroed_total in Z. destruct Z as (t & Z).
    change (lit "Total" ++ t) with (lit "Tota" ++ "l"%char :: t) in Z.
    apply sub_letters_prefix in Z.
    + destruct Z as (t0 & Z).
      assert (S' : startswith (lit "Total") line = true)
        by (apply startswith_app; exists t0; exact Z).
      congruence.
    + reflexivity.
    + cbn. intros Hin.
      repeat destruct Hin as [Hin | Hin]; try discriminate Hin; exact Hin.
Qed.

Lemma fix_line_twice (line : str) : fix_line (fix_line line) = fix_line line.
Proof.
  rewrite (fix_line_unfold line).
  destruct (is_candidate line) eqn:C.
  - rewrite re_sub_letters.
    set (x := sub_letters (S (length line)) line).
    rewrite fix_line_unfold. unfold x at 1.
    rewrite (@fix_keeps_candidate line C). fold x.
    rewrite re_sub_letters.
    rewrite sub_letters_id.
    + apply fix_prices_twice.
    + apply (@zeroed_letter_free x (fix_prices x) (fix_prices_zeroed x)).
      apply sub_letters_free. lia.
  - rewrite fix_line_unfold, C. reflexivity.
Qed.

Lemma fix_line_no_newline (line : str) :
  ~ In newline line -> ~ In newline (fix_line line).
Proof.
  intros N. rewrite fix_line_unfold.
  destruct (is_candidate line); [| exact N].
  rewrite re_sub_letters. intros Hin.
  apply (@zeroed_in newline (sub_letters (S (length line)) line) _
           ltac:(discriminate) (fix_prices_zeroed _)) in Hin.
  apply sub_letters_chars in Hin. destruct Hin as [Hin | Hin]; [auto |].
  cbn in Hin. repeat destruct Hin as [Hin | Hin]; try discriminate Hin; exact Hin.
Qed.

Lemma normalize_lines (text : str) :
  split newline (normalize_ocr_errors text)
  = map fix_line (split newline text).
Proof.
  unfold normalize_ocr_errors. apply split_join.
  - pose proof (split_nonempty newline text) as N.
    destruct (split newline text); [congruence | discriminate].
  - apply Forall_forall. intros w Hw. apply in_map_iff in Hw.
    destruct Hw as (line & <- & Hline). apply fix_line_no_newline.
    pose proof (split_parts newline text) as P.
    rewrite Forall_forall in P. auto.
Qed.

Lemma normalize_twice (text : str) :
  normalize_ocr_errors (normalize_ocr_errors text)
  = normalize_ocr_errors text
  /\ Forall (fun line => fix_line line = line)
            (split newline (normalize_ocr_errors text)).
Proof.
  split.
  - unfold normalize_ocr_errors at 1. rewrite normalize_lines, map_map.
    unfold normalize_ocr_errors. f_equal. apply map_ext. apply fix_line_twice.
  - rewrite normalize_lines. apply Forall_forall. intros w Hw.
    apply in_map_iff in Hw. destruct Hw as (line & <- & _).
    apply fix_line_twice.
Qed.

End Idempotence.

(** C7: [normalize_ocr_errors] is idempotent, and on its output no line is
    changed again: neither the letter-to-1 substitution nor the O-to-0
    replacement finds anything left to do. *)
Theorem normalize_ocr_errors_idempotent (text : str) :
  normalize_ocr_errors (normalize_ocr_errors text)
  = normalize_ocr_errors text
  /\ Forall (fun line => fix_line line = line)
            (split newline (normalize_ocr_errors text)).
Proof. exact (normalize_twice text). Qed.

(** ** The scenarios of the specification *)

Example scenario_fix_line :
  fix_line (lit "Premium Software Subscription J $15O.00 $150.00")
  = lit "Premium Software Subscription 1 $150.00 $150.00".
Proof. vm_compute. reflexivity. Qed.

Example scenario_record :
  extract_receipt_fields_v3 scenario_text
  = Ok (mkReceipt (Some (lit "4521")) (Some (lit "March 15, 2050"))
                  (mkBillTo None None)
                  [mkItem (lit "Premium Software Subscription") 1
                          (float_of_Z 150) (float_of_Z 150)]
                  (Some (float_of_Z 150)) (Some (lit "Credit Card")) true).
Proof. vm_compute. reflexivity. Qed.

Example scenario_no_warning :
  (do data <- extract_receipt_fields_v3 scenario_text;
   validate_extraction data)
  = Ok [].
Proof. vm_compute. reflexivity. Qed.

Example scenario_mismatch_dropped :
  extract_line_items
    (lit "Item Description Quantity" ++ newline
     :: lit "Widget 3 $10.00 $35.00")
  = Ok [].
Proof. vm_compute. reflexivity. Qed.

Example scenario_no_label :
  extract_receipt_fields_v3 (lit "nothing to see")
  = Ok (mkReceipt None None (mkBillTo None None) [] None None true)
  /\ detect_invoice_format (lit "nothing to see") = unknown.
Proof. split; vm_compute; reflexivity. Qed.

Example scenario_template_b :
  let f := detect_invoice_format
             (lit "BILL TO  QTY DESCRIPTION  UNIT PRICE  East Repair") in
  fm_name f = lit "Professional Invoice (Template B)"
  /\ supported f = false /\ length (indicators f) = 4%nat.
Proof.
  cbv zeta. split; [vm_compute; reflexivity |].
  split; vm_compute; reflexivity.
Qed.

(* ================================================================= *)
(** * Further properties *)

(** ** More on the confidence score *)

Lemma units_le (j k : Z) :
  inject_Z j * (5 # 2) <= inject_Z k * (5 # 2) <-> (j <= k)%Z.
Proof. split; intros H; revert H; q_arith. Qed.

Lemma units_eq (j k : Z) :
  inject_Z j * (5 # 2) == inject_Z k * (5 # 2) <-> j = k.
Proof. split; intros H; revert H; q_arith. Qed.

Lemma weight_units_mono (d d' : Receipt) :
  finds_no_less d d' -> (weight_units d <= weight_units d')%Z.
Proof.
  intros (H1 & H2 & H3 & H4 & H5 & H6 & _). unfold weight_units.
  destruct (str_truthy (receipt_number d)), (str_truthy (receipt_number d')),
    (str_truthy (date d)), (str_truthy (date d')),
    (str_truthy (name (bill_to d))), (str_truthy (name (bill_to d'))),
    (str_truthy (email (bill_to d))), (str_truthy (email (bill_to d'))),
    (num_truthy (total_amount d)), (num_truthy (total_amount d')),
    (str_truthy (payment_method d)), (str_truthy (payment_method d'));
    try lia;
    (specialize (H1 eq_refl) || specialize (H2 eq_refl)
     || specialize (H3 eq_refl) || specialize (H4 eq_refl)
     || specialize (H5 eq_refl) || specialize (H6 eq_refl)); discriminate.
Qed.

(** X1: finding more never lowers the score: a record in which every field
    of another is present, with at least as many line items, scores at least
    as much. *)
Theorem score_monotone (d d' : Receipt) :
  finds_no_less d d' ->
  calculate_confidence_score d <= calculate_confidence_score d'.
Proof.
  intros H. pose proof (weight_units_mono H) as W.
  destruct H as (_ & _ & _ & _ & _ & _ & L).
  rewrite (score_units d), (score_units d'). apply units_le. lia.
Qed.

Lemma score_monotone_witness :
  calculate_confidence_score one_item_receipt
  <= calculate_confidence_score two_item_receipt.
Proof.
  apply score_monotone. unfold finds_no_less. cbn.
  repeat split; try (intros H; exact H); lia.
Defined.

(** X2: from four line items on, the number of items no longer matters: two
    records with the same fields present and at least four items each have
    the same score. *)
Theorem score_items_saturate (d d' : Receipt) :
  same_fields_present d d' ->
  (4 <= length (items d))%nat -> (4 <= length (items d'))%nat ->
  calculate_confidence_score d == calculate_confidence_score d'.
Proof.
  intros (H1 & H2 & H3 & H4 & H5 & H6) L L'.
  rewrite (score_units d), (score_units d'). apply units_eq.
  unfold weight_units. rewrite H1, H2, H3, H4, H5, H6. lia.
Qed.

Lemma score_items_saturate_witness :
  calculate_confidence_score four_item_receipt
  == calculate_confidence_score five_item_receipt.
Proof.
  apply score_items_saturate.
  - repeat split.
  - cbn. lia.
  - cbn. lia.
Defined.

(** X3: the score is 100 exactly when the receipt number, the date, the
    name, the e-mail address and the total amount are all present, and
    either the payment method is present or there are at least four line
    items. *)
Theorem score_is_100_iff (data : Receipt) :
  calculate_confidence_score data == 100 <->
  str_truthy (receipt_number data) = true
  /\ str_truthy (date data) = true
  /\ str_truthy (name (bill_to data)) = true
  /\ str_truthy (email (bill_to data)) = true
  /\ num_truthy (total_amount data) = true
  /\ (str_truthy (payment_method data) = true
      \/ (4 <= length (items data))%nat).
Proof.
  rewrite (score_units data).
  assert (E : 100 == inject_Z 40 * (5 # 2)) by (unfold Qeq; reflexivity).
  rewrite E, units_eq.
  unfold weight_units.
  destruct (str_truthy (receipt_number data)), (str_truthy (date data)),
    (str_truthy (name (bill_to data))), (str_truthy (email (bill_to data))),
    (num_truthy (total_amount data)), (str_truthy (payment_method data));
    (split;
     [ intros H; repeat split; try reflexivity; try lia;
       try (left; reflexivity); try (right; lia)
     | intros (H1 & H2 & H3 & H4 & H5 & [H6 | H6]);
       try discriminate; lia ]).
Qed.

(** X4: the score is 0 exactly when none of the six fields is present and
    there is no line item. *)
Theorem score_is_0_iff (data : Receipt) :
  calculate_confidence_score data == 0 <->
  str_truthy (receipt_number data) = false
  /\ str_truthy (date data) = false
  /\ str_truthy (name (bill_to data)) = false
  /\ str_truthy (email (bill_to data)) = false
  /\ num_truthy (total_amount data) = false
  /\ str_truthy (payment_method data) = false
  /\ items data = [].
Proof.
  rewrite (score_units data).
  assert (E : 0 == inject_Z 0 * (5 # 2)) by (unfold Qeq; reflexivity).
  rewrite E, units_eq.
  unfold weight_units.
  assert (L : (Z.of_nat (length (items data)) = 0)%Z <-> items data = []).
  { destruct (items data); cbn [length]; split; intros H;
      try reflexivity; try discriminate H; lia. }
  destruct (str_truthy (receipt_number data)), (str_truthy (date data)),
    (str_truthy (name (bill_to data))), (str_truthy (email (bill_to data))),
    (num_truthy (total_amount data)), (str_truthy (payment_method data));
    (split;
     [ intros H; repeat split; try reflexivity; try lia; apply L; lia
     | intros (H1 & H2 & H3 & H4 & H5 & H6 & H7);
       try discriminate; apply L in H7; lia ]).
Qed.

(** ** More on the validator *)

Lemma check_sum_shape (data : Receipt) :
  check_sum data = []
  \/ exists s t, check_sum data = [SumMismatch s t].
Proof.
  unfold check_sum. destruct (total_amount data); [| auto].
  destruct (list_truthy (items data) && float_truthy f); [| auto].
  destruct (flt cent _); eauto.
Qed.

Lemma check_email_shape (data : Receipt) :
  check_email data = []
  \/ exists e, check_email data = [InvalidEmail e].
Proof.
  unfold check_email. destruct (email (bill_to data)); [| auto].
  destruct (str_truthy (Some s)); [| auto].
  destruct (has_char "@" s && has_char "." s); eauto.
Qed.

Lemma check_date_shape (data : Receipt) :
  check_date data = Ok []
  \/ exists y, check_date data = Ok [UnusualYear y].
Proof.
  unfold check_date. destruct (date data) as [d |]; [| auto].
  destruct (str_truthy (Some d)); [| auto].
  destruct (re_search false year_pattern d) as [m |] eqn:E; [| auto].
  destruct (year_group_digits _ E) as (year & ->). cbn [bind].
  destruct ((2020 <=? year)%Z && (year <=? 2100)%Z); eauto.
Qed.

Lemma validate_parts (data : Receipt) :
  exists dw, check_date data = Ok dw
             /\ validate_extraction data
                = Ok (check_sum data ++ check_email data ++ dw).
Proof.
  unfold validate_extraction.
  destruct (check_date_shape data) as [E | (y & E)]; rewrite E; cbn [bind app];
    eexists; (split; [reflexivity |]); rewrite <- app_assoc; reflexivity.
Qed.

(** X5: the validator never raises, whatever the record: it returns at most
    three warnings, at most one on the sum of the items, then at most one on
    the e-mail address, then at most one on the year. *)
Theorem validate_returns_warnings (data : Receipt) :
  exists sw ew yw,
    validate_extraction data = Ok (sw ++ ew ++ yw)
    /\ (sw = [] \/ exists s t, sw = [SumMismatch s t])
    /\ (ew = [] \/ exists e, ew = [InvalidEmail e])
    /\ (yw = [] \/ exists y, yw = [UnusualYear y])
    /\ (length (sw ++ ew ++ yw) <= 3)%nat.
Proof.
  destruct (validate_parts data) as (dw & D & V).
  exists (check_sum data), (check_email data), dw.
  split; [exact V |].
  pose proof (check_sum_shape data) as S.
  pose proof (check_email_shape data) as E.
  assert (Y : dw = [] \/ exists y, dw = [UnusualYear y]).
  { destruct (check_date_shape data) as [K | (y & K)]; rewrite K in D;
      injection D as <-; eauto. }
  split; [exact S |]. split; [exact E |]. split; [exact Y |].
  destruct S as [-> | (s & t & ->)], E as [-> | (e & ->)],
    Y as [-> | (y & ->)]; cbn; lia.
Qed.



(** ** More on the format classifier *)

Lemma count_succ (n : nat) :
  inject_Z (Z.of_nat (S n)) == 1 + inject_Z (Z.of_nat n).
Proof. q_arith. Qed.

Lemma score_template_fields (w : Q) (ps : list (regex * str)) (text : str) :
  forall f,
    fm_name (score_template w ps text f) = fm_name f
    /\ supported (score_template w ps text f) = supported f
    /\ indicators (score_template w ps text f)
       = indicators f ++ found_labels ps text
    /\ confidence (score_template w ps text f)
       == confidence f
          + w * inject_Z (Z.of_nat (length (found_labels ps text))).
Proof.
  unfold score_template, found_labels.
  induction ps as [| pi ps IH]; intros f; cbn [fold_left filter map length].
  - rewrite app_nil_r. repeat split. cbn. ring.
  - destruct (re_search true (fst pi) text) as [m |].
    + destruct (IH (mkFormat (fm_name f) (confidence f + w)
                             (indicators f ++ [snd pi]) (supported f)))
        as (N & S & I & C).
      cbn [fm_name supported indicators confidence] in *.
      split; [exact N |]. split; [exact S |]. split.
      * rewrite I, <- app_assoc. reflexivity.
      * rewrite C. cbn [map length]. rewrite count_succ. ring.
    + apply IH.
Qed.

Lemma found_labels_length (ps : list (regex * str)) (text : str) :
  (length (found_labels ps text) <= length ps)%nat.
Proof.
  unfold found_labels. rewrite length_map. apply filter_length_le.
Qed.

Lemma scored_a_fields (text : str) :
  fm_name (scored_a text) = lit "Retail Receipt (Template A)"
  /\ supported (scored_a text) = true
  /\ indicators (scored_a text) = found_labels template_a_patterns text
  /\ confidence (scored_a text)
     == 20 * inject_Z (Z.of_nat (length (indicators (scored_a text))))
  /\ (length (indicators (scored_a text)) <= 5)%nat.
Proof.
  unfold scored_a.
  destruct (score_template_fields 20 template_a_patterns text template_a0)
    as (N & S & I & C).
  cbn [template_a0 fm_name supported indicators confidence app] in *.
  rewrite N, S, I. repeat split.
  - rewrite C. ring.
  - apply (found_labels_length template_a_patterns).
Qed.

Lemma scored_b_fields (text : str) :
  fm_name (scored_b text) = lit "Professional Invoice (Template B)"
  /\ supported (scored_b text) = false
  /\ indicators (scored_b text) = found_labels template_b_patterns text
  /\ confidence (scored_b text)
     == (25 # 2) * inject_Z (Z.of_nat (length (indicators (scored_b text))))
  /\ (length (indicators (scored_b text)) <= 8)%nat.
Proof.
  unfold scored_b.
  destruct (score_template_fields (25 # 2) template_b_patterns text template_b0)
    as (N & S & I & C).
  cbn [template_b0 fm_name supported indicators confidence app] in *.
  rewrite N, S, I. repeat split.
  - rewrite C. ring.
  - apply (found_labels_length template_b_patterns).
Qed.

Lemma scored_nonneg (text : str) :
  0 <= confidence (scored_a text) /\ 0 <= confidence (scored_b text).
Proof.
  destruct (scored_a_fields text) as (_ & _ & _ & Ca & _).
  destruct (scored_b_fields text) as (_ & _ & _ & Cb & _).
  rewrite Ca, Cb. split; q_arith.
Qed.

(** How [max] and the threshold decide, given that no confidence is
    negative. *)
Lemma detect_table (a b : FormatMatch) :
  0 <= confidence a -> 0 <= confidence b ->
  let best := max_by_confidence a [b; unknown] in
  let result := match confidence best ?= 30 with
                | Lt => unknown
                | _ => best
                end in
  (30 <= confidence a -> confidence b <= confidence a -> result = a)
  /\ (30 <= confidence b -> confidence a < confidence b -> result = b)
  /\ (confidence a < 30 -> confidence b < 30 -> result = unknown).
Proof.
  intros Ha Hb. cbv zeta. unfold max_by_confidence. cbn [fold_left].
  destruct (confidence b ?= confidence a) eqn:E.
  - apply Qeq_alt in E.
    assert (U : (confidence unknown ?= confidence a) <> Gt).
    { intros K. apply Qgt_alt in K. cbn [unknown confidence] in K.
      exact (Qlt_not_le _ _ K Ha). }
    destruct (confidence unknown ?= confidence a) eqn:E'; try congruence;
      (repeat split; intros H1 H2).
    all: try (destruct (confidence a ?= 30) eqn:E3; try reflexivity;
              apply Qlt_alt in E3; exfalso;
              exact (Qlt_not_le _ _ E3 H1)).
    all: try (rewrite E in H2; exfalso; exact (Qlt_irrefl _ H2)).
    all: try (destruct (confidence a ?= 30) eqn:E3; try reflexivity;
              [apply Qeq_alt in E3; rewrite E3 in H1;
               exfalso; exact (Qlt_irrefl _ H1)
              | apply Qgt_alt in E3; exfalso;
                exact (Qlt_irrefl _ (Qlt_trans _ _ _ E3 H1))]).
  - apply Qlt_alt in E.
    assert (U : (confidence unknown ?= confidence a) <> Gt).
    { intros K. apply Qgt_alt in K. cbn [unknown confidence] in K.
      exact (Qlt_not_le _ _ K Ha). }
    destruct (confidence unknown ?= confidence a) eqn:E'; try congruence;
      (repeat split; intros H1 H2).
    all: try (destruct (confidence a ?= 30) eqn:E3; try reflexivity;
              apply Qlt_alt in E3; exfalso;
              exact (Qlt_not_le _ _ E3 H1)).
    all: try (exfalso; exact (Qlt_irrefl _ (Qlt_trans _ _ _ E H2))).
    all: try (destruct (confidence a ?= 30) eqn:E3; try reflexivity;
              [apply Qeq_alt in E3; rewrite E3 in H1;
               exfalso; exact (Qlt_irrefl _ H1)
              | apply Qgt_alt in E3; exfalso;
                exact (Qlt_irrefl _ (Qlt_trans _ _ _ E3 H1))]).
  - apply Qgt_alt in E.
    assert (U : (confidence unknown ?= confidence b) <> Gt).
    { intros K. apply Qgt_alt in K. cbn [unknown confidence] in K.
      exact (Qlt_not_le _ _ K Hb). }
    destruct (confidence unknown ?= confidence b) eqn:E'; try congruence;
      (repeat split; intros H1 H2).
    all: try (exfalso; exact (Qlt_not_le _ _ E H2)).
    all: try (destruct (confidence b ?= 30) eqn:E3; try reflexivity;
              apply Qlt_alt in E3; exfalso;
              exact (Qlt_not_le _ _ E3 H1)).
    all: try (destruct (confidence b ?= 30) eqn:E3; try reflexivity;
              [apply Qeq_alt in E3; rewrite E3 in H2;
               exfalso; exact (Qlt_irrefl _ H2)
              | apply Qgt_alt in E3; exfalso;
                exact (Qlt_irrefl _ (Qlt_trans _ _ _ E3 H2))]).
Qed.

Lemma detect_unfold (text : str) :
  detect_invoice_format text
  = match confidence (max_by_confidence (scored_a text)
                                        [scored_b text; unknown]) ?= 30 with
    | Lt => unknown
    | _ => max_by_confidence (scored_a text) [scored_b text; unknown]
    end.
Proof. reflexivity. Qed.

(** X7: the decision of the classifier. Template A is returned when its
    confidence is at least 30 and not below that of Template B, so a tie
    goes to Template A; Template B is returned when its confidence is at
    least 30 and strictly above that of Template A; the unknown format is
    returned when both are below 30. *)
Theorem detect_decision_table (ocr_text : str) :
  (30 <= confidence (scored_a ocr_text) ->
   confidence (scored_b ocr_text) <= confidence (scored_a ocr_text) ->
   detect_invoice_format ocr_text = scored_a ocr_text)
  /\ (30 <= confidence (scored_b ocr_text) ->
      confidence (scored_a ocr_text) < confidence (scored_b ocr_text) ->
      detect_invoice_format ocr_text = scored_b ocr_text)
  /\ (confidence (scored_a ocr_text) < 30 ->
      confidence (scored_b ocr_text) < 30 ->
      detect_invoice_format ocr_text = unknown).
Proof.
  rewrite detect_unfold.
  destruct (scored_nonneg ocr_text) as [Ha Hb].
  exact (@detect_table _ _ Ha Hb).
Qed.

Lemma detect_decision_table_witness :
  detect_invoice_format both_templates_text = scored_a both_templates_text
  /\ detect_invoice_format scenario_text = scored_a scenario_text.
Proof.
  split.
  - apply (detect_decision_table both_templates_text);
      vm_compute; discriminate.
  - apply (detect_decision_table scenario_text); vm_compute; discriminate.
Defined.

(** The fields of what the classifier returns. *)
Lemma detect_fields (ocr_text : str) :
  let f := detect_invoice_format ocr_text in
  (f = unknown
   \/ (fm_name f = lit "Retail Receipt (Template A)"
       /\ supported f = true
       /\ indicators f = found_labels template_a_patterns ocr_text
       /\ confidence f == 20 * inject_Z (Z.of_nat (length (indicators f))))
   \/ (fm_name f = lit "Professional Invoice (Template B)"
       /\ supported f = false
       /\ indicators f = found_labels template_b_patterns ocr_text
       /\ confidence f
          == (25 # 2) * inject_Z (Z.of_nat (length (indicators f)))))
  /\ 0 <= confidence f <= 100.
Proof.
  cbv zeta. rewrite detect_unfold.
  destruct (scored_a_fields ocr_text) as (Na & Sa & Ia & Ca & La).
  destruct (scored_b_fields ocr_text) as (Nb & Sb & Ib & Cb & Lb).
  set (a := scored_a ocr_text) in *. set (b := scored_b ocr_text) in *.
  assert (Ba : 0 <= confidence a <= 100) by (rewrite Ca; split; q_arith).
  assert (Bb : 0 <= confidence b <= 100) by (rewrite Cb; split; q_arith).
  assert (Bu : 0 <= confidence unknown <= 100) by (split; discriminate).
  destruct (max_by_confidence_cases a b) as [E | [E | E]]; rewrite E;
    destruct (confidence _ ?= 30); auto 10.
Qed.

(** X8: what the classifier returns: the unknown format, or one of the two
    templates with its own name and support flag, the labels of its patterns
    that occur in the text as indicators, in the order of the patterns, and
    as confidence 20 (Template A) or 12.5 (Template B) times their number.
    The confidence lies between 0 and 100. *)
Theorem detect_result_shape (ocr_text : str) :
  let f := detect_invoice_format ocr_text in
  (f = unknown
   \/ (fm_name f = lit "Retail Receipt (Template A)"
       /\ supported f = true
       /\ indicators f = found_labels template_a_patterns ocr_text
       /\ confidence f == 20 * inject_Z (Z.of_nat (length (indicators f))))
   \/ (fm_name f = lit "Professional Invoice (Template B)"
       /\ supported f = false
       /\ indicators f = found_labels template_b_patterns ocr_text
       /\ confidence f
          == (25 # 2) * inject_Z (Z.of_nat (length (indicators f)))))
  /\ 0 <= confidence f <= 100.
Proof. exact (detect_fields ocr_text). Qed.

(** *** The case of the letters of the text *)

Section CaseChange.

Local Open Scope nat_scope.

(** A change of the characters that no pattern can tell under
    [re.IGNORECASE]. *)
Variable g : ascii -> ascii.

Hypothesis lit_ok_g : forall a x, lit_ok true a (g x) = lit_ok true a x.
Hypothesis cls_ok_g : forall f x, cls_ok true f (g x) = cls_ok true f x.
Hypothesis newline_g : forall x, Ascii.eqb (g x) newline = Ascii.eqb x newline.

Lemma flat_map_map {A B C : Type} (f : A -> B) (k : B -> list C) (l : list A) :
  flat_map k (map f l) = flat_map (fun a => k (f a)) l.
Proof.
  induction l as [| a l IH]; cbn; [reflexivity |]. rewrite IH. reflexivity.
Qed.

Lemma map_flat_map {A B C : Type} (k : A -> list B) (f : B -> C) (l : list A) :
  map f (flat_map k l) = flat_map (fun a => map f (k a)) l.
Proof.
  induction l as [| a l IH]; cbn; [reflexivity |].
  rewrite map_app, IH. reflexivity.
Qed.

Lemma shorter_recase (c' c : cfg) :
  shorter (recase g c') (recase g c) = shorter c' c.
Proof. unfold shorter, recase. cbn [rest]. rewrite !length_map. reflexivity. Qed.

Lemma one_recase (ok : ascii -> bool) (c : cfg) :
  (forall x, ok (g x) = ok x) ->
  one ok (recase g c) = map (recase g) (one ok c).
Proof.
  intros H. unfold one, recase. cbn [rest caps pos].
  destruct (rest c) as [| x s]; [reflexivity |]. cbn [map].
  rewrite H. destruct (ok x); reflexivity.
Qed.

Lemma greedy_recase (step : cfg -> list cfg) :
  (forall c, step (recase g c) = map (recase g) (step c)) ->
  forall f c, greedy step f (recase g c) = map (recase g) (greedy step f c).
Proof.
  intros H f. induction f as [| f IH]; intros c; cbn [greedy]; [reflexivity |].
  rewrite H, flat_map_map, map_app, map_flat_map. cbn [map]. f_equal.
  apply flat_map_ext. intros c'. rewrite shorter_recase.
  destruct (shorter c' c); [apply IH | reflexivity].
Qed.

Lemma lazy_recase (step : cfg -> list cfg) :
  (forall c, step (recase g c) = map (recase g) (step c)) ->
  forall f c, lazy step f (recase g c) = map (recase g) (lazy step f c).
Proof.
  intros H f. induction f as [| f IH]; intros c; cbn [lazy]; [reflexivity |].
  rewrite H, flat_map_map. cbn [map]. rewrite map_flat_map. f_equal.
  apply flat_map_ext. intros c'. rewrite shorter_recase.
  destruct (shorter c' c); [apply IH | reflexivity].
Qed.

(** The matcher reads the changed text as it reads the text. *)
Lemma run_recase (r : regex) :
  forall c, run true r (recase g c) = map (recase g) (run true r c).
Proof.
  induction r as [| a | f | r1 IH1 r2 IH2 | r1 IH1 r2 IH2 | r IH | r IH
                  | i r IH | |]; intros c; cbn [run].
  - reflexivity.
  - apply one_recase. apply lit_ok_g.
  - apply one_recase. apply cls_ok_g.
  - rewrite IH1, flat_map_map, map_flat_map.
    apply flat_map_ext. exact IH2.
  - rewrite IH1, IH2, map_app. reflexivity.
  - replace (length (rest (recase g c))) with (length (rest c))
      by (unfold recase; cbn [rest]; rewrite length_map; reflexivity).
    apply greedy_recase. exact IH.
  - replace (length (rest (recase g c))) with (length (rest c))
      by (unfold recase; cbn [rest]; rewrite length_map; reflexivity).
    apply lazy_recase. exact IH.
  - rewrite IH, !map_map. apply map_ext. intros c'.
    unfold recase. cbn [caps pos rest recase_env map fst snd].
    rewrite firstn_map. reflexivity.
  - destruct c as [e p s]. unfold recase. cbn [pos caps rest].
    destruct (p =? 0); reflexivity.
  - destruct c as [e p s]. unfold recase. cbn [pos caps rest].
    destruct s as [| x [| y s]]; cbn [map]; [reflexivity | | reflexivity].
    rewrite newline_g. destruct (Ascii.eqb x newline); reflexivity.
Qed.

Lemma first_at_recase (r : regex) (p : nat) (s : str) :
  found (first_at true r p (map g s)) = found (first_at true r p s).
Proof.
  unfold first_at.
  change (Cfg [] p (map g s)) with (recase g (Cfg [] p s)).
  rewrite run_recase. destruct (run true r (Cfg [] p s)); reflexivity.
Qed.

Lemma search_recase (r : regex) (s : str) :
  forall p, found (search_from true r p (map g s))
            = found (search_from true r p s).
Proof.
  induction s as [| x s IH]; intros p; cbn [map search_from].
  - pose proof (first_at_recase r p []) as F. cbn [map] in F.
    destruct (first_at true r p []), (first_at true r p []);
      cbn in *; congruence.
  - pose proof (first_at_recase r p (x :: s)) as F. cbn [map] in F.
    destruct (first_at true r p (g x :: map g s)),
      (first_at true r p (x :: s)); cbn in F; try discriminate F;
      [reflexivity | apply IH].
Qed.

Lemma score_template_recase (w : Q) (ps : list (regex * str)) (text : str) :
  forall f, score_template w ps (map g text) f = score_template w ps text f.
Proof.
  unfold score_template.
  induction ps as [| pi ps IH]; intros f; cbn [fold_left]; [reflexivity |].
  pose proof (search_recase (fst pi) text 0) as F. unfold re_search.
  destruct (search_from true (fst pi) 0 (map g text)),
    (search_from true (fst pi) 0 text); cbn in F; try discriminate F;
    apply IH.
Qed.

Lemma detect_recase (text : str) :
  detect_invoice_format (map g text) = detect_invoice_format text.
Proof.
  unfold detect_invoice_format. rewrite !score_template_recase. reflexivity.
Qed.

End CaseChange.

Lemma to_upper_cases (x : ascii) :
  to_lower (to_upper x) = to_lower x
  /\ to_upper (to_upper x) = to_upper x
  /\ (to_upper x = x \/ to_lower x = x)
  /\ Ascii.eqb (to_upper x) newline = Ascii.eqb x newline.
Proof.
  destruct x as [[|] [|] [|] [|] [|] [|] [|] [|]]; vm_compute; auto.
Qed.

Lemma to_lower_cases (x : ascii) :
  to_lower (to_lower x) = to_lower x
  /\ to_upper (to_lower x) = to_upper x
  /\ (to_upper x = x \/ to_lower x = x)
  /\ Ascii.eqb (to_lower x) newline = Ascii.eqb x newline.
Proof.
  destruct x as [[|] [|] [|] [|] [|] [|] [|] [|]]; vm_compute; auto.
Qed.

Lemma lit_ok_fold (a x : ascii) :
  lit_ok true a x = Ascii.eqb (to_lower a) (to_lower x).
Proof.
  unfold lit_ok. cbn [andb].
  destruct (Ascii.eqb_spec a x) as [-> | _]; [| reflexivity].
  rewrite Ascii.eqb_refl. reflexivity.
Qed.

Lemma cls_ok_upper (f : ascii -> bool) (x : ascii) :
  cls_ok true f (to_upper x) = cls_ok true f x.
Proof.
  destruct (to_upper_cases x) as (L & U & [E | E] & _);
    unfold cls_ok; cbn [andb]; rewrite L, U.
  - rewrite !E. destruct (f x), (f (to_lower x)); reflexivity.
  - rewrite !E. destruct (f x), (f (to_upper x)); reflexivity.
Qed.

Lemma cls_ok_lower (f : ascii -> bool) (x : ascii) :
  cls_ok true f (to_lower x) = cls_ok true f x.
Proof.
  destruct (to_lower_cases x) as (L & U & [E | E] & _);
    unfold cls_ok; cbn [andb]; rewrite L, U.
  - rewrite !E. destruct (f x), (f (to_lower x)); reflexivity.
  - rewrite !E. destruct (f x), (f (to_upper x)); reflexivity.
Qed.

(** X9: the classifier does not see the case of the ASCII letters: a text,
    the same text with its letters a to z written in upper case, and the
    same text with its letters A to Z written in lower case are classified
    alike. *)
Theorem detect_ignores_case (ocr_text : str) :
  detect_invoice_format (map to_upper ocr_text) = detect_invoice_format ocr_text
  /\ detect_invoice_format (map to_lower ocr_text)
     = detect_invoice_format ocr_text.
Proof.
  split.
  - apply detect_recase.
    + intros a x. rewrite !lit_ok_fold.
      destruct (to_upper_cases x) as (-> & _). reflexivity.
    + apply cls_ok_upper.
    + intros x. apply to_upper_cases.
  - apply detect_recase.
    + intros a x. rewrite !lit_ok_fold.
      destruct (to_lower_cases x) as (-> & _). reflexivity.
    + apply cls_ok_lower.
    + intros x. apply to_lower_cases.
Qed.

Lemma str_eqb_eq (a b : str) : str_eqb a b = true <-> a = b.
Proof.
  revert b. induction a as [| x a IH]; intros [| y b]; cbn;
    try (split; [discriminate | intros H; discriminate H]);
    [split; reflexivity |].
  rewrite andb_true_iff, IH. split.
  - intros [E ->]. apply Ascii.eqb_eq in E. subst. reflexivity.
  - intros H. injection H as -> ->. split; [apply Ascii.eqb_refl | reflexivity].
Qed.

(** X10: the recommendations agree with the classifier's support flag: for
    the format detected in any text, the list opens with "This format is
    fully supported!" and has two entries when the format is marked as
    supported, and otherwise has three entries, none of which says so; it
    opens with "Format not recognized" exactly when the unknown format was
    returned. *)
Theorem recommendations_follow_support (ocr_text : str) :
  let f := detect_invoice_format ocr_text in
  let recs := get_format_recommendations f in
  (supported f = true ->
   recs = ["✅ This format is fully supported!"%string;
           "Expected accuracy: 95-100%"%string])
  /\ (supported f = false ->
      length recs = 3%nat
      /\ ~ In "✅ This format is fully supported!"%string recs)
  /\ (f = unknown <-> hd_error recs = Some "❌ Format not recognized"%string).
Proof.
  cbv zeta.
  destruct (detect_fields ocr_text) as [[E | [H | H]] _].
  - rewrite E. split; [discriminate |]. split.
    + intros _. split; [reflexivity |]. cbn.
      intros [K | [K | [K | []]]]; discriminate K.
    + split; reflexivity.
  - destruct H as (N & S & _). unfold get_format_recommendations.
    rewrite N, S. cbn.
    split; [reflexivity |]. split; [discriminate |].
    split; [| discriminate].
    intros E. rewrite E in N. discriminate N.
  - destruct H as (N & S & _). unfold get_format_recommendations.
    rewrite N, S. cbn.
    split; [discriminate |]. split.
    + intros _. split; [reflexivity |].
      intros [K | [K | [K | []]]]; discriminate K.
    + split; [| discriminate].
      intros E. rewrite E in N. discriminate N.
Qed.

Lemma recommendations_follow_support_witness :
  get_format_recommendations (detect_invoice_format scenario_text)
  = ["✅ This format is fully supported!"%string;
     "Expected accuracy: 95-100%"%string].
Proof.
  apply (recommendations_follow_support scenario_text).
  vm_compute. reflexivity.
Defined.

(** ** More on the normaliser *)

Section Normaliser.

Local Open Scope nat_scope.

Lemma split_chars (sep : ascii) (s : str) :
  forall w c, In w (split sep s) -> In c w -> In c s.
Proof.
  induction s as [| x s IH]; intros w c Hw Hc; cbn [split] in Hw.
  - destruct Hw as [<- | []]. exact Hc.
  - destruct (Ascii.eqb x sep).
    + destruct Hw as [<- | Hw]; [destruct Hc | right; eauto].
    + destruct (split sep s) as [| v vs] eqn:E.
      * destruct Hw as [<- | []]. destruct Hc as [<- | []]. left. reflexivity.
      * destruct Hw as [<- | Hw].
        -- destruct Hc as [<- | Hc]; [left; reflexivity | right].
           apply (IH v c); [left; reflexivity | exact Hc].
        -- right. apply (IH w c); [right; exact Hw | exact Hc].
Qed.

Lemma has_char_In (c : ascii) (s : str) : has_char c s = true <-> In c s.
Proof.
  unfold has_char. rewrite existsb_exists. split.
  - intros (x & Hx & E). apply Ascii.eqb_eq in E. subst. exact Hx.
  - intros H. exists c. split; [exact H | apply Ascii.eqb_refl].
Qed.

Lemma fix_line_plain (line : str) :
  has_char dollar line = false -> fix_line line = line.
Proof. intros H. unfold fix_line. rewrite H. reflexivity. Qed.

Lemma normalize_plain (text : str) :
  has_char dollar text = false -> normalize_ocr_errors text = text.
Proof.
  intros H. unfold normalize_ocr_errors.
  rewrite <- (join_split newline text) at 2. f_equal.
  rewrite <- (map_id (split newline text)) at 2.
  apply map_ext_in. intros line Hline. apply fix_line_plain.
  destruct (has_char dollar line) eqn:D; [| reflexivity].
  apply has_char_In in D. apply (split_chars _ _ _ _ Hline) in D.
  apply has_char_In in D. congruence.
Qed.

Lemma sub_letters_length (f : nat) :
  forall s, length (sub_letters f s) <= length s.
Proof.
  induction f as [| f IH]; intros s; cbn [sub_letters]; [lia |].
  destruct (quantity_letter_at s) as [r |] eqn:Q.
  - apply quantity_letter_shape in Q.
    destruct Q as (x1 & w1 & l & x3 & w3 & -> & _).
    specialize (IH r). cbn [lit list_ascii_of_string app length].
    rewrite length_app. cbn [length]. rewrite length_app. cbn [length]. lia.
  - destruct s as [| c s']; [lia |]. cbn [length]. specialize (IH s'). lia.
Qed.

Lemma fix_line_length (line : str) : length (fix_line line) <= length line.
Proof.
  rewrite fix_line_unfold. destruct (is_candidate line); [| lia].
  rewrite re_sub_letters.
  rewrite <- (Forall2_length (fix_prices_zeroed _)).
  apply sub_letters_length.
Qed.

Lemma join_length (sep : ascii) (ps ps' : list str) :
  Forall2 (fun w w' => length w' <= length w) ps ps' ->
  length (join sep ps') <= length (join sep ps).
Proof.
  induction 1 as [| w w' ws ws' Hw Hws IH]; [cbn; lia |].
  destruct Hws as [| v v' vs vs' Hv Hvs]; [exact Hw |].
  change (join sep (w :: v :: vs)) with (w ++ sep :: join sep (v :: vs)).
  change (join sep (w' :: v' :: vs')) with (w' ++ sep :: join sep (v' :: vs')).
  rewrite !length_app. cbn [length]. lia.
Qed.

Lemma normalize_length (text : str) :
  length (normalize_ocr_errors text) <= length text.
Proof.
  unfold normalize_ocr_errors.
  rewrite <- (join_split newline text) at 2.
  apply join_length.
  induction (split newline text) as [| w ws IH]; cbn [map]; constructor;
    [apply fix_line_length | exact IH].
Qed.

(** *** What is left on an item line *)

Lemma split_has_sep (sep : ascii) (s : str) :
  In sep s -> 1 < length (split sep s).
Proof.
  induction s as [| x s IH]; [intros [] |]. intros H. cbn [split].
  destruct (Ascii.eqb_spec x sep) as [-> | N].
  - pose proof (split_nonempty sep s) as K.
    destruct (split sep s); [congruence | cbn; lia].
  - destruct H as [H | H]; [congruence |]. specialize (IH H).
    destruct (split sep s) as [| w ws]; cbn in *; lia.
Qed.

Lemma after_first_sep (sep : ascii) (a : str) :
  ~ In sep a ->
  forall pre post rest,
    a ++ sep :: rest = pre ++ sep :: post ->
    exists q, rest = q ++ post.
Proof.
  induction a as [| x a IH]; intros N pre post rest E.
  - destruct pre as [| y pre]; cbn in E.
    + injection E as E. exists []. exact E.
    + injection E as _ E. exists (pre ++ [sep]).
      rewrite <- app_assoc. exact E.
  - destruct pre as [| y pre]; cbn in E; injection E as E E'.
    + exfalso. apply N. left. exact E.
    + apply (IH (fun H => N (or_intror H)) pre post rest E').
Qed.

Lemma join_chars (sep : ascii) (ps : list str) (c : ascii) :
  In c (join sep ps) -> c = sep \/ exists p, In p ps /\ In c p.
Proof.
  induction ps as [| w ws IH]; [intros [] |].
  destruct ws as [| v vs].
  - cbn. intros H. right. exists w. auto.
  - rewrite join_cons by discriminate. intros H.
    apply in_app_or in H. destruct H as [H | [H | H]].
    + right. exists w. split; [left; reflexivity | exact H].
    + left. symmetry. exact H.
    + destruct (IH H) as [K | (p & Hp & Hc)]; [auto |].
      right. exists p. split; [right; exact Hp | exact Hc].
Qed.

Lemma replace_no_O (w : str) : ~ In "O"%char (replace_char "O" "0" w).
Proof.
  unfold replace_char. intros H. apply in_map_iff in H.
  destruct H as (c & E & _).
  destruct (Ascii.eqb_spec c "O"); [discriminate E | congruence].
Qed.

Lemma fix_prices_no_O (s pre post : str) :
  fix_prices s = pre ++ dollar :: post -> ~ In "O"%char post.
Proof.
  intros E.
  assert (D : In dollar s).
  { apply (@zeroed_in dollar s (fix_prices s) ltac:(discriminate)
             (fix_prices_zeroed s)).
    rewrite E. apply in_or_app. right. left. reflexivity. }
  pose proof (split_has_sep _ _ D) as L.
  pose proof (split_parts dollar s) as P.
  unfold fix_prices in E.
  destruct (split dollar s) as [| first prices]; [cbn in L; lia |].
  apply Nat.ltb_lt in L. rewrite L in E.
  destruct prices as [| p ps]; [cbn in L; discriminate L |].
  rewrite join_cons in E by discriminate.
  inversion P as [| ? ? P1 _]; subst.
  destruct (@after_first_sep _ _ P1 _ _ _ E) as (q & J).
  intros H.
  assert (H' : In "O"%char (join dollar (map (replace_char "O" "0") (p :: ps))))
    by (rewrite J; apply in_or_app; right; exact H).
  apply join_chars in H'. destruct H' as [K | (w & Hw & Hc)]; [discriminate K |].
  apply in_map_iff in Hw. destruct Hw as (v & <- & _).
  exact (replace_no_O _ Hc).
Qed.

Lemma letter_free_search (s : str) :
  letter_free s ->
  forall p, search_from false quantity_letter_pattern p s = None.
Proof.
  induction s as [| x s IH]; intros F p; cbn [search_from].
  - pose proof (first_at_quantity_letter p []) as Q.
    destruct (first_at false quantity_letter_pattern p []) as [m |];
      [| reflexivity].
    destruct Q as [Q _]. rewrite (F [] [] eq_refl) in Q. discriminate Q.
  - pose proof (first_at_quantity_letter p (x :: s)) as Q.
    destruct (first_at false quantity_letter_pattern p (x :: s)) as [m |].
    + destruct Q as [Q _]. rewrite (F [] (x :: s) eq_refl) in Q. discriminate Q.
    + apply IH. intros pre t E. apply (F (x :: pre) t). rewrite E. reflexivity.
Qed.

Lemma fixed_line_clean (line : str) :
  is_candidate line = true ->
  re_search false quantity_letter_pattern (fix_line line) = None
  /\ forall pre post, fix_line line = pre ++ dollar :: post ->
                      ~ In "O"%char post.
Proof.
  intros C. rewrite fix_line_unfold, C, re_sub_letters. split.
  - apply letter_free_search.
    apply (@zeroed_letter_free _ _ (fix_prices_zeroed _)).
    apply sub_letters_free. lia.
  - intros pre post. apply fix_prices_no_O.
Qed.

End Normaliser.

(** X11: the normaliser works line by line: the corrected text has as many
    lines as the text, and its line [i] is line [i] of the text, fixed if it
    is an item line (it has a [$] and does not start with "Total") and
    untouched otherwise. *)
Theorem normalize_line_by_line (text : str) :
  length (split newline (normalize_ocr_errors text))
  = length (split newline text)
  /\ forall i line,
       nth_error (split newline text) i = Some line ->
       nth_error (split newline (normalize_ocr_errors text)) i
       = Some (if is_candidate line then fix_line line else line).
Proof.
  rewrite normalize_lines. split; [apply length_map |].
  intros i line H. rewrite (map_nth_error fix_line _ _ H). f_equal.
  rewrite (fix_line_unfold line). destruct (is_candidate line); reflexivity.
Qed.

Lemma normalize_line_by_line_witness :
  nth_error (split newline (normalize_ocr_errors scenario_text)) 3
  = Some (lit "Premium Software Subscription 1 $150.00 $150.00")
  /\ nth_error (split newline (normalize_ocr_errors scenario_text)) 4
     = Some (lit "Total Amount: $150.00").
Proof.
  split.
  - apply (proj2 (normalize_line_by_line scenario_text) 3%nat
                 (lit "Premium Software Subscription J $150.00 $150.00")).
    reflexivity.
  - apply (proj2 (normalize_line_by_line scenario_text) 4%nat
                 (lit "Total Amount: $150.00")).
    reflexivity.
Defined.

(** X12: a text without any [$] is returned as it is. *)
Theorem normalize_without_dollar (text : str) :
  has_char dollar text = false -> normalize_ocr_errors text = text.
Proof. exact (@normalize_plain text). Qed.

Lemma normalize_without_dollar_witness :
  normalize_ocr_errors (lit "Bill To: Ann Lee" ++ newline :: lit "J I l O")
  = lit "Bill To: Ann Lee" ++ newline :: lit "J I l O".
Proof. apply normalize_without_dollar. reflexivity. Defined.

(** X13: the corrected text is never longer than the text. *)
Theorem normalize_never_longer (text : str) :
  (length (normalize_ocr_errors text) <= length text)%nat.
Proof. exact (normalize_length text). Qed.

(** X14: in the corrected text, no item line is left with something to fix:
    a line that has a [$] and does not start with "Total" contains no lone
    [J], [l] or [I] between whitespace before a [$], and no letter [O] after
    its first [$]. *)
Theorem normalized_item_lines_are_clean (text line : str) :
  In line (split newline (normalize_ocr_errors text)) ->
  is_candidate line = true ->
  re_search false quantity_letter_pattern line = None
  /\ forall pre post, line = pre ++ dollar :: post -> ~ In "O"%char post.
Proof.
  intros Hin C.
  destruct (normalize_twice text) as [_ F].
  rewrite Forall_forall in F. specialize (F line Hin).
  rewrite <- F. exact (@fixed_line_clean line C).
Qed.

Lemma normalized_item_lines_are_clean_witness :
  re_search false quantity_letter_pattern
            (lit "Premium Software Subscription 1 $150.00 $150.00") = None
  /\ forall pre post,
       lit "Premium Software Subscription 1 $150.00 $150.00"
       = pre ++ dollar :: post -> ~ In "O"%char post.
Proof.
  apply (@normalized_item_lines_are_clean
           (lit "Premium Software Subscription J $15O.00 $150.00")).
  - vm_compute. left. reflexivity.
  - reflexivity.
Defined.

(** ** More on the line-item loop *)

Section TableBounds.

Local Open Scope Z_scope.

Lemma table_bounds_range (lines : list str) :
  forall i ts ts' te',
    0 <= i -> ts = -1 \/ 1 <= ts <= i ->
    table_bounds lines i ts = (ts', te') ->
    (te' = -1 \/ i <= te' < i + Z.of_nat (length lines))
    /\ (ts' = -1
        \/ 1 <= ts' <= i + Z.of_nat (length lines)
           /\ (te' <> -1 -> ts' <= te' + 1)).
Proof.
  induction lines as [| line more IH]; intros i ts ts' te' Hi Hts E;
    cbn [table_bounds] in E.
  - injection E as <- <-. split; [left; reflexivity |].
    cbn [length]. destruct Hts as [-> | H]; [left; reflexivity | right].
    split; [lia | congruence].
  - cbn [length]. rewrite Nat2Z.inj_succ.
    set (ts1 := if contains (lit "Item Description") line
                   && contains (lit "Quantity") line
                then i + 1 else ts) in E.
    assert (H1 : ts1 = -1 \/ 1 <= ts1 <= i + 1).
    { unfold ts1. destruct (_ && _); [right; lia |].
      destruct Hts; [left; assumption | right; lia]. }
    destruct (contains (lit "Total Amount:") line).
    + injection E as <- <-. split; [right; lia |].
      destruct H1 as [-> | H1]; [left; reflexivity | right; lia].
    + apply IH in E; [| lia | exact H1].
      destruct E as [E1 E2]. split.
      * destruct E1; [left; assumption | right; lia].
      * destruct E2 as [E2 | E2]; [left; assumption | right; lia].
Qed.

Lemma in_table_rows (text : str) (i : Z) :
  In i (table_rows text) <-> in_table text i.
Proof.
  unfold table_rows, in_table.
  destruct (table_bounds (split newline text) 0 (-1)) as [ts te].
  destruct (Z.eqb_spec ts (-1)) as [-> | N].
  - split; [intros [] | intros (H & _); congruence].
  - rewrite in_range_iff. tauto.
Qed.

Lemma in_table_bounds (text : str) (i : Z) :
  in_table text i -> 0 < i < Z.of_nat (length (split newline text)).
Proof.
  unfold in_table.
  destruct (table_bounds (split newline text) 0 (-1)) as [ts te] eqn:E.
  apply table_bounds_range in E; [| lia | left; reflexivity].
  destruct E as [E1 E2]. intros (N & H1 & H2).
  destruct E2 as [E2 | E2]; [congruence |].
  destruct (Z.eqb_spec te (-1)) as [-> | Nte]; cbn [negb] in H2; lia.
Qed.

End TableBounds.

(** X15: the second loop of [extract_line_items] only reads lines that
    exist: every index it visits is at least 1, so the first line of the
    text is never a row, and below the number of lines. *)
Theorem table_rows_are_lines (text : str) (i : Z) :
  in_table text i ->
  (0 < i < Z.of_nat (length (split newline text)))%Z
  /\ exists line, nth_error (split newline text) (Z.to_nat i) = Some line
                  /\ line_at (split newline text) i = strip line.
Proof.
  intros H. pose proof (@in_table_bounds text i H) as B. split; [exact B |].
  destruct (nth_error (split newline text) (Z.to_nat i)) as [line |] eqn:E.
  - exists line. split; [reflexivity |].
    unfold line_at. rewrite (nth_error_nth _ _ _ E). reflexivity.
  - exfalso. apply nth_error_None in E. lia.
Qed.

Lemma table_rows_are_lines_witness :
  (0 < 1 < Z.of_nat (length (split newline one_row_text)))%Z
  /\ exists line, nth_error (split newline one_row_text) (Z.to_nat 1)
                  = Some line
                  /\ line_at (split newline one_row_text) 1 = strip line.
Proof.
  apply (@table_rows_are_lines one_row_text 1).
  vm_compute. repeat split; discriminate.
Defined.

Section Header.

Local Open Scope nat_scope.

Lemma startswith_prefix (p t : str) : startswith p (p ++ t) = true.
Proof. apply startswith_app. eauto. Qed.

Lemma contains_iff (p s : str) :
  contains p s = true <-> exists a b, s = a ++ p ++ b.
Proof.
  induction s as [| x s IH]; cbn [contains].
  - rewrite orb_false_r, startswith_app. split.
    + intros (t & E). exists [], t. exact E.
    + intros (a & b & E). destruct a; [exists b; exact E | discriminate E].
  - rewrite orb_true_iff, IH, startswith_app. split.
    + intros [(t & E) | (a & b & E)].
      * exists [], t. exact E.
      * exists (x :: a), b. rewrite E. reflexivity.
    + intros (a & b & E). destruct a as [| y a].
      * left. exists b. exact E.
      * right. injection E as _ E. eauto.
Qed.

Lemma split_head_prefix (sep : ascii) (s : str) :
  forall v vs, split sep s = v :: vs -> exists b, s = v ++ b.
Proof.
  induction s as [| x s IH]; intros v vs E; cbn [split] in E.
  - injection E as <- _. exists []. reflexivity.
  - destruct (Ascii.eqb x sep).
    + injection E as <- _. exists (x :: s). reflexivity.
    + destruct (split sep s) as [| v' vs'] eqn:E'.
      * injection E as <- _. exists s. reflexivity.
      * injection E as <- _. destruct (IH v' vs' eq_refl) as (b & ->).
        exists b. reflexivity.
Qed.

Lemma split_sub (sep : ascii) (s : str) :
  forall w, In w (split sep s) -> exists a b, s = a ++ w ++ b.
Proof.
  induction s as [| x s IH]; intros w Hw.
  - destruct Hw as [<- | []]. exists [], []. reflexivity.
  - destruct (split sep (x :: s)) as [| v vs] eqn:E; [destruct Hw |].
    destruct Hw as [<- | Hw].
    + destruct (@split_head_prefix _ _ _ _ E) as (b & K).
      exists [], b. exact K.
    + cbn [split] in E. destruct (Ascii.eqb x sep).
      * injection E as _ <-. destruct (IH w Hw) as (a & b & ->).
        exists (x :: a), b. reflexivity.
      * destruct (split sep s) as [| v' vs'] eqn:E'.
        -- injection E as _ <-. destruct Hw.
        -- injection E as _ <-.
           destruct (IH w (or_intror Hw)) as (a & b & ->).
           exists (x :: a), b. reflexivity.
Qed.

Lemma contains_line (sep : ascii) (p s w : str) :
  In w (split sep s) -> contains p w = true -> contains p s = true.
Proof.
  intros Hw C. apply contains_iff in C. destruct C as (a & b & ->).
  apply split_sub in Hw. destruct Hw as (a' & b' & ->).
  apply contains_iff. exists (a' ++ a), (b ++ b').
  rewrite <- !app_assoc. reflexivity.
Qed.

Lemma table_bounds_no_header (lines : list str) :
  (forall line, In line lines ->
                contains (lit "Item Description") line
                && contains (lit "Quantity") line = false) ->
  forall i ts, fst (table_bounds lines i ts) = ts.
Proof.
  induction lines as [| line more IH]; intros H i ts; cbn [table_bounds];
    [reflexivity |].
  rewrite (H line (or_introl eq_refl)).
  destruct (contains (lit "Total Amount:") line); [reflexivity |].
  apply IH. intros l Hl. apply H. right. exact Hl.
Qed.

Lemma no_header_no_rows (text : str) :
  contains (lit "Item Description") text = false
  \/ contains (lit "Quantity") text = false ->
  table_rows text = [] /\ extract_line_items text = Ok [].
Proof.
  intros H.
  assert (K : fst (table_bounds (split newline text) 0 (-1)) = (-1)%Z).
  { apply table_bounds_no_header. intros line Hline.
    apply andb_false_iff.
    destruct H as [H | H]; [left | right];
      (destruct (contains _ line) eqn:C; [| reflexivity]);
      rewrite (@contains_line _ _ _ _ Hline C) in H; discriminate H. }
  unfold table_rows, extract_line_items.
  destruct (table_bounds (split newline text) 0 (-1)) as [ts te].
  cbn [fst] in K. subst ts. split; reflexivity.
Qed.

End Header.

(** X16: without a table header there are no items: when the text nowhere
    contains "Item Description", or nowhere contains "Quantity",
    [extract_line_items] returns the empty list. *)
Theorem no_header_no_items (text : str) :
  contains (lit "Item Description") text = false
  \/ contains (lit "Quantity") text = false ->
  extract_line_items text = Ok [].
Proof. intros H. exact (proj2 (@no_header_no_rows text H)). Qed.

Lemma no_header_no_items_witness :
  extract_line_items (lit "Widget 1 $2.00 $2.00" ++ newline
                      :: lit "Total Amount: $2.00")
  = Ok [].
Proof. apply no_header_no_items. left. reflexivity. Defined.

Section RowOrder.

Local Open Scope nat_scope.

Lemma loop_accepted (lines : list str) (idx : list Z) :
  forall acc items,
    fold_left (loop_body lines) idx (Ok acc) = Ok items ->
    items = acc ++ accepted_rows lines idx.
Proof.
  unfold accepted_rows.
  induction idx as [| i idx IH]; intros acc items H; cbn [fold_left flat_map] in *.
  - injection H as <-. rewrite app_nil_r. reflexivity.
  - rewrite loop_body_outcome in H.
    destruct (row_outcome (line_at lines i)) as [[it |] | e]; cbn [bind] in H.
    + rewrite (IH _ _ H), <- app_assoc. reflexivity.
    + exact (IH _ _ H).
    + rewrite loop_raise in H. discriminate H.
Qed.

Lemma accepted_rows_length (lines : list str) (idx : list Z) :
  length (accepted_rows lines idx) <= length idx.
Proof.
  unfold accepted_rows. induction idx as [| i idx IH]; cbn [flat_map length];
    [lia |].
  rewrite length_app.
  destruct (row_outcome (line_at lines i)) as [[it |] | e]; cbn [length]; lia.
Qed.

Lemma range_length (a b : Z) : length (range a b) = Z.to_nat (b - a).
Proof. unfold range. rewrite length_map, length_seq. reflexivity. Qed.

Lemma items_are_accepted_rows (text : str) (items : list LineItem) :
  extract_line_items text = Ok items ->
  items = accepted_rows (split newline text) (table_rows text).
Proof.
  unfold extract_line_items, table_rows.
  destruct (table_bounds (split newline text) 0 (-1)) as [ts te].
  destruct (ts =? -1)%Z.
  - intros H. injection H as <-. reflexivity.
  - rewrite items_loop_fold. intros H. apply loop_accepted in H. exact H.
Qed.

Lemma table_rows_length (text : str) :
  length (table_rows text) < length (split newline text).
Proof.
  pose proof (split_nonempty newline text) as N.
  unfold table_rows.
  destruct (table_bounds (split newline text) 0 (-1)) as [ts te] eqn:E.
  apply table_bounds_range in E; [| lia | left; reflexivity].
  destruct E as [E1 E2].
  destruct (Z.eqb_spec ts (-1)) as [-> | Nts].
  - destruct (split newline text); [congruence | cbn; lia].
  - rewrite range_length.
    destruct E2 as [E2 | E2]; [congruence |].
    destruct (Z.eqb_spec te (-1)) as [-> | Nte]; cbn [negb]; lia.
Qed.

End RowOrder.

(** X17: the items come in the order of their rows: what
    [extract_line_items] returns is, for the lines of the table taken from
    top to bottom, the item each accepted row gives, so there are fewer
    items than the text has lines. *)
Theorem items_follow_rows (text : str) (items : list LineItem) :
  extract_line_items text = Ok items ->
  items = accepted_rows (split newline text) (table_rows text)
  /\ (length items < length (split newline text))%nat.
Proof.
  intros H. pose proof (items_are_accepted_rows _ H) as E.
  split; [exact E |]. rewrite E.
  eapply Nat.le_lt_trans; [apply accepted_rows_length |].
  apply table_rows_length.
Qed.

Lemma items_follow_rows_witness :
  exists pen cap,
    description pen = lit "Pen" /\ description cap = lit "Cap"
    /\ [pen; cap]
       = accepted_rows (split newline three_row_text)
                       (table_rows three_row_text)
    /\ (length [pen; cap] < length (split newline three_row_text))%nat.
Proof.
  eexists. eexists. split; [| split; [| eapply items_follow_rows]].
  3: vm_compute; reflexivity.
  all: reflexivity.
Defined.

(** *** Quantities that a [float] holds exactly *)

Section SmallInt.

Local Open Scope Z_scope.

Lemma digits2_size (p : positive) : digits2_pos p = Pos.size p.
Proof. induction p as [p IH | p IH |]; cbn; congruence. Qed.

Lemma digits2_small (m : positive) :
  Z.pos m < 2 ^ 53 -> Z.pos (digits2_pos m) <= 53.
Proof.
  intros H. rewrite digits2_size.
  destruct (Z.le_gt_cases (Z.pos (Pos.size m)) 53) as [L | L]; [exact L |].
  exfalso. pose proof (Pos.size_le m) as S.
  apply Pos2Z.pos_le_pos in S. rewrite Pos2Z.inj_pow in S.
  assert (P : 2 ^ 54 <= 2 ^ Z.pos (Pos.size m))
    by (apply Z.pow_le_mono_r; lia).
  change (Z.pos m~0) with (2 * Z.pos m) in S.
  change (2 ^ 54) with (2 * 2 ^ 53) in P. lia.
Qed.

Lemma digits2_iter_xO (m k : positive) :
  digits2_pos (Pos.iter xO m k) = (digits2_pos m + k)%positive.
Proof.
  induction k as [| k IH] using Pos.peano_ind.
  - cbn. lia.
  - rewrite Pos.iter_succ. cbn [digits2_pos]. rewrite IH. lia.
Qed.

Lemma binary_round_aux_exact (mz : positive) (ez : Z) :
  Z.pos (digits2_pos mz) = 53 -> -1074 <= ez <= 971 ->
  binary_round_aux prec emax false (Z.pos mz) ez loc_Exact
  = S754_finite false mz ez.
Proof.
  intros D B. unfold binary_round_aux, shr_fexp.
  assert (F : fexp prec emax (Zdigits2 (Z.pos mz) + ez) - ez = 0).
  { cbn [Zdigits2]. rewrite D. unfold fexp, emin, prec, emax. lia. }
  rewrite F. cbn [shr shr_record_of_loc shr_m loc_of_shr_record shr_r shr_s
                  round_nearest_even].
  rewrite F. cbn [shr shr_record_of_loc shr_m].
  replace (ez <=? emax - prec) with true; [reflexivity |].
  symmetry. apply Z.leb_le. unfold emax, prec. lia.
Qed.

Lemma float_of_Z_small (n : Z) :
  0 <= n < 2 ^ 53 ->
  float_of_Z n = S754_zero false
  \/ exists m e, float_of_Z n = S754_finite false m e.
Proof.
  intros [H0 H]. unfold float_of_Z, binary_normalize.
  destruct n as [| m | m]; [left; reflexivity | right | lia].
  pose proof (@digits2_small m H) as D.
  unfold binary_round, shl_align.
  assert (F : fexp prec emax (Z.pos (digits2_pos m) + 0)
              = Z.pos (digits2_pos m) - 53)
    by (unfold fexp, emin, prec, emax; lia).
  rewrite F.
  destruct (Z.pos (digits2_pos m) - 53 - 0) as [| k | k] eqn:K; [| lia |].
  - eexists. eexists. apply binary_round_aux_exact; lia.
  - eexists. eexists. apply binary_round_aux_exact.
    + rewrite digits2_iter_xO. lia.
    + lia.
Qed.

Lemma mul_int_float_small (n : Z) (x : float) :
  0 <= n < 2 ^ 53 -> exists y, mul_int_float n x = Ok y.
Proof.
  intros H. unfold mul_int_float, float_of_int.
  destruct (@float_of_Z_small n H) as [-> | (m & e & ->)]; cbn [bind]; eauto.
Qed.

Lemma digit_val_bound (c : ascii) : is_digit c = true -> 0 <= digit_val c <= 9.
Proof.
  unfold is_digit, in_range, digit_val. intros H.
  apply andb_prop in H. destruct H as [H1 H2].
  apply Nat.leb_le in H1, H2. lia.
Qed.

Lemma digits_val_bound (s : str) :
  forallb is_digit s = true -> 0 <= digits_val s < 10 ^ Z.of_nat (length s).
Proof.
  unfold digits_val.
  assert (G : forall acc,
             forallb is_digit s = true -> 0 <= acc ->
             0 <= fold_left (fun a c => 10 * a + digit_val c) s acc
             < (acc + 1) * 10 ^ Z.of_nat (length s)).
  { induction s as [| c s IH]; intros acc F A; cbn [fold_left length].
    - cbn. lia.
    - cbn [forallb] in F. apply andb_prop in F. destruct F as [C F].
      pose proof (@digit_val_bound c C) as B.
      specialize (IH (10 * acc + digit_val c) F ltac:(lia)).
      rewrite Nat2Z.inj_succ, Z.pow_succ_r by lia.
      assert (P : 0 < 10 ^ Z.of_nat (length s))
        by (apply Z.pow_pos_nonneg; lia).
      nia. }
  intros F. specialize (G 0 F ltac:(lia)). lia.
Qed.

Lemma int_of_str_small (s : str) (n : Z) :
  int_of_str s = Ok n -> (length s <= 15)%nat -> 0 <= n < 2 ^ 53.
Proof.
  unfold int_of_str. destruct s as [| c s]; [discriminate |].
  destruct (forallb is_digit (c :: s)) eqn:F; [| discriminate].
  intros H L. injection H as <-.
  pose proof (@digits_val_bound (c :: s) F) as B.
  assert (P : 10 ^ Z.of_nat (length (c :: s)) <= 10 ^ 15)
    by (apply Z.pow_le_mono_r; lia).
  assert (Q : 10 ^ 15 < 2 ^ 53) by reflexivity.
  lia.
Qed.

End SmallInt.

Lemma row_outcome_small (line : str) :
  (forall m, re_match false item_pattern line = Some m ->
             (length (grp 2 m) <= 15)%nat) ->
  exists o, row_outcome line = Ok o.
Proof.
  intros H. unfold row_outcome.
  destruct (re_match false item_pattern line) as [m |] eqn:M; [| eauto].
  destruct (item_groups_convert _ M) as (q & u & t & Q & -> & ->).
  rewrite Q. cbn [bind].
  pose proof (@int_of_str_small _ _ Q (H m eq_refl)) as B.
  destruct (@mul_int_float_small q u B) as (y & ->). cbn [bind].
  destruct (flt _ cent); eauto.
Qed.

Lemma loop_small (lines : list str) (idx : list Z) :
  (forall i m, In i idx ->
               re_match false item_pattern (line_at lines i) = Some m ->
               (length (grp 2 m) <= 15)%nat) ->
  forall acc, exists items, fold_left (loop_body lines) idx (Ok acc) = Ok items.
Proof.
  induction idx as [| i idx IH]; intros H acc; cbn [fold_left]; [eauto |].
  rewrite loop_body_outcome.
  destruct (@row_outcome_small (line_at lines i)) as (o & ->).
  { intros m. apply H. left. reflexivity. }
  cbn [bind]. apply IH. intros j m Hj. apply H. right. exact Hj.
Qed.

Lemma line_items_small (text : str) :
  (forall i m, in_table text i ->
               re_match false item_pattern (line_at (split newline text) i)
               = Some m ->
               (length (grp 2 m) <= 15)%nat) ->
  exists items, extract_line_items text = Ok items.
Proof.
  intros H.
  assert (H' : forall i m, In i (table_rows text) ->
               re_match false item_pattern (line_at (split newline text) i)
               = Some m -> (length (grp 2 m) <= 15)%nat).
  { intros i m Hi. apply H. apply in_table_rows. exact Hi. }
  clear H. revert H'. unfold table_rows, extract_line_items.
  destruct (table_bounds (split newline text) 0 (-1)) as [ts te].
  destruct (ts =? -1)%Z; [eauto |].
  intros H. rewrite items_loop_fold. apply loop_small. exact H.
Qed.

(** X18: quantities of at most 15 digits never make [extract_line_items]
    raise: when the quantity of every row of the table has at most 15
    digits, the function returns its list of items. *)
Theorem short_quantities_never_raise (text : str) :
  (forall i m, in_table text i ->
               re_match false item_pattern (line_at (split newline text) i)
               = Some m ->
               (length (grp 2 m) <= 15)%nat) ->
  exists items, extract_line_items text = Ok items.
Proof. exact (@line_items_small text). Qed.

Lemma short_quantities_never_raise_witness :
  exists items, extract_line_items one_row_text = Ok items.
Proof.
  apply short_quantities_never_raise. intros i m Hi Hm.
  apply in_table_rows in Hi. vm_compute in Hi. destruct Hi as [<- | []].
  vm_compute in Hm. injection Hm as <-. vm_compute. lia.
Defined.

(** ** The fields of an extracted record *)

(** The fields of the record, as [extract_receipt_fields_v3] sets them from
    the corrected text. *)
Lemma extracted_fields (text : str) (data : Receipt) :
  extract_receipt_fields_v3 text = Ok data ->
  let t := normalize_ocr_errors text in
  receipt_number data
  = match re_search true receipt_pattern t with
    | Some m => Some (grp 1 m)
    | None => None
    end
  /\ date data
     = match re_search false date_pattern t with
       | Some m => Some (grp 1 m ++ lit " " ++ grp 2 m ++ lit ", " ++ grp 3 m)
       | None => None
       end
  /\ name (bill_to data)
     = match re_search false name_pattern t with
       | Some m => Some (strip (grp 1 m))
       | None => None
       end
  /\ match re_search true total_pattern t with
     | Some m => exists amount,
                   float_of_str (remove_char "," (grp 1 m)) = Ok amount
                   /\ total_amount data = Some amount
     | None => total_amount data = None
     end
  /\ payment_method data
     = match re_search true payment_pattern t with
       | Some m => Some (strip (grp 1 m))
       | None => None
       end
  /\ extract_line_items t = Ok (items data)
  /\ ocr_corrections_applied data = true.
Proof.
  unfold extract_receipt_fields_v3. cbv zeta.
  destruct (re_search true total_pattern (normalize_ocr_errors text)) as [m |].
  - destruct (float_of_str (remove_char "," (grp 1 m))) as [amount |];
      [| discriminate].
    cbn [bind].
    destruct (extract_line_items (normalize_ocr_errors text)) as [its |];
      [| discriminate].
    cbn [bind]. intros H. injection H as <-.
    cbn [receipt_number date bill_to name total_amount payment_method items
         ocr_corrections_applied].
    split; [reflexivity |]. split; [reflexivity |]. split; [reflexivity |].
    split; [eauto |]. split; [reflexivity |]. split; reflexivity.
  - cbn [bind].
    destruct (extract_line_items (normalize_ocr_errors text)) as [its |];
      [| discriminate].
    cbn [bind]. intros H. injection H as <-.
    cbn [receipt_number date bill_to name total_amount payment_method items
         ocr_corrections_applied].
    split; [reflexivity |]. split; [reflexivity |]. split; [reflexivity |].
    split; [reflexivity |]. split; [reflexivity |]. split; reflexivity.
Qed.

Section ClassesAnyCase.

Local Open Scope nat_scope.

Variable ic : bool.

Lemma Run_Cls_ic (f : ascii -> bool) (c c' : cfg) :
  Run ic (Cls f) c c' ->
  exists x, cls_ok ic f x = true /\ rest c = x :: rest c'
            /\ caps c' = caps c.
Proof. intros H. inversion H; subst. cbn. eauto. Qed.

Lemma Run_Lit_ic (a : ascii) (c c' : cfg) :
  Run ic (Lit a) c c' ->
  exists x, lit_ok ic a x = true /\ rest c = x :: rest c'
            /\ caps c' = caps c.
Proof. intros H. inversion H; subst. cbn. eauto. Qed.

Lemma Run_star_cls_ic (f : ascii -> bool) (r : regex) (c c' : cfg) :
  Run ic r c c' -> r = Star (Cls f) ->
  exists w, forallb (cls_ok ic f) w = true /\ rest c = w ++ rest c'
            /\ caps c' = caps c.
Proof.
  induction 1; intros E; try discriminate E.
  - exists []. auto.
  - injection E as ->. destruct (IHRun2 eq_refl) as (w & F & R & K).
    apply Run_Cls_ic in H. destruct H as (x & X & Rx & Kx).
    exists (x :: w). cbn. rewrite X, F, Rx, R, K, Kx. auto.
Qed.

Lemma Run_plus_cls_ic (f : ascii -> bool) (c c' : cfg) :
  Run ic (Plus (Cls f)) c c' ->
  exists x w, cls_ok ic f x = true /\ forallb (cls_ok ic f) w = true
              /\ rest c = x :: w ++ rest c' /\ caps c' = caps c.
Proof.
  unfold Plus. intros H. apply Run_Cat_inv in H. destruct H as (c1 & H1 & H2).
  destruct (Run_star_cls_ic (f := f) H2 eq_refl) as (w & F & R & K).
  apply Run_Cls_ic in H1. destruct H1 as (x & X & Rx & Kx).
  exists x, w. rewrite Rx, R, K, Kx. auto.
Qed.

Lemma Run_opt_lit_ic (a : ascii) (c c' : cfg) :
  Run ic (Opt (Lit a)) c c' ->
  rest c = rest c'
  \/ exists x, lit_ok ic a x = true /\ rest c = x :: rest c'.
Proof.
  unfold Opt. intros H.
  assert (K : Run ic (Lit a) c c' \/ Run ic Eps c c')
    by (inversion H; subst; auto).
  destruct K as [K | K].
  - right. apply Run_Lit_ic in K. destruct K as (x & X & R & _). eauto.
  - left. inversion K; subst. reflexivity.
Qed.

Lemma Run_Grp_text_ic (i : nat) (r : regex) (c c1 : cfg) :
  Run ic (Grp i r) c c1 ->
  exists c', Run ic r c c'
             /\ rest c1 = rest c' /\ pos c1 = pos c'
             /\ forall pre, rest c = pre ++ rest c' ->
                            group i (caps c1) = Some pre.
Proof.
  intros H. apply Run_Grp_inv in H. destruct H as (c' & H & ->).
  exists c'. cbn [rest pos caps group]. rewrite Nat.eqb_refl.
  repeat split; try assumption.
  intros pre E. f_equal. exact (Run_text _ H E).
Qed.

End ClassesAnyCase.

Section FieldShapes.

Local Open Scope nat_scope.

Lemma search_Run (ic : bool) (r : regex) (s : str) (m : mobj) :
  re_search ic r s = Some m ->
  exists p s' c, Run ic r (Cfg [] p s') c /\ groups m = caps c.
Proof.
  intros H. apply search_from_first in H. destruct H as (p & s' & H).
  apply first_at_Run in H. destruct H as (c & HR & ->).
  exists p, s', c. split; [exact HR | reflexivity].
Qed.

Lemma cls_ok_digit (ic : bool) (x : ascii) : cls_ok ic is_digit x = is_digit x.
Proof.
  destruct ic; [| apply cls_ok_exact].
  destruct x as [[|] [|] [|] [|] [|] [|] [|] [|]]; vm_compute; reflexivity.
Qed.

Lemma forallb_cls_digit (ic : bool) (w : str) :
  forallb (cls_ok ic is_digit) w = forallb is_digit w.
Proof.
  induction w as [| x w IH]; cbn [forallb]; [reflexivity |].
  rewrite cls_ok_digit, IH. reflexivity.
Qed.

(** *** The receipt number *)

Lemma receipt_match_digits (c0 c : cfg) :
  Run true receipt_pattern c0 c ->
  exists x w, group 1 (caps c) = Some (x :: w)
              /\ forallb is_digit (x :: w) = true.
Proof.
  unfold receipt_pattern. cbn [cat]. intros H.
  apply Run_Cat_inv in H. destruct H as (c1 & _ & H).
  apply Run_Cat_inv in H. destruct H as (c2 & _ & H).
  apply Run_Cat_inv in H. destruct H as (c3 & _ & H).
  apply Run_Grp_text_ic in H. destruct H as (c' & H & _ & _ & T).
  unfold digit in H. apply Run_plus_cls_ic in H.
  destruct H as (x & w & X & F & R & _).
  exists x, w. split; [exact (T (x :: w) R) |].
  rewrite cls_ok_digit in X. rewrite forallb_cls_digit in F.
  cbn [forallb]. rewrite X, F. reflexivity.
Qed.

Lemma receipt_number_digits (text : str) (data : Receipt) (r : str) :
  extract_receipt_fields_v3 text = Ok data ->
  receipt_number data = Some r ->
  r <> [] /\ forallb is_digit r = true
  /\ str_truthy (receipt_number data) = true.
Proof.
  intros Hx Hr. pose proof Hr as Hr0.
  destruct (@extracted_fields _ _ Hx) as (E & _).
  rewrite E in Hr.
  destruct (re_search true receipt_pattern (normalize_ocr_errors text))
    as [m |] eqn:S; [| discriminate].
  apply search_Run in S. destruct S as (p & s' & c & HR & G).
  apply receipt_match_digits in HR. destruct HR as (x & w & Hg & F).
  unfold grp in Hr. rewrite G, Hg in Hr. injection Hr as <-.
  split; [discriminate |]. split; [exact F |].
  rewrite Hr0. reflexivity.
Qed.

(** *** The total amount *)

Lemma cls_ok_digit_or_comma (x : ascii) :
  cls_ok true digit_or_comma x = digit_or_comma x.
Proof.
  destruct x as [[|] [|] [|] [|] [|] [|] [|] [|]]; vm_compute; reflexivity.
Qed.

Lemma forallb_cls_digit_or_comma (w : str) :
  forallb (cls_ok true digit_or_comma) w = forallb digit_or_comma w.
Proof.
  induction w as [| x w IH]; cbn [forallb]; [reflexivity |].
  rewrite cls_ok_digit_or_comma, IH. reflexivity.
Qed.

Lemma lit_ok_point (x : ascii) : lit_ok true "." x = true -> x = "."%char.
Proof.
  destruct x as [[|] [|] [|] [|] [|] [|] [|] [|]]; vm_compute; intros H;
    (reflexivity || discriminate H).
Qed.

(** The amount group: digits and commas, then possibly a point, then
    digits. *)
Lemma amount_match_shape (c0 c : cfg) :
  Run true total_pattern c0 c ->
  exists a b d,
    group 1 (caps c) = Some (a ++ b ++ d)
    /\ a <> [] /\ forallb digit_or_comma a = true
    /\ (b = [] \/ b = ["."%char])
    /\ forallb is_digit d = true.
Proof.
  unfold total_pattern. cbn [cat]. intros H.
  apply Run_Cat_inv in H. destruct H as (c1 & _ & H).
  apply Run_Cat_inv in H. destruct H as (c2 & _ & H).
  apply Run_Cat_inv in H. destruct H as (c3 & _ & H).
  apply Run_Cat_inv in H. destruct H as (c4 & _ & H).
  apply Run_Cat_inv in H. destruct H as (c5 & _ & H).
  apply Run_Grp_text_ic in H. destruct H as (c' & H & _ & _ & T).
  apply Run_Cat_inv in H. destruct H as (c6 & H1 & H).
  apply Run_Cat_inv in H. destruct H as (c7 & H2 & H3).
  fold digit_or_comma in H1.
  change (Cls (fun c => is_digit c || Ascii.eqb c ","))
    with (Cls digit_or_comma) in H1.
  apply Run_plus_cls_ic in H1. destruct H1 as (x & w & X & F & R1 & _).
  rewrite cls_ok_digit_or_comma in X.
  rewrite forallb_cls_digit_or_comma in F.
  unfold digit in H3.
  destruct (Run_star_cls_ic (f := is_digit) H3 eq_refl) as (d & D & R3 & _).
  rewrite forallb_cls_digit in D.
  apply Run_opt_lit_ic in H2.
  destruct H2 as [R2 | (y & Y & R2)].
  - exists (x :: w), [], d. split.
    + apply T. rewrite R1, R2, R3. cbn. rewrite <- app_assoc. reflexivity.
    + split; [discriminate |]. split; [cbn; rewrite X, F; reflexivity |].
      auto.
  - apply lit_ok_point in Y. subst y.
    exists (x :: w), ["."%char], d. split.
    + apply T. rewrite R1, R2, R3. cbn. rewrite <- app_assoc. reflexivity.
    + split; [discriminate |]. split; [cbn; rewrite X, F; reflexivity |].
      auto.
Qed.

Lemma remove_char_cons (a x : ascii) (s : str) :
  remove_char a (x :: s)
  = if Ascii.eqb x a then remove_char a s else x :: remove_char a s.
Proof. unfold remove_char. cbn [filter]. destruct (Ascii.eqb x a); reflexivity. Qed.

Lemma remove_comma_digits (d : str) :
  forallb is_digit d = true -> remove_char "," d = d.
Proof.
  induction d as [| x d IH]; [reflexivity |]. cbn [forallb]. intros F.
  apply andb_prop in F. destruct F as [X F]. rewrite remove_char_cons.
  destruct (Ascii.eqb_spec x ",") as [-> | _]; [discriminate X |].
  rewrite (IH F). reflexivity.
Qed.

Lemma remove_comma_group (a : str) :
  forallb digit_or_comma a = true ->
  forallb is_digit (remove_char "," a) = true
  /\ existsb is_digit a = negb (length (remove_char "," a) =? 0).
Proof.
  induction a as [| x a IH]; [intros _; split; reflexivity |].
  cbn [forallb existsb]. intros F.
  apply andb_prop in F. destruct F as [X F]. destruct (IH F) as [I1 I2].
  unfold digit_or_comma in X. rewrite remove_char_cons.
  destruct (Ascii.eqb_spec x ",") as [-> | N].
  - split; [exact I1 | exact I2].
  - rewrite orb_false_r in X. cbn [forallb length]. rewrite X, I1. auto.
Qed.

Lemma cut_point_none (s : str) :
  forallb is_digit s = true -> cut_point s = (s, None).
Proof.
  induction s as [| x s IH]; cbn [cut_point forallb]; [reflexivity |].
  intros F. apply andb_prop in F. destruct F as [X F].
  destruct (Ascii.eqb_spec x ".") as [-> | _]; [discriminate X |].
  rewrite (IH F). reflexivity.
Qed.

Lemma existsb_digits (d : str) :
  forallb is_digit d = true -> existsb is_digit d = negb (length d =? 0).
Proof.
  destruct d as [| x d]; cbn; [reflexivity |]. intros F.
  apply andb_prop in F. destruct F as [-> _]. reflexivity.
Qed.

Lemma remove_char_app (a : ascii) (u v : str) :
  remove_char a (u ++ v) = remove_char a u ++ remove_char a v.
Proof. apply filter_app. Qed.

(** [float] accepts the amount, commas removed, exactly when it has a
    digit. *)
Lemma amount_converts (a b d : str) :
  forallb digit_or_comma a = true ->
  b = [] \/ b = ["."%char] ->
  forallb is_digit d = true ->
  if existsb is_digit (a ++ b ++ d)
  then exists v, float_of_str (remove_char "," (a ++ b ++ d)) = Ok v
  else float_of_str (remove_char "," (a ++ b ++ d)) = Raise ValueError.
Proof.
  intros A B D. destruct (remove_comma_group a A) as [FA EA].
  rewrite !remove_char_app, (remove_comma_digits d D).
  rewrite !existsb_app, EA, (existsb_digits d D).
  set (fa := remove_char "," a) in *.
  unfold float_of_str.
  destruct B as [-> | ->].
  - change (remove_char "," []) with (@nil ascii). cbn [app existsb orb].
    assert (F : forallb is_digit (fa ++ d) = true)
      by (rewrite forallb_app, FA, D; reflexivity).
    rewrite (cut_point_none _ F). cbn [forallb]. rewrite F.
    cbn [andb length]. rewrite Nat.add_0_r, length_app.
    destruct fa, d; cbn; eauto.
  - change (remove_char "," ["."%char]) with ["."%char].
    change (existsb is_digit ["."%char]) with false.
    cbn [app orb].
    rewrite (cut_point_digits _ d FA). rewrite FA, D. cbn [andb].
    destruct fa, d; cbn; eauto.
Qed.

(** *** The payment method *)

Lemma cls_ok_not_newline (x : ascii) :
  cls_ok true (fun c => negb (Ascii.eqb c newline)) x = true -> x <> newline.
Proof. intros H ->. discriminate H. Qed.

Lemma payment_match_line (c0 c : cfg) :
  Run true payment_pattern c0 c ->
  exists g, group 1 (caps c) = Some g /\ ~ In newline g.
Proof.
  unfold payment_pattern. cbn [cat]. intros H.
  apply Run_Cat_inv in H. destruct H as (c1 & _ & H).
  apply Run_Cat_inv in H. destruct H as (c2 & _ & H).
  apply Run_Cat_inv in H. destruct H as (c3 & _ & H).
  apply Run_Cat_inv in H. destruct H as (c4 & _ & H).
  apply Run_Grp_text_ic in H. destruct H as (c' & H & _ & _ & T).
  apply Run_plus_cls_ic in H. destruct H as (x & w & X & F & R & _).
  exists (x :: w). split; [exact (T (x :: w) R) |].
  intros [E | Hin].
  - exact (cls_ok_not_newline X E).
  - rewrite forallb_forall in F. exact (cls_ok_not_newline (F _ Hin) eq_refl).
Qed.

Lemma lstrip_In (s : str) (c : ascii) : In c (lstrip s) -> In c s.
Proof.
  destruct (lstrip_suffix s) as (w & E). intros H. rewrite E.
  apply in_or_app. right. exact H.
Qed.

Lemma strip_In (s : str) (c : ascii) : In c (strip s) -> In c s.
Proof.
  unfold strip, rstrip. intros H. apply in_rev in H.
  apply lstrip_In in H. apply in_rev in H. apply lstrip_In in H. exact H.
Qed.

Lemma strip_last (s t : str) (x : ascii) :
  strip s = t ++ [x] -> is_space x = false.
Proof.
  unfold strip, rstrip. intros H.
  apply (f_equal (@rev ascii)) in H.
  rewrite rev_involutive, rev_app_distr in H. cbn in H.
  exact (lstrip_head _ H).
Qed.

End FieldShapes.

Lemma total_amount_converts (t : str) (m : mobj) :
  re_search true total_pattern t = Some m ->
  if existsb is_digit (grp 1 m)
  then exists v, float_of_str (remove_char "," (grp 1 m)) = Ok v
  else float_of_str (remove_char "," (grp 1 m)) = Raise ValueError.
Proof.
  intros S. apply search_Run in S. destruct S as (p & s' & c & HR & G).
  apply amount_match_shape in HR.
  destruct HR as (a & b & d & Hg & _ & A & B & D).
  unfold grp. rewrite G, Hg. exact (@amount_converts a b d A B D).
Qed.

Lemma extractor_cases (text : str) :
  (extract_receipt_fields_v3 text = Raise ValueError
   /\ amount_without_digit text)
  \/ (~ amount_without_digit text
      /\ extract_line_items (normalize_ocr_errors text) = Raise OverflowError
      /\ extract_receipt_fields_v3 text = Raise OverflowError)
  \/ (~ amount_without_digit text
      /\ exists data,
           extract_line_items (normalize_ocr_errors text) = Ok (items data)
           /\ extract_receipt_fields_v3 text = Ok data).
Proof.
  unfold amount_without_digit, extract_receipt_fields_v3. cbv zeta.
  destruct (re_search true total_pattern (normalize_ocr_errors text))
    as [m |] eqn:S.
  - pose proof (@total_amount_converts _ _ S) as C.
    destruct (existsb is_digit (grp 1 m)) eqn:E.
    + destruct C as (v & ->). cbn [bind].
      assert (N : ~ exists m0, Some m = Some m0
                               /\ existsb is_digit (grp 1 m0) = false).
      { intros (m0 & K & K'). injection K as <-. congruence. }
      destruct (extract_line_items_result (normalize_ocr_errors text))
        as [(its & ->) | ->]; cbn [bind].
      * right. right. split; [exact N |].
        eexists. split; [| reflexivity]. reflexivity.
      * right. left. auto.
    + rewrite C. cbn [bind]. left. split; [reflexivity |]. eauto.
  - cbn [bind].
    assert (N : ~ exists m0, @None mobj = Some m0
                             /\ existsb is_digit (grp 1 m0) = false).
    { intros (m0 & K & _). discriminate K. }
    destruct (extract_line_items_result (normalize_ocr_errors text))
      as [(its & ->) | ->]; cbn [bind].
    + right. right. split; [exact N |].
        eexists. split; [| reflexivity]. reflexivity.
    + right. left. auto.
Qed.

(** X19: when [extract_receipt_fields_v3] raises and when it returns. It
    raises [ValueError] exactly when the label "Total Amount:" is found and
    the amount after it has no digit; it raises [OverflowError] exactly when
    that is not so and [extract_line_items] raises it on the corrected text;
    in every other case it returns a record. *)
Theorem extractor_outcomes (text : str) :
  (extract_receipt_fields_v3 text = Raise ValueError
   <-> amount_without_digit text)
  /\ (extract_receipt_fields_v3 text = Raise OverflowError
      <-> ~ amount_without_digit text
          /\ extract_line_items (normalize_ocr_errors text)
             = Raise OverflowError)
  /\ ((exists data, extract_receipt_fields_v3 text = Ok data)
      <-> ~ amount_without_digit text
          /\ exists items,
               extract_line_items (normalize_ocr_errors text) = Ok items).
Proof.
  destruct (extractor_cases text)
    as [(E & A) | [(N & L & E) | (N & data & L & E)]]; rewrite E.
  - split; [tauto |]. split.
    + split; [discriminate | tauto].
    + split; [intros (d & K); discriminate K | tauto].
  - split; [split; [discriminate | tauto] |]. split.
    + tauto.
    + split; [intros (d & K); discriminate K |].
      intros (_ & its & K). congruence.
  - split; [split; [discriminate | tauto] |]. split.
    + split; [discriminate |]. intros (_ & K). congruence.
    + split; [eauto | eauto].
Qed.

(** X20: the extractor returns a record whenever the amount after "Total
    Amount:", if that label is found, has a digit, and the quantity of every
    row of the table has at most 15 digits. *)
Theorem extractor_returns (text : str) :
  ~ amount_without_digit text ->
  (forall i m,
     in_table (normalize_ocr_errors text) i ->
     re_match false item_pattern
              (line_at (split newline (normalize_ocr_errors text)) i)
     = Some m ->
     (length (grp 2 m) <= 15)%nat) ->
  exists data, extract_receipt_fields_v3 text = Ok data.
Proof.
  intros N Q.
  destruct (@line_items_small _ Q) as (its & L).
  destruct (extractor_cases text)
    as [(_ & A) | [(_ & L' & _) | (_ & data & _ & E)]].
  - contradiction.
  - congruence.
  - eauto.
Qed.

Lemma extractor_returns_witness :
  exists data, extract_receipt_fields_v3 scenario_text = Ok data.
Proof.
  apply extractor_returns.
  - intros (m & S & D). vm_compute in S. injection S as <-.
    vm_compute in D. discriminate D.
  - intros i m Hi Hm.
    apply in_table_rows in Hi. vm_compute in Hi. destruct Hi as [<- | []].
    vm_compute in Hm. injection Hm as <-. vm_compute. lia.
Defined.

(** X21: the extractor corrects the text itself: on a text that went through
    [normalize_ocr_errors] before, it returns what it returns on the text. *)
Theorem extractor_ignores_prior_correction (text : str) :
  extract_receipt_fields_v3 (normalize_ocr_errors text)
  = extract_receipt_fields_v3 text.
Proof.
  unfold extract_receipt_fields_v3.
  rewrite (proj1 (normalize_twice text)). reflexivity.
Qed.

(** X22: the receipt number of an extracted record, when it is set, is a
    string of decimal digits that is not empty, so it counts in the score. *)
Theorem receipt_number_is_digits (text : str) (data : Receipt) (r : str) :
  extract_receipt_fields_v3 text = Ok data ->
  receipt_number data = Some r ->
  r <> [] /\ forallb is_digit r = true
  /\ str_truthy (receipt_number data) = true.
Proof. exact (@receipt_number_digits text data r). Qed.

Lemma receipt_number_is_digits_witness :
  lit "4521" <> [] /\ forallb is_digit (lit "4521") = true.
Proof.
  destruct (extract_receipt_fields_v3 scenario_text) as [data |] eqn:E;
    [| vm_compute in E; discriminate E].
  assert (R : receipt_number data = Some (lit "4521"))
    by (vm_compute in E; injection E as <-; reflexivity).
  destruct (@receipt_number_is_digits _ _ _ E R) as (H1 & H2 & _).
  split; assumption.
Defined.

(** X23: the total amount of an extracted record, when it is set, is the
    float that the digits of the amount write once the commas are removed;
    it is never negative and never a NaN. *)
Theorem total_amount_is_not_negative (text : str) (data : Receipt) (x : float) :
  extract_receipt_fields_v3 text = Ok data ->
  total_amount data = Some x ->
  (exists m,
     re_search true total_pattern (normalize_ocr_errors text) = Some m
     /\ float_of_str (remove_char "," (grp 1 m)) = Ok x)
  /\ fle fzero x = true.
Proof.
  intros Hx Ht. destruct (@extracted_fields _ _ Hx) as (_ & _ & _ & T & _).
  cbv zeta in T.
  destruct (re_search true total_pattern (normalize_ocr_errors text))
    as [m |]; [| congruence].
  destruct T as (amount & F & T). rewrite T in Ht. injection Ht as <-.
  split; [eauto |]. exact (@float_of_str_nonneg _ _ F).
Qed.

Lemma total_amount_is_not_negative_witness :
  exists x,
    float_of_str (lit "1250.50") = Ok x /\ fle fzero x = true.
Proof.
  destruct (extract_receipt_fields_v3 thousands_text) as [data |] eqn:E;
    [| vm_compute in E; discriminate E].
  destruct (total_amount data) as [x |] eqn:T;
    [| vm_compute in E; injection E as <-; discriminate T].
  destruct (@total_amount_is_not_negative _ _ _ E T) as ((m & S & F) & P).
  exists x. split; [| exact P].
  vm_compute in S. injection S as <-. exact F.
Defined.

(** X24: the payment method of an extracted record, when it is set, lies on
    one line and is trimmed: it has no line break, and neither begins nor
    ends with whitespace. *)
Theorem payment_method_is_trimmed (text : str) (data : Receipt) (p : str) :
  extract_receipt_fields_v3 text = Ok data ->
  payment_method data = Some p ->
  ~ In newline p
  /\ (forall x t, p = x :: t -> is_space x = false)
  /\ (forall t x, p = t ++ [x] -> is_space x = false).
Proof.
  intros Hx Hp. destruct (@extracted_fields _ _ Hx) as (_ & _ & _ & _ & P & _).
  cbv zeta in P. rewrite P in Hp.
  destruct (re_search true payment_pattern (normalize_ocr_errors text))
    as [m |] eqn:S; [| discriminate].
  injection Hp as <-.
  apply search_Run in S. destruct S as (q & s' & c & HR & G).
  apply payment_match_line in HR. destruct HR as (g & Hg & N).
  unfold grp. rewrite G, Hg. split; [| split].
  - intros H. apply N. exact (@strip_In _ _ H).
  - intros x t E. exact (@strip_head _ _ _ E).
  - intros t x E. exact (@strip_last _ _ _ E).
Qed.

Lemma payment_method_is_trimmed_witness :
  ~ In newline (lit "Credit Card")
  /\ (forall x t, lit "Credit Card" = x :: t -> is_space x = false)
  /\ (forall t x, lit "Credit Card" = t ++ [x] -> is_space x = false).
Proof.
  destruct (extract_receipt_fields_v3 scenario_text) as [data |] eqn:E;
    [| vm_compute in E; discriminate E].
  assert (P : payment_method data = Some (lit "Credit Card"))
    by (vm_compute in E; injection E as <-; reflexivity).
  exact (@payment_method_is_trimmed _ _ _ E P).
Defined.

(** *** The e-mail address *)

Lemma find_first {A : Type} (f : A -> bool) (l : list A) (e : A) :
  find f l = Some e ->
  exists before after,
    l = before ++ e :: after /\ f e = true
    /\ forall x, In x before -> f x = false.
Proof.
  induction l as [| y l IH]; cbn [find]; [discriminate |].
  destruct (f y) eqn:Y.
  - intros H. injection H as <-. exists [], l.
    split; [reflexivity |]. split; [exact Y | intros x []].
  - intros H. destruct (IH H) as (b & a & -> & E & B).
    exists (y :: b), a. split; [reflexivity |]. split; [exact E |].
    intros x [<- | Hx]; [exact Y | exact (B x Hx)].
Qed.

(** X25: the e-mail address of an extracted record is the first address
    found in the corrected text that does not begin with "inquire"; it is
    missing exactly when every address found begins with "inquire". *)
Theorem customer_email_rule (text : str) (data : Receipt) :
  extract_receipt_fields_v3 text = Ok data ->
  match email (bill_to data) with
  | Some e =>
      exists before after,
        re_findall1 false email_pattern (normalize_ocr_errors text)
        = before ++ e :: after
        /\ startswith (lit "inquire") e = false
        /\ forall x, In x before -> startswith (lit "inquire") x = true
  | None =>
      forall x,
        In x (re_findall1 false email_pattern (normalize_ocr_errors text)) ->
        startswith (lit "inquire") x = true
  end.
Proof.
  intros Hx. rewrite (extracted_email _ Hx).
  destruct (find _ _) as [e |] eqn:F.
  - apply find_first in F. destruct F as (b & a & E & N & B).
    exists b, a. split; [exact E |]. split.
    + apply negb_true_iff. exact N.
    + intros x Hin. apply negb_false_iff. exact (B x Hin).
  - intros x Hin. apply negb_false_iff. exact (find_none _ _ F x Hin).
Qed.

Lemma customer_email_rule_witness :
  exists before after,
    re_findall1 false email_pattern (normalize_ocr_errors two_address_text)
    = before ++ lit "ann.lee@mail.org" :: after
    /\ startswith (lit "inquire") (lit "ann.lee@mail.org") = false
    /\ forall x, In x before -> startswith (lit "inquire") x = true.
Proof.
  destruct (extract_receipt_fields_v3 two_address_text) as [data |] eqn:E;
    [| vm_compute in E; discriminate E].
  pose proof (@customer_email_rule two_address_text data E) as R.
  assert (M : email (bill_to data) = Some (lit "ann.lee@mail.org"))
    by (vm_compute in E; injection E as <-; reflexivity).
  rewrite M in R. exact R.
Defined.

(** *** The date *)

Section DateShape.

Local Open Scope nat_scope.

Lemma Run_Alt_inv (ic : bool) (r1 r2 : regex) (c c' : cfg) :
  Run ic (Alt r1 r2) c c' -> Run ic r1 c c' \/ Run ic r2 c c'.
Proof. intros H. inversion H; subst; auto. Qed.

Lemma Run_Eps_inv (ic : bool) (c c' : cfg) : Run ic Eps c c' -> c' = c.
Proof. intros H. inversion H; subst. reflexivity. Qed.

Lemma Run_word (w : str) :
  forall c c', Run false (word w) c c' ->
               rest c = w ++ rest c' /\ caps c' = caps c.
Proof.
  induction w as [| a w IH]; intros c c' H.
  - cbn in H. apply Run_Eps_inv in H. subst c'. auto.
  - destruct w as [| b w].
    + cbn in H. apply Run_Lit_ic in H. destruct H as (x & X & R & K).
      apply lit_ok_exact in X. subst x. auto.
    + change (word (a :: b :: w)) with (Cat (Lit a) (word (b :: w))) in H.
      apply Run_Cat_inv in H. destruct H as (c1 & H1 & H2).
      apply Run_Lit_ic in H1. destruct H1 as (x & X & R & K).
      apply lit_ok_exact in X. subst x.
      destruct (IH _ _ H2) as (R2 & K2).
      rewrite R, R2, K2, K. auto.
Qed.

Lemma Run_alt_words (ms : list string) :
  ms <> [] ->
  forall c c',
    Run false (alt (map (fun m => word (lit m)) ms)) c c' ->
    exists m, In m ms /\ rest c = lit m ++ rest c' /\ caps c' = caps c.
Proof.
  induction ms as [| m ms IH]; intros N c c' H; [congruence |].
  destruct ms as [| m' ms].
  - cbn in H. apply Run_word in H. exists m. split; [left; reflexivity | exact H].
  - change (alt (map (fun m => word (lit m)) (m :: m' :: ms)))
      with (Alt (word (lit m))
                (alt (map (fun m => word (lit m)) (m' :: ms)))) in H.
    apply Run_Alt_inv in H. destruct H as [H | H].
    + apply Run_word in H. exists m. split; [left; reflexivity | exact H].
    + destruct (IH ltac:(discriminate) _ _ H) as (k & Hk & R).
      exists k. split; [right; exact Hk | exact R].
Qed.

Lemma date_match_shape (c0 c : cfg) :
  Run false date_pattern c0 c ->
  exists month day year,
    In month months
    /\ group 1 (caps c) = Some (lit month)
    /\ group 2 (caps c) = Some day
    /\ group 3 (caps c) = Some year
    /\ (length day = 1 \/ length day = 2) /\ forallb is_digit day = true
    /\ length year = 4 /\ forallb is_digit year = true.
Proof.
  unfold date_pattern. cbn [cat]. intros H.
  apply Run_Cat_inv in H. destruct H as (c1 & G1 & H).
  assert (K1 : group 1 (caps c) = group 1 (caps c1)).
  { apply (Run_group_kept 1 H). cbn.
    intros [E | [E | []]]; discriminate E. }
  apply Run_Cat_inv in H. destruct H as (c2 & _ & H).
  apply Run_Cat_inv in H. destruct H as (c3 & G2 & H).
  assert (K2 : group 2 (caps c) = group 2 (caps c3)).
  { apply (Run_group_kept 2 H). cbn. intros [E | []]; discriminate E. }
  apply Run_Cat_inv in H. destruct H as (c4 & _ & H).
  apply Run_Cat_inv in H. destruct H as (c5 & _ & G3).
  rewrite K1, K2. clear K1 K2.
  apply Run_Grp_text_ic in G1. destruct G1 as (c1' & G1 & _ & _ & T1).
  apply Run_alt_words in G1; [| discriminate].
  destruct G1 as (month & Hm & R1 & _).
  apply Run_Grp_text_ic in G2. destruct G2 as (c3' & G2 & _ & _ & T2).
  apply Run_Cat_inv in G2. destruct G2 as (c3a & D1 & D2).
  apply Run_Cls_inv in D1. destruct D1 as (d1 & X1 & Rd1 & _).
  apply Run_Grp_text_ic in G3. destruct G3 as (c' & G3 & _ & _ & T3).
  cbn [cat] in G3.
  apply Run_Cat_inv in G3. destruct G3 as (y1 & Y1 & G3).
  apply Run_Cat_inv in G3. destruct G3 as (y2 & Y2 & G3).
  apply Run_Cat_inv in G3. destruct G3 as (y3 & Y3 & Y4).
  apply Run_Cls_inv in Y1. destruct Y1 as (a & A & Ra & _).
  apply Run_Cls_inv in Y2. destruct Y2 as (b & B & Rb & _).
  apply Run_Cls_inv in Y3. destruct Y3 as (e & E & Re & _).
  apply Run_Cls_inv in Y4. destruct Y4 as (f & F & Rf & _).
  assert (Ty : group 3 (caps c) = Some [a; b; e; f]).
  { apply T3. rewrite Ra, Rb, Re, Rf. reflexivity. }
  unfold Opt in D2. apply Run_Alt_inv in D2. destruct D2 as [D2 | D2].
  - apply Run_Cls_inv in D2. destruct D2 as (d2 & X2 & Rd2 & _).
    exists month, [d1; d2], [a; b; e; f].
    split; [exact Hm |]. split; [exact (T1 _ R1) |].
    split; [apply T2; rewrite Rd1, Rd2; reflexivity |].
    split; [exact Ty |].
    cbn [length forallb]. rewrite X1, X2, A, B, E, F. auto.
  - apply Run_Eps_inv in D2. subst c3'.
    exists month, [d1], [a; b; e; f].
    split; [exact Hm |]. split; [exact (T1 _ R1) |].
    split; [apply T2; rewrite Rd1; reflexivity |].
    split; [exact Ty |].
    cbn [length forallb]. rewrite X1, A, B, E, F. auto.
Qed.

(** The search for a year. *)
Lemma year_Run (e : env) (p : nat) (s : str) (c : cfg) :
  Run false year_pattern (Cfg e p s) c ->
  exists y, year_at s = Some y /\ group 1 (caps c) = Some y.
Proof.
  unfold year_pattern. intros H.
  apply Run_Grp_text_ic in H. destruct H as (c' & H & _ & _ & T).
  cbn [cat] in H.
  apply Run_Cat_inv in H. destruct H as (y1 & Y1 & H).
  apply Run_Cat_inv in H. destruct H as (y2 & Y2 & H).
  apply Run_Cat_inv in H. destruct H as (y3 & Y3 & Y4).
  apply Run_Cls_inv in Y1. destruct Y1 as (a & A & Ra & _).
  apply Run_Cls_inv in Y2. destruct Y2 as (b & B & Rb & _).
  apply Run_Cls_inv in Y3. destruct Y3 as (d & D & Rd & _).
  apply Run_Cls_inv in Y4. destruct Y4 as (f & F & Rf & _).
  cbn [rest] in *. exists [a; b; d; f]. split.
  - rewrite Ra, Rb, Rd, Rf. cbn [year_at]. rewrite A, B, D, F. reflexivity.
  - apply T. rewrite Ra, Rb, Rd, Rf. reflexivity.
Qed.

Lemma year_at_Run (p : nat) (s : str) (y : str) :
  year_at s = Some y -> exists c, Run false year_pattern (Cfg [] p s) c.
Proof.
  destruct s as [| a [| b [| d [| f r]]]]; try discriminate. cbn [year_at].
  destruct (is_digit a) eqn:A, (is_digit b) eqn:B, (is_digit d) eqn:D,
    (is_digit f) eqn:F; try discriminate.
  intros _. eexists. unfold year_pattern. apply RunGrp. cbn [cat].
  eapply RunCat; [apply RunCls; rewrite cls_ok_exact; exact A |].
  eapply RunCat; [apply RunCls; rewrite cls_ok_exact; exact B |].
  eapply RunCat; [apply RunCls; rewrite cls_ok_exact; exact D |].
  apply RunCls. rewrite cls_ok_exact. exact F.
Qed.

Lemma first_at_year (p : nat) (s : str) :
  match first_at false year_pattern p s with
  | Some m => year_at s = Some (grp 1 m)
  | None => year_at s = None
  end.
Proof.
  destruct (first_at false year_pattern p s) as [m |] eqn:F.
  - apply first_at_Run in F. destruct F as (c & HR & ->).
    apply year_Run in HR. destruct HR as (y & Y & G).
    unfold grp. cbn [groups]. rewrite G. exact Y.
  - destruct (year_at s) as [y |] eqn:Y; [| reflexivity].
    exfalso. destruct (@year_at_Run p _ _ Y) as (c & HR).
    exact (first_at_none F HR).
Qed.

Lemma search_year_skip (x : ascii) (s : str) (p : nat) :
  year_at (x :: s) = None ->
  search_from false year_pattern p (x :: s)
  = search_from false year_pattern (S p) s.
Proof.
  intros Y. cbn [search_from].
  pose proof (first_at_year p (x :: s)) as F.
  destruct (first_at false year_pattern p (x :: s)); [congruence | reflexivity].
Qed.

Lemma search_year_skip_all (w : str) :
  forallb (fun c => negb (is_digit c)) w = true ->
  forall p s, search_from false year_pattern p (w ++ s)
              = search_from false year_pattern (p + length w) s.
Proof.
  induction w as [| x w IH]; intros F p s; cbn [app length].
  - rewrite Nat.add_0_r. reflexivity.
  - cbn [forallb] in F. apply andb_prop in F. destruct F as [X F].
    apply negb_true_iff in X.
    rewrite search_year_skip.
    + rewrite (IH F). f_equal. lia.
    + destruct (w ++ s) as [| b [| d [| f r]]]; cbn [year_at];
        rewrite ?X; reflexivity.
Qed.

Lemma month_letters (month : string) :
  In month months ->
  forallb (fun c => negb (is_digit c)) (lit month) = true
  /\ lit month <> [].
Proof.
  intros H. cbn in H.
  repeat (destruct H as [<- | H]; [split; [reflexivity | discriminate] |]).
  destruct H.
Qed.

Lemma search_year_found (p : nat) (year : str) :
  length year = 4 -> forallb is_digit year = true ->
  exists m, search_from false year_pattern p year = Some m
            /\ grp 1 m = year.
Proof.
  intros L F.
  destruct year as [| a [| b [| d [| f [| g r]]]]]; try discriminate L.
  cbn [forallb] in F.
  apply andb_prop in F. destruct F as [A F].
  apply andb_prop in F. destruct F as [B F].
  apply andb_prop in F. destruct F as [D F].
  apply andb_prop in F. destruct F as [F _].
  cbn [search_from].
  pose proof (first_at_year p [a; b; d; f]) as Y.
  cbn [year_at] in Y. rewrite A, B, D, F in Y. cbn [andb] in Y.
  destruct (first_at false year_pattern p [a; b; d; f]) as [m |];
    [| discriminate Y].
  exists m. split; [reflexivity |]. injection Y as Y. symmetry. exact Y.
Qed.

(** In a date as the extractor writes it, the first run of four digits is
    the year. *)
Lemma search_year_in_date (month : string) (day year : str) :
  In month months ->
  length day = 1 \/ length day = 2 -> forallb is_digit day = true ->
  length year = 4 -> forallb is_digit year = true ->
  exists m,
    re_search false year_pattern
              (lit month ++ lit " " ++ day ++ lit ", " ++ year) = Some m
    /\ grp 1 m = year.
Proof.
  intros Hm Ld Fd Ly Fy. unfold re_search.
  destruct (@month_letters month Hm) as [M _].
  rewrite (@search_year_skip_all _ M).
  change (lit " " ++ day ++ lit ", " ++ year)
    with (" "%char :: day ++ lit ", " ++ year).
  rewrite search_year_skip by
    (destruct (day ++ lit ", " ++ year) as [| b [| d [| f r]]]; reflexivity).
  destruct day as [| d1 [| d2 [| d3 day]]]; cbn [length] in Ld;
    try (destruct Ld as [Ld | Ld]; discriminate Ld).
  - change ([d1] ++ lit ", " ++ year) with (d1 :: [","%char; " "%char] ++ year).
    rewrite search_year_skip by
      (destruct year as [| b [| d r]]; cbn [app year_at];
       rewrite ?andb_false_r; reflexivity).
    rewrite (@search_year_skip_all [","%char; " "%char] eq_refl).
    apply search_year_found; assumption.
  - change ([d1; d2] ++ lit ", " ++ year)
      with (d1 :: d2 :: [","%char; " "%char] ++ year).
    rewrite search_year_skip by
      (destruct year as [| b r]; cbn [app year_at];
       rewrite ?andb_false_r; reflexivity).
    rewrite search_year_skip by
      (destruct year as [| b [| d r]]; cbn [app year_at];
       rewrite ?andb_false_r; reflexivity).
    rewrite (@search_year_skip_all [","%char; " "%char] eq_refl).
    apply search_year_found; assumption.
Qed.

End DateShape.

Lemma extracted_date (text : str) (data : Receipt) (d : str) :
  extract_receipt_fields_v3 text = Ok data ->
  date data = Some d ->
  exists month day year,
    In month months
    /\ (length day = 1%nat \/ length day = 2%nat)
    /\ forallb is_digit day = true
    /\ length year = 4%nat /\ forallb is_digit year = true
    /\ d = lit month ++ lit " " ++ day ++ lit ", " ++ year.
Proof.
  intros Hx Hd. destruct (@extracted_fields _ _ Hx) as (_ & D & _).
  cbv zeta in D. rewrite D in Hd.
  destruct (re_search false date_pattern (normalize_ocr_errors text))
    as [m |] eqn:S; [| discriminate].
  injection Hd as <-.
  apply search_Run in S. destruct S as (p & s' & c & HR & G).
  apply date_match_shape in HR.
  destruct HR as (month & day & year & Hm & G1 & G2 & G3 & Ld & Fd & Ly & Fy).
  exists month, day, year. unfold grp. rewrite G, G1, G2, G3. auto 10.
Qed.

(** X26: the date of an extracted record, when it is set, is written anew as
    the name of a month, a space, a day of one or two digits, a comma and a
    space, and a year of four digits, whether or not the text had the comma. *)
Theorem extracted_date_shape (text : str) (data : Receipt) (d : str) :
  extract_receipt_fields_v3 text = Ok data ->
  date data = Some d ->
  exists month day year,
    In month months
    /\ (length day = 1%nat \/ length day = 2%nat)
    /\ forallb is_digit day = true
    /\ length year = 4%nat /\ forallb is_digit year = true
    /\ d = lit month ++ lit " " ++ day ++ lit ", " ++ year.
Proof. exact (@extracted_date text data d). Qed.

Lemma extracted_date_shape_witness :
  exists data,
    extract_receipt_fields_v3 plain_date_text = Ok data
    /\ date data = Some (lit "June 7, 1999")
    /\ exists month day year,
         In month months
         /\ (length day = 1%nat \/ length day = 2%nat)
         /\ forallb is_digit day = true
         /\ length year = 4%nat /\ forallb is_digit year = true
         /\ lit "June 7, 1999"
            = lit month ++ lit " " ++ day ++ lit ", " ++ year.
Proof.
  eexists. split; [vm_compute; reflexivity |]. split; [reflexivity |].
  eapply (@extracted_date_shape plain_date_text).
  - vm_compute. reflexivity.
  - reflexivity.
Defined.

Lemma year_not_in_sum_or_email (data : Receipt) (y : Z) :
  ~ In (UnusualYear y) (check_sum data ++ check_email data).
Proof.
  intros H. apply in_app_or in H. destruct H as [H | H].
  - destruct (check_sum_shape data) as [E | (s & t & E)]; rewrite E in H;
      [destruct H | destruct H as [H | []]; discriminate H].
  - destruct (check_email_shape data) as [E | (e & E)]; rewrite E in H;
      [destruct H | destruct H as [H | []]; discriminate H].
Qed.

(** X27: the validator reads the year of an extracted date right: for a
    record of the extractor whose date is set, the validator warns about the
    year exactly when the four digits that end the date write a number
    outside 2020..2100, and the warning carries that number. *)
Theorem year_warning_of_extracted_date
    (text : str) (data : Receipt) (d : str) :
  extract_receipt_fields_v3 text = Ok data ->
  date data = Some d ->
  exists body year ws,
    d = body ++ year
    /\ length year = 4%nat /\ forallb is_digit year = true
    /\ validate_extraction data = Ok ws
    /\ forall y, In (UnusualYear y) ws
                 <-> y = digits_val year /\ ~ (2020 <= y <= 2100)%Z.
Proof.
  intros Hx Hd.
  destruct (@extracted_date _ _ _ Hx Hd)
    as (month & day & year & Hm & Ld & Fd & Ly & Fy & E).
  destruct (@search_year_in_date month day year Hm Ld Fd Ly Fy)
    as (m & S & G).
  destruct (validate_parts data) as (dw & D & V).
  exists (lit month ++ lit " " ++ day ++ lit ", "), year,
    (check_sum data ++ check_email data ++ dw).
  split; [rewrite E, <- !app_assoc; reflexivity |].
  split; [exact Ly |]. split; [exact Fy |]. split; [exact V |].
  assert (C : dw = if (2020 <=? digits_val year)%Z
                      && (digits_val year <=? 2100)%Z
                   then [] else [UnusualYear (digits_val year)]).
  { unfold check_date in D. rewrite Hd in D.
    assert (T : str_truthy (Some d) = true).
    { rewrite E. destruct (@month_letters month Hm) as [_ N].
      destruct (lit month); [congruence | reflexivity]. }
    rewrite T, E, S in D. rewrite G in D.
    assert (I : int_of_str year = Ok (digits_val year)).
    { unfold int_of_str. rewrite Fy.
      destruct year; [discriminate Ly | reflexivity]. }
    rewrite I in D. cbn [bind] in D.
    destruct ((2020 <=? digits_val year)%Z && (digits_val year <=? 2100)%Z);
      injection D as <-; reflexivity. }
  intros y. rewrite app_assoc, in_app_iff. split.
  - intros [H | H]; [exfalso; exact (year_not_in_sum_or_email _ _ H) |].
    rewrite C in H.
    destruct ((2020 <=? digits_val year)%Z && (digits_val year <=? 2100)%Z)
      eqn:R; [destruct H |].
    destruct H as [H | []]. injection H as <-. split; [reflexivity |].
    apply andb_false_iff in R. destruct R as [R | R];
      apply Z.leb_gt in R; lia.
  - intros (-> & R). right. rewrite C.
    destruct ((2020 <=? digits_val year)%Z && (digits_val year <=? 2100)%Z)
      eqn:R'; [| left; reflexivity].
    apply andb_prop in R'. destruct R' as [R1 R2].
    apply Z.leb_le in R1, R2. lia.
Qed.

Lemma year_warning_of_extracted_date_witness :
  exists data body year ws,
    extract_receipt_fields_v3 plain_date_text = Ok data
    /\ lit "June 7, 1999" = body ++ year
    /\ length year = 4%nat /\ forallb is_digit year = true
    /\ validate_extraction data = Ok ws
    /\ forall y, In (UnusualYear y) ws
                 <-> y = digits_val year /\ ~ (2020 <= y <= 2100)%Z.
Proof.
  destruct (extract_receipt_fields_v3 plain_date_text) as [data |] eqn:E;
    [| vm_compute in E; discriminate E].
  assert (D : date data = Some (lit "June 7, 1999"))
    by (vm_compute in E; injection E as <-; reflexivity).
  destruct (@year_warning_of_extracted_date _ _ _ E D)
    as (body & year & ws & H).
  exists data, body, year, ws. split; [reflexivity | exact H].
Defined.

(** *** The name *)

Section NameShape.

Local Open Scope nat_scope.

Lemma ends_lower_app (u v : str) : ends_lower v -> ends_lower (u ++ v).
Proof.
  intros (t & y & -> & Y). exists (u ++ t), y.
  rewrite app_assoc. auto.
Qed.

Lemma ends_lower_run (l : ascii) (ls : str) :
  is_lower l = true -> forallb is_lower ls = true -> ends_lower (l :: ls).
Proof.
  revert l. induction ls as [| x ls IH]; intros l L F.
  - exists [], l. auto.
  - cbn [forallb] in F. apply andb_prop in F. destruct F as [X F].
    apply (@ends_lower_app [l]). exact (IH x X F).
Qed.

Lemma forallb_weaken (f g : ascii -> bool) (w : str) :
  (forall c, f c = true -> g c = true) ->
  forallb f w = true -> forallb g w = true.
Proof.
  intros H. induction w as [| x w IH]; cbn [forallb]; [reflexivity |].
  intros F. apply andb_prop in F. destruct F as [X F].
  rewrite (H x X), (IH F). reflexivity.
Qed.

Lemma lower_is_letter (c : ascii) : is_lower c = true -> letter_or_space c = true.
Proof. unfold letter_or_space. intros ->. rewrite orb_true_r. reflexivity. Qed.

Lemma upper_is_letter (c : ascii) : is_upper c = true -> letter_or_space c = true.
Proof. unfold letter_or_space. intros ->. reflexivity. Qed.

Lemma space_is_letter_or_space (c : ascii) :
  is_space c = true -> letter_or_space c = true.
Proof. unfold letter_or_space. intros ->. apply orb_true_r. Qed.

Lemma next_word_text (c c' : cfg) :
  Run false next_word c c' ->
  exists t, rest c = t ++ rest c'
            /\ forallb letter_or_space t = true
            /\ existsb is_space t = true
            /\ ends_lower t.
Proof.
  unfold next_word. cbn [cat]. intros H.
  apply Run_Cat_inv in H. destruct H as (c1 & H1 & H).
  apply Run_Cat_inv in H. destruct H as (c2 & H2 & H3).
  apply Run_plus_cls in H1. destruct H1 as (x & w & X & W & R1 & _).
  apply Run_Cls_inv in H2. destruct H2 as (u & U & R2 & _).
  apply Run_plus_cls in H3. destruct H3 as (l & ls & L & Ls & R3 & _).
  exists ((x :: w) ++ u :: l :: ls). split.
  - rewrite R1, R2, R3. cbn. rewrite <- app_assoc. reflexivity.
  - split; [| split].
    + rewrite forallb_app. cbn [forallb].
      rewrite (@space_is_letter_or_space _ X), (@upper_is_letter _ U),
        (@lower_is_letter _ L).
      rewrite (@forallb_weaken _ _ _ space_is_letter_or_space W).
      rewrite (@forallb_weaken _ _ _ lower_is_letter Ls). reflexivity.
    + cbn [app existsb]. rewrite X. reflexivity.
    + apply ends_lower_app. apply (@ends_lower_app [u]).
      exact (@ends_lower_run _ _ L Ls).
Qed.

Lemma more_words_text (r : regex) (c c' : cfg) :
  Run false r c c' -> r = Star next_word ->
  exists t, rest c = t ++ rest c'
            /\ forallb letter_or_space t = true
            /\ (t = [] \/ ends_lower t).
Proof.
  induction 1; intros E; try discriminate E.
  - exists []. auto.
  - injection E as ->. destruct (IHRun2 eq_refl) as (t2 & R2 & F2 & L2).
    apply next_word_text in H. destruct H as (t1 & R1 & F1 & _ & L1).
    exists (t1 ++ t2). split; [| split].
    + rewrite R1, R2, app_assoc. reflexivity.
    + rewrite forallb_app, F1, F2. reflexivity.
    + right. destruct L2 as [-> | L2];
        [rewrite app_nil_r; exact L1 | apply ends_lower_app; exact L2].
Qed.

Lemma name_match_shape (c0 c : cfg) :
  Run false name_pattern c0 c ->
  exists u t,
    group 1 (caps c) = Some (u :: t)
    /\ is_upper u = true
    /\ forallb letter_or_space t = true
    /\ existsb is_space t = true
    /\ ends_lower t.
Proof.
  unfold name_pattern. cbn [cat]. intros H.
  apply Run_Cat_inv in H. destruct H as (c1 & _ & H).
  apply Run_Cat_inv in H. destruct H as (c2 & _ & H).
  apply Run_Cat_inv in H. destruct H as (c3 & _ & H).
  apply Run_Cat_inv in H. destruct H as (c4 & _ & H).
  apply Run_Cat_inv in H. destruct H as (c5 & _ & H).
  apply Run_Cat_inv in H. destruct H as (c6 & _ & H).
  apply Run_Grp_text_ic in H. destruct H as (c' & H & _ & _ & T).
  apply Run_Cat_inv in H. destruct H as (c7 & H1 & H).
  apply Run_Cat_inv in H. destruct H as (c8 & H2 & H3).
  apply Run_Cls_inv in H1. destruct H1 as (u & U & R1 & _).
  apply Run_plus_cls in H2. destruct H2 as (l & ls & L & Ls & R2 & _).
  fold next_word in H3. unfold Plus in H3.
  apply Run_Cat_inv in H3. destruct H3 as (c9 & H3 & H4).
  apply next_word_text in H3. destruct H3 as (t1 & R3 & F1 & S1 & L1).
  destruct (@more_words_text _ _ _ H4 eq_refl) as (t2 & R4 & F2 & L2).
  exists u, ((l :: ls) ++ t1 ++ t2). split.
  - apply T. rewrite R1, R2, R3, R4. cbn.
    rewrite <- !app_assoc. reflexivity.
  - split; [exact U |]. split; [| split].
    + rewrite !forallb_app, F1, F2. cbn [forallb].
      rewrite (@lower_is_letter _ L), (@forallb_weaken _ _ _ lower_is_letter Ls).
      reflexivity.
    + rewrite !existsb_app, S1. cbn [orb]. apply orb_true_r.
    + apply ends_lower_app.
      destruct L2 as [-> | L2];
        [rewrite app_nil_r; exact L1 | apply ends_lower_app; exact L2].
Qed.

Lemma upper_not_space (c : ascii) : is_upper c = true -> is_space c = false.
Proof.
  destruct c as [[|] [|] [|] [|] [|] [|] [|] [|]]; vm_compute; intros H;
    (reflexivity || discriminate H).
Qed.

Lemma lower_not_space (c : ascii) : is_lower c = true -> is_space c = false.
Proof.
  destruct c as [[|] [|] [|] [|] [|] [|] [|] [|]]; vm_compute; intros H;
    (reflexivity || discriminate H).
Qed.

(** A string that neither begins nor ends with whitespace is its own
    [strip]. *)
Lemma strip_trimmed (u y : ascii) (t : str) :
  is_space u = false -> is_space y = false ->
  strip (u :: t ++ [y]) = u :: t ++ [y].
Proof.
  intros U Y. unfold strip. cbn [lstrip]. rewrite U.
  unfold rstrip.
  change (u :: t ++ [y]) with ((u :: t) ++ [y]).
  rewrite rev_app_distr. cbn [rev app lstrip]. rewrite Y.
  change (y :: rev t ++ [u]) with (rev [y] ++ rev (u :: t)).
  rewrite <- rev_app_distr, rev_involutive. reflexivity.
Qed.

End NameShape.

(** X28: the name of an extracted record, when it is set, is made of at
    least two words: it begins with an upper-case letter and ends with a
    lower-case letter, has whitespace inside, and has only letters and
    whitespace. *)
Theorem extracted_name_shape (text : str) (data : Receipt) (n : str) :
  extract_receipt_fields_v3 text = Ok data ->
  name (bill_to data) = Some n ->
  exists u t,
    n = u :: t
    /\ is_upper u = true
    /\ forallb letter_or_space t = true
    /\ existsb is_space t = true
    /\ ends_lower t.
Proof.
  intros Hx Hn. destruct (@extracted_fields _ _ Hx) as (_ & _ & N & _).
  cbv zeta in N. rewrite N in Hn.
  destruct (re_search false name_pattern (normalize_ocr_errors text))
    as [m |] eqn:S; [| discriminate].
  injection Hn as <-.
  apply search_Run in S. destruct S as (p & s' & c & HR & G).
  apply name_match_shape in HR.
  destruct HR as (u & t & Hg & U & F & W & L).
  exists u, t. unfold grp. rewrite G, Hg.
  split; [| auto].
  destruct L as (t' & y & -> & Y).
  apply strip_trimmed; [exact (@upper_not_space _ U) | exact (@lower_not_space _ Y)].
Qed.

Lemma extracted_name_shape_witness :
  exists u t,
    lit "Ann Lee" = u :: t
    /\ is_upper u = true
    /\ forallb letter_or_space t = true
    /\ existsb is_space t = true
    /\ ends_lower t.
Proof.
  destruct (extract_receipt_fields_v3 two_address_text) as [data |] eqn:E;
    [| vm_compute in E; discriminate E].
  assert (N : name (bill_to data) = Some (lit "Ann Lee"))
    by (vm_compute in E; injection E as <-; reflexivity).
  exact (@extracted_name_shape _ _ _ E N).
Defined.

(** ** The callers: extraction, validation and scoring in a row *)

Lemma extracted_no_email_warning (text : str) (data : Receipt) :
  extract_receipt_fields_v3 text = Ok data ->
  check_email data = [].
Proof.
  intros Hx. unfold check_email. rewrite (extracted_email _ Hx).
  destruct (find _ _) as [e |] eqn:F; [| reflexivity].
  apply find_some in F. destruct F as [Hin _].
  apply findall_email_shape in Hin. destruct Hin as [H1 H2].
  rewrite H1, H2. destruct (str_truthy (Some e)); reflexivity.
Qed.

Lemma score_range (data : Receipt) :
  0 <= calculate_confidence_score data <= 100.
Proof.
  rewrite (score_units data).
  destruct (presence_sum_units data) as [_ Hw].
  split; q_arith.
Qed.

Lemma process_text_cases (ocr_text : str) :
  match extract_receipt_fields_v3 ocr_text with
  | Ok data =>
      exists ws,
        validate_extraction data = Ok ws
        /\ process_text ocr_text
           = Ok (mkProcessed data (calculate_confidence_score data) ws)
        /\ existsb is_email_warning ws = false
        /\ (length ws <= 2)%nat
  | Raise e => process_text ocr_text = Raise e
  end.
Proof.
  unfold process_text.
  destruct (extract_receipt_fields_v3 ocr_text) as [data | e] eqn:E;
    [| reflexivity].
  cbn [bind].
  destruct (validate_parts data) as (dw & D & V).
  rewrite (extracted_no_email_warning _ E) in V. cbn [app] in V.
  rewrite V. cbn [bind]. eexists. split; [reflexivity |].
  split; [reflexivity |].
  destruct (check_sum_shape data) as [S | (s & t & S)]; rewrite S;
    destruct (check_date_shape data) as [Y | (y & Y)]; rewrite Y in D;
    injection D as <-; split; cbn; (reflexivity || lia).
Qed.

(** X29: extraction, validation and scoring in a row, as the callers run
    them: the three steps raise exactly what the extractor raises, the
    validator adding no failure; when the extractor returns a record, the
    steps return it with its score, which lies between 0 and 100, and with
    at most two warnings, none of them about the e-mail address. *)
Theorem pipeline_outcome (ocr_text : str) :
  match extract_receipt_fields_v3 ocr_text with
  | Ok data =>
      exists ws,
        validate_extraction data = Ok ws
        /\ process_text ocr_text
           = Ok (mkProcessed data (calculate_confidence_score data) ws)
        /\ existsb is_email_warning ws = false
        /\ (length ws <= 2)%nat
        /\ 0 <= calculate_confidence_score data <= 100
  | Raise e => process_text ocr_text = Raise e
  end.
Proof.
  pose proof (process_text_cases ocr_text) as P.
  destruct (extract_receipt_fields_v3 ocr_text) as [data | e]; [| exact P].
  destruct P as (ws & V & R & M & L). exists ws.
  repeat (split; [assumption |]). apply score_range.
Qed.

(** X30: the status of an invoice, given the text that OCR returned: it is
    [failed] exactly when the label "Total Amount:" is followed by an amount
    without a digit or the line items overflow, and it is [success] exactly
    when the extractor returns a record for which the validator has no
    warning. *)
Theorem status_rule (ocr_text : str) :
  (status_of_text ocr_text = failed
   <-> amount_without_digit ocr_text
       \/ extract_line_items (normalize_ocr_errors ocr_text)
          = Raise OverflowError)
  /\ (status_of_text ocr_text = success
      <-> exists data, extract_receipt_fields_v3 ocr_text = Ok data
                       /\ validate_extraction data = Ok []).
Proof.
  unfold status_of_text.
  pose proof (process_text_cases ocr_text) as P.
  destruct (extractor_cases ocr_text)
    as [(E & A) | [(N & L & E) | (N & data & L & E)]]; rewrite E in *.
  - rewrite P. split.
    + split; [auto | reflexivity].
    + split; [discriminate | intros (d & K & _); discriminate K].
  - rewrite P. split.
    + split; [auto | reflexivity].
    + split; [discriminate | intros (d & K & _); discriminate K].
  - destruct P as (ws & V & -> & _). cbn [validation_warnings]. split.
    + split.
      * destruct ws; discriminate.
      * intros [A | O]; [contradiction | congruence].
    + split.
      * destruct ws as [| w ws]; [| discriminate]. eauto.
      * intros (d & K & V'). injection K as <-.
        rewrite V in V'. injection V' as ->. reflexivity.
Qed.
